(** * A dynamic-membership Paxos citizen: log, writer and synchronisation

    Shallow embedding of the citizen ([Paxos]) and of its two-phase-commit
    [Writer].  JavaScript objects are association lists in insertion order,
    exceptions are an explicit result type, and the state of the citizen is
    threaded through every operation. *)

From Stdlib Require Import ZArith NArith List String Bool Lia Permutation.
Import ListNotations.
Local Open Scope string_scope.
Local Open Scope list_scope.

(** ** Exceptions and the result of a call *)

Inductive Exception : Type :=
| AssertionError (message : string)
| TypeError (message : string)
| SyntaxError (message : string).

Inductive Result (A : Type) : Type :=
| Ok (a : A)
| Throw (e : Exception).

Arguments Ok {A} a.
Arguments Throw {A} e.

Definition bind {A B : Type} (c : Result A) (k : A -> Result B) : Result B :=
  match c with
  | Ok a => k a
  | Throw e => Throw e
  end.

Declare Scope result_scope.
Delimit Scope result_scope with result.
Notation "x <- c ;; k" := (bind c (fun x => k))
  (at level 61, c at next level, right associativity) : result_scope.
Notation "c ;;; k" := (bind c (fun _ => k))
  (at level 61, right associativity) : result_scope.
Local Open Scope result_scope.

Definition assert (condition : bool) (message : string) : Result unit :=
  if condition then Ok tt else Throw (AssertionError message).

Definition returned {A : Type} (c : Result A) : bool :=
  match c with Ok _ => true | Throw _ => false end.

(** ** Promises

    Modelled from the spec: the [monotonic] package (an external dependency,
    used as [Monotonic.asString]) is missing; a promise is the pair [g/r],
    compared lexicographically; increment-major bumps [g] and resets [r],
    increment-minor bumps [r]; [g/0] is a government boundary. *)

Definition Promise : Type := (N * N)%type.

Module Monotonic.

Definition compare (a b : Promise) : Z :=
  match N.compare (fst a) (fst b) with
  | Lt => (-1)%Z
  | Gt => 1%Z
  | Eq => match N.compare (snd a) (snd b) with
          | Lt => (-1)%Z
          | Gt => 1%Z
          | Eq => 0%Z
          end
  end.

Definition increment (p : Promise) (index : nat) : Promise :=
  match index with
  | O => (fst p + 1, 0)%N
  | S _ => (fst p, snd p + 1)%N
  end.

Definition isBoundary (p : Promise) (index : nat) : bool :=
  match index with
  | O => (snd p =? 0)%N
  | S _ => true
  end.

Definition eqb (a b : Promise) : bool :=
  ((fst a =? fst b)%N && (snd a =? snd b)%N)%bool.

End Monotonic.

(** A promise slot that may hold [null] or [undefined]. *)
Definition eqb_nullable (a b : option Promise) : bool :=
  match a, b with
  | Some x, Some y => Monotonic.eqb x y
  | None, None => true
  | _, _ => false
  end.

(** [Monotonic.compare] applied to a slot that may be [null]. *)
Definition compare_nullable (a b : option Promise) : Result Z :=
  match a, b with
  | Some x, Some y => Ok (Monotonic.compare x y)
  | _, _ => Throw (TypeError "Monotonic.compare of null")
  end.

(** [Monotonic.increment] applied to a slot that may be [null]. *)
Definition increment_nullable (a : option Promise) (index : nat) : Result Promise :=
  match a with
  | Some x => Ok (Monotonic.increment x index)
  | None => Throw (TypeError "Monotonic.increment of null")
  end.

(** ** JavaScript objects used as maps: keys in insertion order *)

Class Key (K : Type) : Type := { key_eqb : K -> K -> bool }.

#[global] Instance Key_string : Key string := {| key_eqb := String.eqb |}.

#[global] Instance Key_promise : Key Promise := {| key_eqb := Monotonic.eqb |}.

(** A promise used as a property name; [None] is the key ['undefined']. *)
#[global] Instance Key_nullable : Key (option Promise) := {| key_eqb := eqb_nullable |}.

Module Obj.

Definition t (K V : Type) : Type := list (K * V).

Section Operations.

Context {K V : Type} `{Key K}.

Fixpoint get (k : K) (o : t K V) : option V :=
  match o with
  | [] => None
  | (k', v) :: rest => if key_eqb k k' then Some v else get k rest
  end.

Definition has (k : K) (o : t K V) : bool :=
  match get k o with Some _ => true | None => false end.

(** [o[k] = v]: an existing property keeps its place. *)
Fixpoint set (k : K) (v : V) (o : t K V) : t K V :=
  match o with
  | [] => [(k, v)]
  | (k', v') :: rest =>
      if key_eqb k k' then (k', v) :: rest else (k', v') :: set k v rest
  end.

(** [delete o[k]]. *)
Fixpoint del (k : K) (o : t K V) : t K V :=
  match o with
  | [] => []
  | (k', v') :: rest =>
      if key_eqb k k' then del k rest else (k', v') :: del k rest
  end.

Definition keys (o : t K V) : list K := map fst o.

End Operations.

End Obj.

(** The names every object inherits from [Object.prototype]. *)
Definition Object_prototype : list string :=
  ["constructor"; "__defineGetter__"; "__defineSetter__"; "hasOwnProperty";
   "__lookupGetter__"; "__lookupSetter__"; "isPrototypeOf"; "propertyIsEnumerable";
   "toString"; "valueOf"; "__proto__"; "toLocaleString"].

(** [k in o] for an object literal or a parsed object: its own properties
    and the inherited ones. *)
Definition in_object {V : Type} (k : string) (o : Obj.t string V) : bool :=
  (Obj.has k o || existsb (String.eqb k) Object_prototype)%bool.

(** ** Arrays of identifiers *)

(** [array.indexOf(x)], [None] for [-1]. *)
Fixpoint indexOf (x : string) (l : list string) : option nat :=
  match l with
  | [] => None
  | y :: rest =>
      if String.eqb x y then Some O
      else match indexOf x rest with
           | Some n => Some (S n)
           | None => None
           end
  end.

(** [~array.indexOf(x)] as a condition. *)
Definition includes (x : string) (l : list string) : bool :=
  match indexOf x l with Some _ => true | None => false end.

(** [array.splice(array.indexOf(x), 1)]: a missing element gives index
    [-1], which removes the last element. *)
Definition splice_indexOf (x : string) (l : list string) : list string :=
  match indexOf x l with
  | Some n => firstn n l ++ skipn (S n) l
  | None => removelast l
  end.

Fixpoint insert_sorted (x : string) (l : list string) : list string :=
  match l with
  | [] => [x]
  | y :: rest => if String.leb x y then x :: l else y :: insert_sorted x rest
  end.

(** [array.sort()] on strings. *)
Definition sort (l : list string) : list string :=
  fold_right insert_sorted [] l.

(** ** Data model *)

(** Application payloads and citizen properties are opaque JSON values,
    each written as its canonical text. *)
Definition JSON : Type := string.

Module Immigrate.
Record t : Type := mk {
  id : string;
  properties : option JSON;
  cookie : Z
}.
End Immigrate.

Module Exile.
Record t : Type := mk {
  id : string;
  promise : option Promise;
  properties : option JSON
}.
End Exile.

Module Government.
Record t : Type := mk {
  promise : Promise;
  majority : list string;
  minority : list string;
  constituents : list string;
  properties : Obj.t string JSON;
  immigrated_id : Obj.t Promise string;
  immigrated_promise : Obj.t string Promise;
  map : option (Obj.t Promise Promise);
  immigrate : option Immigrate.t;
  exile : option Exile.t
}.

(** The null government of a fresh citizen. *)
Definition null : t :=
  mk (0, 0)%N [] [] [] [] [] [] None None None.

(** [government.majority[0]]. *)
Definition leader (g : t) : option string := hd_error (majority g).
End Government.

(** The body of a log entry: a government or a user message. *)
Inductive Body : Type :=
| BGovernment (government : Government.t)
| BMessage (message : JSON).

(** [body.immigrate] of an entry body. *)
Definition body_immigrate (b : Body) : option Immigrate.t :=
  match b with
  | BGovernment g => Government.immigrate g
  | BMessage _ => None
  end.

(** A commit as it travels in a sync segment. *)
Module Entry.
Record t : Type := mk {
  promise : Promise;
  body : Body;
  previous : option Promise
}.
End Entry.

(** An entry of the atomic log. *)
Module LogEntry.
Record t : Type := mk {
  method : string;
  promise : Promise;
  body : Body;
  previous : option Promise
}.
End LogEntry.

Module Proposal.
Record t : Type := mk {
  quorum : option (list string);
  promise : Promise;
  body : Body;
  was : option Promise;
  route : option (list string)
}.
End Proposal.

Module Minimum.
Record t : Type := mk {
  propagated : Promise;
  version : Promise;
  reduced : Promise
}.
End Minimum.

(** The messages packed in one round of the writer. *)
Module Submessage.
Record t : Type := mk {
  method : string;
  promise : Promise;
  body : option Body
}.
End Submessage.

(** [message.version]: a government promise for a synchronize, the pair
  [[promise, collapsed]] for the writer's rounds. *)
Inductive Version : Type :=
| VGovernment (promise : Promise)
| VWriter (promise : Promise) (collapsed : bool).

Module Message.
Record t : Type := mk {
  method : string;
  version : Version;
  to : option (list string);
  collapsible : bool;
  constituent : bool;
  key : option string;
  messages : list Submessage.t
}.
End Message.

Module Sync.
Record t : Type := mk {
  republic : option string;
  promise : option Promise;
  from : option string;
  minimum : option Minimum.t;
  committed : option Promise;
  commits : list Entry.t
}.
End Sync.

(** The message part of a reply. *)
Module Reply.
Record t : Type := mk {
  method : string;
  promise : option Promise
}.
End Reply.

Module Response.
Record t : Type := mk {
  message : Reply.t;
  sync : Sync.t;
  minimum : option Minimum.t;
  unreachable : Obj.t (option Promise) bool
}.
End Response.

Module Request.
Record t : Type := mk {
  message : Message.t;
  sync : Sync.t
}.
End Request.

Module Envelope.
Record t : Type := mk {
  to : string;
  from : string;
  request : Request.t
}.
End Envelope.

Module Outgoing.
Record t : Type := mk {
  from : string;
  message : Message.t;
  envelopes : list Envelope.t
}.
End Outgoing.

(** Scheduled events. *)
Inductive Event : Type :=
| propose
| collapse
| synchronize (to : list string) (collapsible : option bool).

(** ** Scheduler

  Modelled from the spec: the [happenstance] scheduler (an external
  dependency) is missing; it is a keyed timer in which scheduling under a
  key replaces the event under that key. *)
Module Scheduler.
Definition t : Type := Obj.t string (Z * Event).
Definition clear (s : t) : t := [].
Definition unschedule (key : string) (s : t) : t := Obj.del key s.
Definition schedule (when : Z) (key : string) (event : Event) (s : t) : t :=
  Obj.del key s ++ [(key, (when, event))].
End Scheduler.

(** ** Atomic log

  Modelled from the spec: the [procession] window and indexer (external
  dependencies) are missing; the log is an append-only chain with a head
  and a trailer that shifts over the oldest entries; [find] looks a
  promise up among the entries the trailer has not passed. *)
Module Log.
Record t : Type := mk {
  entries : list LogEntry.t;
  shifted : nat
}.

Definition push (e : LogEntry.t) (l : t) : t :=
  mk (entries l ++ [e]) (shifted l).


(** The nodes from [log.trailer.node.next] on. *)
Definition live (l : t) : list LogEntry.t := skipn (shifted l) (entries l).


(** [log.trailer.shift()]. *)
Definition shift (l : t) : t :=
  match live l with
  | [] => l
  | _ :: _ => mk (entries l) (S (shifted l))
  end.

(** The nodes that follow the entry under [sought], when it is found. *)
Fixpoint after (sought : Promise) (nodes : list LogEntry.t) : option (list LogEntry.t) :=
  match nodes with
  | [] => None
  | e :: rest =>
      if Monotonic.eqb (LogEntry.promise e) sought then Some rest
      else after sought rest
  end.

Fixpoint lookup (sought : Promise) (nodes : list LogEntry.t) : option LogEntry.t :=
  match nodes with
  | [] => None
  | e :: rest =>
      if Monotonic.eqb (LogEntry.promise e) sought then Some e
      else lookup sought rest
  end.
End Log.


(** Deep equality, the comparison [departure.raise] makes between a
    redelivered commit and the entry already in the log: arrays are
    compared element by element, objects property by property whatever the
    order of their keys.  Payloads and properties are opaque and compared
    as they stand. *)
Definition equal_option {A : Type} (equal : A -> A -> bool) (a b : option A) : bool :=
  match a, b with
  | Some x, Some y => equal x y
  | None, None => true
  | _, _ => false
  end.

Fixpoint equal_array (a b : list string) : bool :=
  match a, b with
  | [], [] => true
  | x :: a', y :: b' => (String.eqb x y && equal_array a' b')%bool
  | _, _ => false
  end.

Definition equal_object {K V : Type} `{Key K} (equal : V -> V -> bool) (a b : Obj.t K V)
  : bool :=
  forallb (fun k => equal_option equal (Obj.get k a) (Obj.get k b))
          (Obj.keys a ++ Obj.keys b).

Definition equal_immigrate (a b : Immigrate.t) : bool :=
  (String.eqb (Immigrate.id a) (Immigrate.id b)
   && equal_option String.eqb (Immigrate.properties a) (Immigrate.properties b)
   && (Immigrate.cookie a =? Immigrate.cookie b)%Z)%bool.

Definition equal_exile (a b : Exile.t) : bool :=
  (String.eqb (Exile.id a) (Exile.id b)
   && equal_option Monotonic.eqb (Exile.promise a) (Exile.promise b)
   && equal_option String.eqb (Exile.properties a) (Exile.properties b))%bool.

Definition equal_government (g h : Government.t) : bool :=
  (Monotonic.eqb (Government.promise g) (Government.promise h)
   && equal_array (Government.majority g) (Government.majority h)
   && equal_array (Government.minority g) (Government.minority h)
   && equal_array (Government.constituents g) (Government.constituents h)
   && equal_object String.eqb (Government.properties g) (Government.properties h)
   && equal_object String.eqb (Government.immigrated_id g) (Government.immigrated_id h)
   && equal_object Monotonic.eqb (Government.immigrated_promise g)
                   (Government.immigrated_promise h)
   && equal_option (equal_object Monotonic.eqb) (Government.map g) (Government.map h)
   && equal_option equal_immigrate (Government.immigrate g) (Government.immigrate h)
   && equal_option equal_exile (Government.exile g) (Government.exile h))%bool.

Definition equal_body (a b : Body) : bool :=
  match a, b with
  | BGovernment g, BGovernment h => equal_government g h
  | BMessage x, BMessage y => String.eqb x y
  | _, _ => false
  end.

(** The null government entry every citizen pushes at construction. *)
Definition null_entry : LogEntry.t :=
  LogEntry.mk "government" (0, 0)%N (BGovernment Government.null) None.

(** [log.head.body]; a citizen's window is never empty. *)
Definition log_head (l : Log.t) : LogEntry.t := last (Log.entries l) null_entry.

(** The commit sent for a log entry. *)
Definition commit_of (e : LogEntry.t) : Entry.t :=
  Entry.mk (LogEntry.promise e) (LogEntry.body e) (LogEntry.previous e).

(** The nodes the loop [while (--count && iterator != null)] passes over:
    [count - 1] of them at most.  A [count] of zero is decremented to
    [-1], which is truthy, and only the end of the chain stops the loop. *)
Definition counted {A : Type} (count : nat) (nodes : list A) : list A :=
  match count with
  | O => nodes
  | S n => firstn n nodes
  end.

(** ** The two-phase-commit writer: its own fields *)

Module Writer.
Record t : Type := mk {
  version : Promise * bool;
  collapsed : bool;
  proposals : list Proposal.t;
  _writing : list Proposal.t;
  _unshifted : option bool
}.

(** [new Writer(paxos, promise)]. *)
Definition create (promise : Promise) : t :=
  mk (promise, false) false [] [] None.

Definition write_of (p : Proposal.t) : Submessage.t :=
  Submessage.mk "write" (Proposal.promise p) (Some (Proposal.body p)).

Definition commit_of (p : Proposal.t) : Submessage.t :=
  Submessage.mk "commit" (Proposal.promise p) None.

Definition round (w : t) (to : option (list string)) (messages : list Submessage.t) : Message.t :=
  Message.mk "write" (VWriter (fst (version w)) (snd (version w))) to false false None messages.

(** [Writer.prototype.unshift]. *)
Definition unshift (proposal : Proposal.t) (w : t) : t :=
  mk (version w) (collapsed w)
     (Proposal.mk (Proposal.quorum proposal) (Proposal.promise proposal)
                  (Proposal.body proposal) None None :: proposals w)
     (_writing w) (_unshifted w).

(** [Writer.prototype.nudge]: the writer after the call and the request it
    hands to [_send], if any. *)
Definition nudge (w : t) : t * option Message.t :=
  match _writing w, proposals w with
  | [], p :: rest =>
      let w' := mk (version w) (collapsed w) rest [p] (Some false) in
      (w', Some (round w' (Proposal.quorum p) [write_of p]))
  | _, _ => (w, None)
  end.

(** The ['write'] case of [Writer.prototype.response]. *)
Definition written (w : t) : Result (t * Message.t) :=
  match _writing w with
  | [] => Throw (TypeError "this._writing[0] is undefined")
  | first :: _ =>
      match proposals w with
      | next :: rest =>
          if (negb (Monotonic.isBoundary (Proposal.promise first) 0)
              && negb (Monotonic.isBoundary (Proposal.promise next) 0))%bool
          then
            let w' := mk (version w) (collapsed w) rest (_writing w ++ [next]) (Some false) in
            match nth_error (_writing w') 1 with
            | Some second =>
                Ok (w', round w (Proposal.quorum first) [commit_of first; write_of second])
            | None => Throw (TypeError "this._writing[1] is undefined")
            end
          else Ok (w, round w (Proposal.quorum first) [commit_of first])
      | [] => Ok (w, round w (Proposal.quorum first) [commit_of first])
      end
  end.

(** The ['commit'] case of [Writer.prototype.response]. *)
Definition committed (w : t) : t * option Message.t :=
  nudge (mk (version w) (collapsed w) (proposals w) (tl (_writing w)) (_unshifted w)).

(** One iteration of the loop of [Writer.prototype.response]: the writer
    after it and the request handed to [_send], if any. *)
Definition replied (message : Submessage.t) (w : t) : Result (t * option Message.t) :=
  if String.eqb (Submessage.method message) "write" then
    r <- written w ;; Ok (fst r, Some (snd r))
  else if String.eqb (Submessage.method message) "commit" then Ok (committed w)
  else Ok (w, None).

(** The loop of [Writer.prototype.response] with the requests it sends. *)
Fixpoint respond (messages : list Submessage.t) (w : t) : Result (t * list Message.t) :=
  match messages with
  | [] => Ok (w, [])
  | message :: rest =>
      r <- replied message w ;;
      r' <- respond rest (fst r) ;;
      Ok (fst r', match snd r with Some m => m :: snd r' | None => snd r' end)
  end.

End Writer.

(** A shape proposed by the shaper. *)
Module Shape.
Record government : Type := mkGovernment {
  majority : list string;
  minority : list string;
  immigrate : option Immigrate.t;
  exile : option string
}.
Record t : Type := mk {
  quorum : list string;
  body : government
}.
End Shape.

(** An envelope of the timer: the event scheduled under [key] comes back
    as its [body]. *)
Module Timer.
Record t : Type := mk {
  module : string;
  method : string;
  now : Z;
  key : string;
  body : Event
}.
End Timer.

(** ** The citizen *)

(** The strategies that occupy the citizen's slots and are not part of this
    development: the shaper, the recorder (or acceptor) and the proposer. *)
Class Strategies : Type := {
  ShaperT : Type;
  RecorderT : Type;
  ProposerT : Type
}.

Section Citizen.

Context {strategies : Strategies}.

(** [this._writer]: a [Writer] during two-phase commit, a [Proposer] during
    Paxos recovery. *)
Inductive WriterSlot : Type :=
| TwoPhase (w : Writer.t)
| Recovery (p : ProposerT).

(** [this._shaper]: a [Shaper], or the object literal a citizen that is not
    the leader installs, on which only [decided] can change. *)
Inductive ShaperSlot : Type :=
| Planner (shaper : ShaperT)
| Relay (decided : bool).

Record Paxos : Type := mkPaxos {
  id : string;
  cookie : Z;
  republic : string;
  parliamentSize : N;
  log : Log.t;
  scheduler : Scheduler.t;
  government : Government.t;
  _promised : option Promise;
  ping : Z;
  timeout : Z;
  constituency : list string;
  citizens : list string;
  _committed : Obj.t (option Promise) Promise;
  _minimum : Minimum.t;
  _minimums : Obj.t string Minimum.t;
  _minimums_shared : bool;
  outbox : list Outgoing.t;
  _writer : WriterSlot;
  _recorder : RecorderT;
  _shaper : ShaperSlot;
  _seed : Z;
  _disappeared : Obj.t (option Promise) Z;
  _unreachable : Obj.t (option Promise) bool;
  majority : option (list string)
}.

Definition with_log (v : Log.t) (s : Paxos) : Paxos :=
  mkPaxos (id s) (cookie s) (republic s) (parliamentSize s) v (scheduler s) (government s)
    (_promised s) (ping s) (timeout s) (constituency s) (citizens s) (_committed s) (_minimum s)
    (_minimums s) (_minimums_shared s) (outbox s) (_writer s) (_recorder s) (_shaper s)
    (_seed s) (_disappeared s) (_unreachable s) (majority s).

Definition with_scheduler (v : Scheduler.t) (s : Paxos) : Paxos :=
  mkPaxos (id s) (cookie s) (republic s) (parliamentSize s) (log s) v (government s)
    (_promised s) (ping s) (timeout s) (constituency s) (citizens s) (_committed s) (_minimum s)
    (_minimums s) (_minimums_shared s) (outbox s) (_writer s) (_recorder s) (_shaper s)
    (_seed s) (_disappeared s) (_unreachable s) (majority s).

Definition with_government (v : Government.t) (s : Paxos) : Paxos :=
  mkPaxos (id s) (cookie s) (republic s) (parliamentSize s) (log s) (scheduler s) v
    (_promised s) (ping s) (timeout s) (constituency s) (citizens s) (_committed s) (_minimum s)
    (_minimums s) (_minimums_shared s) (outbox s) (_writer s) (_recorder s) (_shaper s)
    (_seed s) (_disappeared s) (_unreachable s) (majority s).

Definition with_promised (v : option Promise) (s : Paxos) : Paxos :=
  mkPaxos (id s) (cookie s) (republic s) (parliamentSize s) (log s) (scheduler s) (government s)
    v (ping s) (timeout s) (constituency s) (citizens s) (_committed s) (_minimum s)
    (_minimums s) (_minimums_shared s) (outbox s) (_writer s) (_recorder s) (_shaper s)
    (_seed s) (_disappeared s) (_unreachable s) (majority s).

Definition with_constituency (v : list string) (s : Paxos) : Paxos :=
  mkPaxos (id s) (cookie s) (republic s) (parliamentSize s) (log s) (scheduler s) (government s)
    (_promised s) (ping s) (timeout s) v (citizens s) (_committed s) (_minimum s) (_minimums s)
    (_minimums_shared s) (outbox s) (_writer s) (_recorder s) (_shaper s) (_seed s)
    (_disappeared s) (_unreachable s) (majority s).

Definition with_citizens (v : list string) (s : Paxos) : Paxos :=
  mkPaxos (id s) (cookie s) (republic s) (parliamentSize s) (log s) (scheduler s) (government s)
    (_promised s) (ping s) (timeout s) (constituency s) v (_committed s) (_minimum s)
    (_minimums s) (_minimums_shared s) (outbox s) (_writer s) (_recorder s) (_shaper s)
    (_seed s) (_disappeared s) (_unreachable s) (majority s).

Definition with_committed (v : Obj.t (option Promise) Promise) (s : Paxos) : Paxos :=
  mkPaxos (id s) (cookie s) (republic s) (parliamentSize s) (log s) (scheduler s) (government s)
    (_promised s) (ping s) (timeout s) (constituency s) (citizens s) v (_minimum s)
    (_minimums s) (_minimums_shared s) (outbox s) (_writer s) (_recorder s) (_shaper s)
    (_seed s) (_disappeared s) (_unreachable s) (majority s).

Definition with_minimum (v : Minimum.t) (s : Paxos) : Paxos :=
  mkPaxos (id s) (cookie s) (republic s) (parliamentSize s) (log s) (scheduler s) (government s)
    (_promised s) (ping s) (timeout s) (constituency s) (citizens s) (_committed s) v
    (_minimums s) (_minimums_shared s) (outbox s) (_writer s) (_recorder s) (_shaper s)
    (_seed s) (_disappeared s) (_unreachable s) (majority s).

Definition with_minimums (v : Obj.t string Minimum.t) (s : Paxos) : Paxos :=
  mkPaxos (id s) (cookie s) (republic s) (parliamentSize s) (log s) (scheduler s) (government s)
    (_promised s) (ping s) (timeout s) (constituency s) (citizens s) (_committed s) (_minimum s)
    v (_minimums_shared s) (outbox s) (_writer s) (_recorder s) (_shaper s) (_seed s)
    (_disappeared s) (_unreachable s) (majority s).

Definition with_minimums_shared (v : bool) (s : Paxos) : Paxos :=
  mkPaxos (id s) (cookie s) (republic s) (parliamentSize s) (log s) (scheduler s) (government s)
    (_promised s) (ping s) (timeout s) (constituency s) (citizens s) (_committed s) (_minimum s)
    (_minimums s) v (outbox s) (_writer s) (_recorder s) (_shaper s) (_seed s) (_disappeared s)
    (_unreachable s) (majority s).

Definition with_outbox (v : list Outgoing.t) (s : Paxos) : Paxos :=
  mkPaxos (id s) (cookie s) (republic s) (parliamentSize s) (log s) (scheduler s) (government s)
    (_promised s) (ping s) (timeout s) (constituency s) (citizens s) (_committed s) (_minimum s)
    (_minimums s) (_minimums_shared s) v (_writer s) (_recorder s) (_shaper s) (_seed s)
    (_disappeared s) (_unreachable s) (majority s).

Definition with_writer (v : WriterSlot) (s : Paxos) : Paxos :=
  mkPaxos (id s) (cookie s) (republic s) (parliamentSize s) (log s) (scheduler s) (government s)
    (_promised s) (ping s) (timeout s) (constituency s) (citizens s) (_committed s) (_minimum s)
    (_minimums s) (_minimums_shared s) (outbox s) v (_recorder s) (_shaper s) (_seed s)
    (_disappeared s) (_unreachable s) (majority s).

Definition with_recorder (v : RecorderT) (s : Paxos) : Paxos :=
  mkPaxos (id s) (cookie s) (republic s) (parliamentSize s) (log s) (scheduler s) (government s)
    (_promised s) (ping s) (timeout s) (constituency s) (citizens s) (_committed s) (_minimum s)
    (_minimums s) (_minimums_shared s) (outbox s) (_writer s) v (_shaper s) (_seed s)
    (_disappeared s) (_unreachable s) (majority s).

Definition with_shaper (v : ShaperSlot) (s : Paxos) : Paxos :=
  mkPaxos (id s) (cookie s) (republic s) (parliamentSize s) (log s) (scheduler s) (government s)
    (_promised s) (ping s) (timeout s) (constituency s) (citizens s) (_committed s) (_minimum s)
    (_minimums s) (_minimums_shared s) (outbox s) (_writer s) (_recorder s) v (_seed s)
    (_disappeared s) (_unreachable s) (majority s).

Definition with_seed (v : Z) (s : Paxos) : Paxos :=
  mkPaxos (id s) (cookie s) (republic s) (parliamentSize s) (log s) (scheduler s) (government s)
    (_promised s) (ping s) (timeout s) (constituency s) (citizens s) (_committed s) (_minimum s)
    (_minimums s) (_minimums_shared s) (outbox s) (_writer s) (_recorder s) (_shaper s) v
    (_disappeared s) (_unreachable s) (majority s).

Definition with_disappeared (v : Obj.t (option Promise) Z) (s : Paxos) : Paxos :=
  mkPaxos (id s) (cookie s) (republic s) (parliamentSize s) (log s) (scheduler s) (government s)
    (_promised s) (ping s) (timeout s) (constituency s) (citizens s) (_committed s) (_minimum s)
    (_minimums s) (_minimums_shared s) (outbox s) (_writer s) (_recorder s) (_shaper s)
    (_seed s) v (_unreachable s) (majority s).

Definition with_unreachable (v : Obj.t (option Promise) bool) (s : Paxos) : Paxos :=
  mkPaxos (id s) (cookie s) (republic s) (parliamentSize s) (log s) (scheduler s) (government s)
    (_promised s) (ping s) (timeout s) (constituency s) (citizens s) (_committed s) (_minimum s)
    (_minimums s) (_minimums_shared s) (outbox s) (_writer s) (_recorder s) (_shaper s)
    (_seed s) (_disappeared s) v (majority s).

Definition with_majority (v : option (list string)) (s : Paxos) : Paxos :=
  mkPaxos (id s) (cookie s) (republic s) (parliamentSize s) (log s) (scheduler s) (government s)
    (_promised s) (ping s) (timeout s) (constituency s) (citizens s) (_committed s) (_minimum s)
    (_minimums s) (_minimums_shared s) (outbox s) (_writer s) (_recorder s) (_shaper s)
    (_seed s) (_disappeared s) (_unreachable s) v.

(** The operations of the missing strategies, as the citizen calls them. *)
Class Collaborators : Type := {
  (** [Constituency(government, id, paxos)] sets [paxos.constituency]. *)
  Constituency : Government.t -> string -> list string;
  Shaper_new : N -> Government.t -> ShaperT;
  Shaper_immigrate : Immigrate.t -> ShaperT -> ShaperT * option Shape.t;
  Shaper_immigrated : string -> ShaperT -> ShaperT;
  Shaper_unreachable : option string -> ShaperT -> ShaperT * option Shape.t;
  Shaper_naturalized : string -> ShaperT -> ShaperT * option Shape.t;
  Shaper_immigrating : ShaperT -> list Immigrate.t;
  (** [shaper.decided = true]. *)
  Shaper_decided : ShaperT -> ShaperT;
  Recorder_new : LogEntry.t -> RecorderT;
  Recorder_request : Z -> Message.t -> Paxos -> Result (Paxos * Reply.t);
  Recorder_createRecorder : Promise -> Paxos -> RecorderT;
  Proposer_new : Promise -> Paxos -> ProposerT;
  Proposer_collapsed : ProposerT -> bool;
  Proposer_version : ProposerT -> Promise * bool;
  Proposer_proposals : ProposerT -> list Proposal.t;
  (** [proposer.proposals = proposals]. *)
  Proposer_assign : list Proposal.t -> ProposerT -> ProposerT;
  (** The queue operations of a proposer act on the proposer; [nudge] may
      hand one request to [_send]. *)
  Proposer_push : Proposal.t -> ProposerT -> ProposerT;
  Proposer_unshift : Proposal.t -> ProposerT -> ProposerT;
  Proposer_nudge : ProposerT -> Paxos -> ProposerT * option Message.t;
  Proposer_response :
    Z -> Message.t -> Obj.t string Response.t -> ProposerT -> Paxos -> Result Paxos;
  Proposer_createWriter : Promise -> ProposerT -> Paxos -> WriterSlot
}.

Context {collaborators : Collaborators}.

(** *** Constructor *)

Record Options : Type := mkOptions {
  option_parliamentSize : option N;
  option_ping : option Z;
  option_timeout : option Z
}.

(** [coalesce(value, fallback)]. *)
Definition coalesce {A : Type} (value : option A) (fallback : A) : A :=
  match value with Some v => v | None => fallback end.

Definition null_minimum : Minimum.t := Minimum.mk (0, 0)%N (0, 0)%N (0, 0)%N.

(** [new Paxos(now, republic, id, options)]. *)
Definition Paxos_new (now : Z) (republic : string) (id : string) (options : Options) : Paxos :=
  let size := coalesce (option_parliamentSize options) 5%N in
  mkPaxos id now republic size
    (Log.mk [null_entry] 0)
    []
    Government.null
    None
    (coalesce (option_ping options) 1000%Z)
    (coalesce (option_timeout options) 5000%Z)
    [] []
    []
    null_minimum [(id, null_minimum)] true
    []
    (TwoPhase (Writer.create (1, 0)%N))
    (Recorder_new null_entry)
    (Planner (Shaper_new size Government.null))
    1%Z
    [] []
    None.

(** [this.log.head.body.promise]. *)
Definition head_promise (s : Paxos) : Promise := LogEntry.promise (log_head (log s)).

(** An assignment to a property of the object [this._minimum]; the object
    is also [this._minimums[this.id]] until [this._minimum] is replaced. *)
Definition mutate_minimum (f : Minimum.t -> Minimum.t) (s : Paxos) : Paxos :=
  let m := f (_minimum s) in
  let s := with_minimum m s in
  if _minimums_shared s then with_minimums (Obj.set (id s) m (_minimums s)) s else s.

(** [this._minimum = { ... }], a fresh object. *)
Definition replace_minimum (m : Minimum.t) (s : Paxos) : Paxos :=
  with_minimums_shared false (with_minimum m s).

(** [this.government.immigrated.promise[id]]. *)
Definition immigration_promise (who : string) (s : Paxos) : option Promise :=
  Obj.get who (Government.immigrated_promise (government s)).

(** *** Synchronisation segments *)

Definition immigrates (who : option string) (e : LogEntry.t) : bool :=
  (Monotonic.isBoundary (LogEntry.promise e) 0
   && match body_immigrate (LogEntry.body e), who with
      | Some i, Some w => String.eqb (Immigrate.id i) w
      | _, _ => false
      end)%bool.

(** The search for the entry that announces the immigration of [who];
    [None] when the chain ends first. *)
Fixpoint immigration_from (who : option string) (nodes : list LogEntry.t)
  : option (list LogEntry.t) :=
  match nodes with
  | [] => None
  | e :: rest => if immigrates who e then Some nodes else immigration_from who rest
  end.

(** [Paxos.prototype._sync]. *)
Definition _sync (who : option string) (committed : option Promise) (count : nat)
    (s : Paxos) : Result Sync.t :=
  let sync commits :=
    Sync.mk (Some (republic s)) (immigration_promise (id s) s) (Some (id s))
            (Some (_minimum s)) (Some (head_promise s)) commits in
  match committed with
  | None => Ok (sync [])
  | Some c =>
      iterator <-
        (if Monotonic.eqb c (0, 0)%N then
           match immigration_from who (Log.live (log s)) with
           | Some nodes => Ok nodes
           | None => Throw (AssertionError "immigration missing")
           end
         else
           assert (0 <=? Monotonic.compare c (Minimum.propagated (_minimum s)))%Z
                  "minimum breached" ;;;
           assert (Monotonic.compare c (head_promise s) <=? 0)%Z "maximum breached" ;;;
           match Log.after c (Log.live (log s)) with
           | Some nodes => Ok nodes
           | None => Throw (TypeError "this._findRound(committed) is null")
           end) ;;
      Ok (sync (List.map commit_of (counted count iterator)))
  end.

Fixpoint _send_each (message : Message.t) (to : list string) (s : Paxos)
  : Result (Paxos * list Envelope.t) :=
  match to with
  | [] => Ok (s, [])
  | recipient :: rest =>
      let s := with_scheduler (Scheduler.unschedule recipient (scheduler s)) s in
      sync <- _sync (Some recipient)
                    (Obj.get (immigration_promise recipient s) (_committed s)) 24 s ;;
      r <- _send_each message rest s ;;
      Ok (fst r, Envelope.mk recipient (id s) (Request.mk message sync) :: snd r)
  end.

(** [Paxos.prototype._send]. *)
Definition _send (message : Message.t) (s : Paxos) : Result Paxos :=
  match Message.to message with
  | None => Throw (TypeError "message.to is undefined")
  | Some to =>
      r <- _send_each message to s ;;
      Ok (with_outbox (outbox (fst r) ++ [Outgoing.mk (id s) message (snd r)]) (fst r))
  end.

Definition _send_optional (message : option Message.t) (s : Paxos) : Result Paxos :=
  match message with
  | Some m => _send m s
  | None => Ok s
  end.

(** *** The writer inside the citizen *)

(** [Writer.prototype.push]: the quorum is [this._paxos.majority] and the
    promise is a fresh increment of [this._paxos._promised]; the promise and
    quorum of the argument are not read. *)
Definition Writer_push (proposal : Proposal.t) (w : Writer.t) (s : Paxos) : Result Paxos :=
  promise <- increment_nullable (_promised s) 1 ;;
  let s := with_promised (Some promise) s in
  let queued := Proposal.mk (majority s) promise (Proposal.body proposal) None None in
  Ok (with_writer
        (TwoPhase (Writer.mk (Writer.version w) (Writer.collapsed w)
                             (Writer.proposals w ++ [queued])
                             (Writer._writing w) (Writer._unshifted w))) s).

Definition Writer_unshift (proposal : Proposal.t) (w : Writer.t) (s : Paxos) : Result Paxos :=
  Ok (with_writer (TwoPhase (Writer.unshift proposal w)) s).

Definition Writer_nudge (w : Writer.t) (s : Paxos) : Result Paxos :=
  let r := Writer.nudge w in
  _send_optional (snd r) (with_writer (TwoPhase (fst r)) s).

(** One iteration of the loop of [Writer.prototype.response]. *)
Definition Writer_response_message (message : Submessage.t) (w : Writer.t) (s : Paxos)
  : Result (Writer.t * Paxos) :=
  r <- Writer.replied message w ;;
  s <- _send_optional (snd r) (with_writer (TwoPhase (fst r)) s) ;;
  Ok (fst r, s).

Fixpoint Writer_response_loop (messages : list Submessage.t) (w : Writer.t) (s : Paxos)
  : Result Paxos :=
  match messages with
  | [] => Ok s
  | message :: rest =>
      r <- Writer_response_message message w s ;;
      Writer_response_loop rest (fst r) (snd r)
  end.

(** [Writer.prototype.response]: a rejection calls [this._paxos.collapse],
    a method the citizen does not have (its method is [_collapse]). *)
Definition Writer_response (now : Z) (request : Message.t)
    (responses : Obj.t string Response.t) (promise : option Promise)
    (w : Writer.t) (s : Paxos) : Result Paxos :=
  match promise with
  | Some _ => Throw (TypeError "this._paxos.collapse is not a function")
  | None => Writer_response_loop (Message.messages request) w s
  end.

(** Calls through the writer slot. *)
Definition writer_collapsed (s : Paxos) : bool :=
  match _writer s with
  | TwoPhase w => Writer.collapsed w
  | Recovery p => Proposer_collapsed p
  end.

Definition writer_version (s : Paxos) : Promise * bool :=
  match _writer s with
  | TwoPhase w => Writer.version w
  | Recovery p => Proposer_version p
  end.

Definition writer_proposals (s : Paxos) : list Proposal.t :=
  match _writer s with
  | TwoPhase w => Writer.proposals w
  | Recovery p => Proposer_proposals p
  end.

Definition writer_push (proposal : Proposal.t) (s : Paxos) : Result Paxos :=
  match _writer s with
  | TwoPhase w => Writer_push proposal w s
  | Recovery p => Ok (with_writer (Recovery (Proposer_push proposal p)) s)
  end.

Definition writer_unshift (proposal : Proposal.t) (s : Paxos) : Result Paxos :=
  match _writer s with
  | TwoPhase w => Writer_unshift proposal w s
  | Recovery p => Ok (with_writer (Recovery (Proposer_unshift proposal p)) s)
  end.

Definition writer_nudge (s : Paxos) : Result Paxos :=
  match _writer s with
  | TwoPhase w => Writer_nudge w s
  | Recovery p =>
      let r := Proposer_nudge p s in
      _send_optional (snd r) (with_writer (Recovery (fst r)) s)
  end.

Definition writer_response (now : Z) (request : Message.t)
    (responses : Obj.t string Response.t) (promise : option Promise) (s : Paxos)
  : Result Paxos :=
  match _writer s with
  | TwoPhase w => Writer_response now request responses promise w s
  | Recovery p => Proposer_response now request responses p s
  end.

(** [this._writer.createWriter(promise)]: a [Writer] returns itself. *)
Definition writer_createWriter (promise : Promise) (s : Paxos) : WriterSlot :=
  match _writer s with
  | TwoPhase w => TwoPhase w
  | Recovery p => Proposer_createWriter promise p s
  end.

(** [this._writer.proposals = proposals]. *)
Definition writer_assign (proposals : list Proposal.t) (s : Paxos) : Paxos :=
  match _writer s with
  | TwoPhase w =>
      with_writer (TwoPhase (Writer.mk (Writer.version w) (Writer.collapsed w) proposals
                                       (Writer._writing w) (Writer._unshifted w))) s
  | Recovery p => with_writer (Recovery (Proposer_assign proposals p)) s
  end.

(** [shaper.decided = true] on the object in the shaper slot. *)
Definition shaper_decided_slot (slot : ShaperSlot) : ShaperSlot :=
  match slot with
  | Planner sh => Planner (Shaper_decided sh)
  | Relay _ => Relay true
  end.

(** [this._shaper.decided = true]. *)
Definition shaper_decided (s : Paxos) : Paxos :=
  with_shaper (shaper_decided_slot (_shaper s)) s.

(** *** Government *)

(** The re-mapping of the queued proposals into the new government: each
    receives the next minor promise after the government's. *)
Fixpoint remap (route : list string) (remapped : Promise) (proposals : list Proposal.t)
    (map : Obj.t Promise Promise)
  : list Proposal.t * Promise * Obj.t Promise Promise :=
  match proposals with
  | [] => ([], remapped, map)
  | proposal :: rest =>
      let was := Proposal.promise proposal in
      let promise := Monotonic.increment remapped 1 in
      let '(rest', last, map') := remap route promise rest (Obj.set was promise map) in
      (Proposal.mk (Proposal.quorum proposal) promise (Proposal.body proposal)
                   (Some was) (Some route) :: rest', last, map')
  end.

(** The government [newGovernment] assembles from a shape, with the promise
    it is proposed under. *)
Definition assemble (promise : Promise) (map : option (Obj.t Promise Promise))
    (shape : Shape.government) (current : Government.t) : Result Government.t :=
  let constituents :=
    filter (fun citizen => negb (includes citizen (Shape.majority shape))
                           && negb (includes citizen (Shape.minority shape)))%bool
           (sort (Obj.keys (Government.properties current))) in
  let properties := Government.properties current in
  let immigrated_id := Government.immigrated_id current in
  let immigrated_promise := Government.immigrated_promise current in
  match Shape.immigrate shape, Shape.exile shape with
  | Some immigrate, _ =>
      match Immigrate.properties immigrate with
      | None => Throw (SyntaxError "JSON.parse of undefined")
      | Some props =>
          Ok (Government.mk promise (Shape.majority shape) (Shape.minority shape)
                (constituents ++ [Immigrate.id immigrate])
                (Obj.set (Immigrate.id immigrate) props properties)
                (Obj.set promise (Immigrate.id immigrate) immigrated_id)
                (Obj.set (Immigrate.id immigrate) promise immigrated_promise)
                map (Some immigrate) None)
      end
  | None, Some exile =>
      if String.eqb exile "" then
        Ok (Government.mk promise (Shape.majority shape) (Shape.minority shape)
              constituents properties immigrated_id immigrated_promise map None None)
      else
        let exiled := Obj.get exile immigrated_promise in
        Ok (Government.mk promise (Shape.majority shape) (Shape.minority shape)
              (splice_indexOf exile constituents)
              (Obj.del exile properties)
              (match exiled with
               | Some p => Obj.del p immigrated_id
               | None => immigrated_id
               end)
              (Obj.del exile immigrated_promise)
              map None
              (Some (Exile.mk exile exiled (Obj.get exile properties))))
  | None, None =>
      Ok (Government.mk promise (Shape.majority shape) (Shape.minority shape)
            constituents properties immigrated_id immigrated_promise map None None)
  end.

(** [Paxos.prototype.newGovernment]. *)
Definition newGovernment (now : Z) (quorum : list string) (shape : Shape.government)
    (s : Paxos) : Result Paxos :=
  let s := shaper_decided s in
  let promise := Monotonic.increment (Government.promise (government s)) 0 in
  let '(s, remapped, map) :=
    if writer_collapsed s then (s, promise, None)
    else
      let '(proposals, remapped, map) :=
        remap (Shape.majority shape) promise (writer_proposals s) [] in
      (writer_assign proposals s, remapped, Some map) in
  let s := with_promised (Some remapped) s in
  body <- assemble promise map shape (government s) ;;
  assert (match writer_proposals s with
          | [] => true
          | first :: _ => negb (Monotonic.isBoundary (Proposal.promise first) 0)
          end) "proposals[0] is a boundary" ;;;
  s <- writer_unshift (Proposal.mk (Some quorum) promise (BGovernment body) None None) s ;;
  writer_nudge s.

(** [Paxos.prototype._reshape]. *)
Definition _reshape (now : Z) (shape : option Shape.t) (s : Paxos) : Result Paxos :=
  match shape with
  | Some sh => newGovernment now (Shape.quorum sh) (Shape.body sh) s
  | None => Ok s
  end.

(** *** Commit *)

Definition shaper_immigrating (s : Paxos) : list Immigrate.t :=
  match _shaper s with
  | Planner sh => Shaper_immigrating sh
  | Relay _ => []
  end.

(** [this._reshape(now, shaper.unreachable(...))] for each key of
    [this._unreachable], on the shaper installed in [this._shaper]. *)
Fixpoint reshape_unreachable (now : Z) (keys : list (option Promise)) (s : Paxos)
  : Result Paxos :=
  match keys with
  | [] => Ok s
  | key :: rest =>
      let who :=
        match key with
        | Some promise => Obj.get promise (Government.immigrated_id (government s))
        | None => None
        end in
      s <- match _shaper s with
           | Planner sh =>
               let r := Shaper_unreachable who sh in
               _reshape now (snd r) (with_shaper (Planner (fst r)) s)
           | Relay _ => Ok s
           end ;;
      reshape_unreachable now rest s
  end.

Fixpoint reshape_naturalized (now : Z) (citizens : list string) (s : Paxos)
  : Result Paxos :=
  match citizens with
  | [] => Ok s
  | who :: rest =>
      s <- match _shaper s with
           | Planner sh =>
               let r := Shaper_naturalized who sh in
               _reshape now (snd r) (with_shaper (Planner (fst r)) s)
           | Relay _ => Ok s
           end ;;
      reshape_naturalized now rest s
  end.

(** [delete this._unreachable[this.government.immigrated.promise[id]]] for
    each listed citizen. *)
Definition forget_unreachable (who : list string) (g : Government.t)
    (unreachable : Obj.t (option Promise) bool) : Obj.t (option Promise) bool :=
  fold_left (fun acc id => Obj.del (Obj.get id (Government.immigrated_promise g)) acc)
            who unreachable.

(** The peer tables kept across an enactment: only the constituency's. *)
Definition kept_minimums (constituency : list string) (minimums : Obj.t string Minimum.t)
  : Obj.t string Minimum.t :=
  fold_left (fun acc id =>
               match Obj.get id minimums with
               | Some m => Obj.set id m acc
               | None => acc
               end) constituency [].

Definition kept_committed (constituency : list string) (g : Government.t)
    (committed : Obj.t (option Promise) Promise) : Obj.t (option Promise) Promise :=
  fold_left (fun acc id =>
               let promise := Obj.get id (Government.immigrated_promise g) in
               match Obj.get promise committed with
               | Some c => Obj.set promise c acc
               | None => acc
               end) constituency [].

(** The first part of an enactment: the government is installed, stale
    unreachability is dropped after a round of Paxos ([map] is null), and
    the constituency, the citizens, the writer and the recorder follow. *)
Definition seat (promise : Promise) (g : Government.t) (s : Paxos) : Paxos :=
  let s := with_government g s in
  let s :=
    match Government.map g with
    | None =>
        with_unreachable
          (forget_unreachable (Government.minority g) g
             (forget_unreachable (Government.majority g) g (_unreachable s))) s
    | Some _ => s
    end in
  let s := with_constituency (Constituency g (id s)) s in
  let s := with_citizens (Government.majority g ++ Government.minority g
                          ++ Government.constituents g) s in
  let s := with_writer (writer_createWriter promise s) s in
  with_recorder (Recorder_createRecorder promise s) s.

(** The choice of a shaper: the leader builds a new one, hands it the
    pending immigrations, and lets it propose; anyone else installs the
    object literal. *)
Definition shape (now : Z) (g : Government.t) (s : Paxos) : Result Paxos :=
  if match Government.leader g with
     | Some leader => String.eqb (id s) leader
     | None => false
     end
  then
    let shaper :=
      fold_left (fun sh immigration => fst (Shaper_immigrate immigration sh))
                (shaper_immigrating s) (Shaper_new (parliamentSize s) g) in
    let shaper :=
      match Government.immigrate g with
      | Some immigrate => Shaper_immigrated (Immigrate.id immigrate) shaper
      | None => shaper
      end in
    let s := with_shaper (Planner shaper) s in
    s <- reshape_unreachable now (Obj.keys (_unreachable s)) s ;;
    reshape_naturalized now (citizens s) s
  else Ok (with_shaper (Relay false) s).

(** The last part of an enactment: the collapse timer of a majority
    member, the minimum under the new version, and the peer tables cut
    down to the constituency. *)
Definition settle (now : Z) (g : Government.t) (s : Paxos) : Paxos :=
  let s :=
    if includes (id s) (Government.majority g)
    then with_scheduler (Scheduler.schedule (now + ping s) (id s) collapse (scheduler s)) s
    else s in
  let s :=
    replace_minimum
      (Minimum.mk (Minimum.propagated (_minimum s)) (Government.promise g)
                  (Minimum.reduced (_minimum s))) s in
  let minimums := kept_minimums (constituency s) (_minimums s) in
  let committed := kept_committed (constituency s) g (_committed s) in
  with_committed committed (with_minimums minimums s).

(** The enactment of a government, the [if (isGovernment)] block of
    [_commit]. *)
Definition enact (now : Z) (entry : Entry.t) (s : Paxos) : Result Paxos :=
  let s := with_scheduler (Scheduler.clear (scheduler s)) s in
  assert (Monotonic.compare (Government.promise (government s)) (Entry.promise entry) <? 0)%Z
         "governments out of order" ;;;
  match Entry.body entry with
  | BMessage _ => Throw (TypeError "this.government.majority is undefined")
  | BGovernment g =>
      s <- shape now g (seat (Entry.promise entry) g s) ;;
      Ok (settle now g s)
  end.

(** [this.scheduler.schedule(now, id, { method: 'synchronize', to: [ id ] })]
    for each constituent. *)
Definition notify (now : Z) (constituency : list string) (scheduler : Scheduler.t)
  : Scheduler.t :=
  fold_left (fun acc id => Scheduler.schedule now id (synchronize [id] None) acc)
            constituency scheduler.

(** The end of [_commit], from the update of [reduced] on: the entry is
    pushed onto the log and the constituents are notified. *)
Definition append (now : Z) (entry : Entry.t) (s : Paxos) : Result Paxos :=
  let isGovernment := Monotonic.isBoundary (Entry.promise entry) 0 in
  let s :=
    match constituency s with
    | [] => mutate_minimum
              (fun m => Minimum.mk (Minimum.propagated m) (Minimum.version m)
                                   (Entry.promise entry)) s
    | _ :: _ => s
    end in
  assert (match Entry.previous entry with Some _ => true | None => false end)
         "null previous" ;;;
  let s :=
    with_log (Log.push (LogEntry.mk (if isGovernment then "government" else "entry")
                                    (Entry.promise entry) (Entry.body entry)
                                    (Entry.previous entry)) (log s)) s in
  Ok (if (negb (match Government.leader (government s) with
                | Some leader => String.eqb (id s) leader
                | None => false
                end)
          || (List.length (Government.majority (government s)) =? 1)%nat)%bool
      then with_scheduler (notify now (constituency s) (scheduler s)) s
      else s).

(** The branch of [_commit] for an entry at or below [top]: the entry is
    already in the log, and is compared with the copy found there unless it
    lies below the propagated minimum. *)
Definition redelivered (entry : Entry.t) (s : Paxos) : Result Paxos :=
  if (Monotonic.compare (Minimum.propagated (_minimum s)) (Entry.promise entry) <=? 0)%Z
  then
    match Log.lookup (Entry.promise entry) (Log.live (log s)) with
    | None => Throw (TypeError "this._findRound(entry.promise) is null")
    | Some found =>
        if equal_body (LogEntry.body found) (Entry.body entry) then Ok s
        else Throw (AssertionError "departure")
    end
  else Ok s.

(** [Paxos.prototype._commit]. *)
Definition _commit (now : Z) (entry : Entry.t) (top : option Promise) (s : Paxos)
  : Result Paxos :=
  order <- compare_nullable (Some (Entry.promise entry)) top ;;
  if (order <=? 0)%Z then redelivered entry s
  else
    assert (eqb_nullable top (Entry.previous entry)) "incorrect previous" ;;;
    let isGovernment := Monotonic.isBoundary (Entry.promise entry) 0 in
    next <- (if isGovernment then Ok true
             else p <- increment_nullable top 1 ;; Ok (Monotonic.eqb p (Entry.promise entry))) ;;
    assert next "out of order" ;;;
    s <- (if isGovernment then enact now entry s else Ok s) ;;
    append now entry s.

(** The check a citizen at ['0/0'] makes on the first commit of a batch. *)
Definition announces (s : Paxos) (first : Entry.t) : bool :=
  (Monotonic.isBoundary (Entry.promise first) 0
   && match body_immigrate (Entry.body first) with
      | Some immigrate =>
          String.eqb (Immigrate.id immigrate) (id s)
          && (Immigrate.cookie immigrate =? cookie s)%Z
      | None => false
      end)%bool.

Fixpoint _synchronize_loop (now : Z) (entries : list Entry.t) (top : option Promise)
    (s : Paxos) : Result Paxos :=
  match entries with
  | [] => Ok s
  | entry :: rest =>
      s <- _commit now entry top s ;;
      _synchronize_loop now rest (Some (head_promise s)) s
  end.

(** [Paxos.prototype._synchronize]. *)
Definition _synchronize (now : Z) (entries : list Entry.t) (s : Paxos)
  : Result (Paxos * bool) :=
  match entries with
  | [] => Ok (s, true)
  | first :: _ =>
      if Monotonic.eqb (head_promise s) (0, 0)%N then
        if announces s first then
          s <- _synchronize_loop now entries (Entry.previous first) s ;;
          Ok (s, true)
        else Ok (s, false)
      else
        s <- _synchronize_loop now entries (Some (head_promise s)) s ;;
        Ok (s, true)
  end.

(** The loop of [_register]: each entry is committed on the head of the
    log as it stands. *)
Fixpoint _register_loop (now : Z) (entries : list Entry.t) (s : Paxos) : Result Paxos :=
  match entries with
  | [] => Ok s
  | entry :: rest =>
      s <- _commit now entry (Some (head_promise s)) s ;;
      _register_loop now rest s
  end.

(** [Paxos.prototype._register]: the register is the chain of a round and
    the rounds before it, the latest first. *)
Definition _register (now : Z) (register : list Entry.t) (s : Paxos) : Result Paxos :=
  _register_loop now (rev register) s.

(** *** Bootstrap *)

(** The government [bootstrap] builds. *)
Definition dictatorship (id : string) (properties : JSON) : Government.t :=
  Government.mk (1, 0)%N [id] [] []
    [(id, properties)]
    [((1, 0)%N, id)]
    [(id, (1, 0)%N)]
    (Some [])
    (Some (Immigrate.mk "0" (Some properties) 0%Z))
    None.

(** [Paxos.prototype.bootstrap]. *)
Definition bootstrap (now : Z) (properties : JSON) (s : Paxos) : Result Paxos :=
  let government := dictatorship (id s) properties in
  let s := with_promised (Some (1, 0)%N) s in
  s <- match _shaper s with
       | Planner sh =>
           Ok (with_shaper
                 (Planner (fst (Shaper_immigrate (Immigrate.mk (id s) None 0%Z) sh))) s)
       | Relay _ => Throw (TypeError "this._shaper.immigrate is not a function")
       end ;;
  _commit now (Entry.mk (1, 0)%N (BGovernment government) (Some (0, 0)%N))
          (Some (0, 0)%N) s.

(** *** Enqueue *)

Record Enqueued : Type := mkEnqueued {
  enqueued : bool;
  enqueued_republic : option string;
  leader : option string;
  promise : option Promise
}.

Definition is_leader (s : Paxos) : bool :=
  match Government.leader (government s) with
  | Some leader => String.eqb leader (id s)
  | None => false
  end.

(** [Paxos.prototype._enqueuable]; [None] when the function falls off its
    end. *)
Definition _enqueuable (republic' : string) (s : Paxos) : option Enqueued :=
  if (writer_collapsed s || negb (String.eqb (republic s) republic'))%bool then
    Some (mkEnqueued false (Some (republic s)) None None)
  else if negb (is_leader s) then
    Some (mkEnqueued false (Some (republic s)) (Government.leader (government s)) None)
  else None.

(** [Paxos.prototype.enqueue]. *)
Definition enqueue (now : Z) (republic' : string) (message : JSON) (s : Paxos)
  : Result (Paxos * Enqueued) :=
  match _enqueuable republic' s with
  | Some response => Ok (s, response)
  | None =>
      promise <- increment_nullable (_promised s) 1 ;;
      let s := with_promised (Some promise) s in
      s <- writer_push (Proposal.mk (Some (Government.majority (government s))) promise
                                    (BMessage message) None None) s ;;
      s <- writer_nudge s ;;
      Ok (s, mkEnqueued true None (Government.leader (government s)) (Some promise))
  end.

(** [Paxos.prototype.immigrate]. *)
Definition immigrate (now : Z) (republic' : string) (id' : string) (cookie' : Z)
    (properties : option JSON) (s : Paxos) : Result (Paxos * Enqueued) :=
  match _enqueuable republic' s with
  | Some response => Ok (s, response)
  | None =>
      if in_object id' (Government.properties (government s)) then
        Ok (s, mkEnqueued false (Some (republic s)) (Government.leader (government s)) None)
      else
        match _shaper s with
        | Planner sh =>
            let r := Shaper_immigrate (Immigrate.mk id' properties cookie') sh in
            s <- _reshape now (snd r) (with_shaper (Planner (fst r)) s) ;;
            Ok (s, mkEnqueued true None None None)
        | Relay _ => Throw (TypeError "this._shaper.immigrate is not a function")
        end
  end.

(** *** Collapse *)

(** [Paxos.prototype._propose]; [%] is the remainder of JavaScript. *)
Definition _propose (now : Z) (retry : bool) (s : Paxos) : Paxos :=
  if (retry && negb (is_leader s))%bool then
    let seed := Z.rem (_seed s * 16807) 2147483647 in
    let delay := Z.rem seed (timeout s) in
    let s := with_seed seed s in
    with_scheduler (Scheduler.schedule (now + delay) (id s) propose (scheduler s)) s
  else
    with_scheduler (Scheduler.schedule (now + 0) (id s) propose (scheduler s)) s.

(** [Paxos.prototype._collapse]. *)
Definition _collapse (now : Z) (s : Paxos) : Paxos :=
  let s := with_scheduler (Scheduler.clear (scheduler s)) s in
  let s := with_writer (Recovery (Proposer_new (Government.promise (government s)) s)) s in
  _propose now false s.

(** *** Scheduled events *)

(** One pass of the ['propose'] event over the parliament: everyone but
    this citizen joins the majority until it has the size of the current
    one, unless recorded as disappeared, and the minority otherwise. *)
Fixpoint gather (s : Paxos) (parliament : list string) (majority minority : list string)
  : list string * list string :=
  match parliament with
  | [] => (majority, minority)
  | who :: rest =>
      if String.eqb who (id s) then gather s rest majority minority
      else if ((List.length majority =? List.length (Government.majority (government s)))%nat
               || Obj.has (immigration_promise who s) (_disappeared s))%bool
      then gather s rest majority (minority ++ [who])
      else gather s rest (majority ++ [who]) minority
  end.

(** The [for (;;)] loop of the ['propose'] event: a pass that falls short
    of a majority clears [_disappeared] and is followed by another; [None]
    when [fuel] passes have not formed a government. *)
Fixpoint propose_loop (fuel : nat) (now : Z) (s : Paxos) : option (Result Paxos) :=
  match fuel with
  | O => None
  | S fuel' =>
      let parliament :=
        Government.majority (government s) ++ Government.minority (government s) in
      let '(majority, minority) := gather s parliament [id s] [] in
      if (List.length majority =? List.length (Government.majority (government s)))%nat
      then Some (newGovernment now majority
                               (Shape.mkGovernment majority minority None None) s)
      else propose_loop fuel' now (with_disappeared [] s)
  end.

(** [Paxos.prototype.event]. *)
Definition event (fuel : nat) (envelope : Timer.t) (s : Paxos) : option (Result Paxos) :=
  if (negb (String.eqb (Timer.module envelope) "happenstance")
      || negb (String.eqb (Timer.method envelope) "event"))%bool
  then Some (Ok s)
  else
    match Timer.body envelope with
    | synchronize to collapsible =>
        Some (_send (Message.mk "synchronize"
                                (VGovernment (Government.promise (government s)))
                                (Some to) (coalesce collapsible false) true
                                (Some (Timer.key envelope)) []) s)
    | collapse => Some (Ok (_collapse (Timer.now envelope) s))
    | propose => propose_loop fuel (Timer.now envelope) s
    end.

(** *** Requests *)

(** The loop that advances the trailer in [request]: the number of entries
    shifted.  When every entry lies below [propagated] the loop shifts
    them all and throws on the [peek()] that finds none; the exception
    carries no state, so what the citizen is left with is not described. *)
Fixpoint shift_trailer (propagated : Promise) (live : list LogEntry.t) : Result nat :=
  match live with
  | [] => Throw (TypeError "this.log.trailer.peek() is null")
  | e :: rest =>
      if (Monotonic.compare (LogEntry.promise e) propagated <? 0)%Z then
        n <- shift_trailer propagated rest ;; Ok (S n)
      else Ok O
  end.

Definition respond (message : Reply.t) (sync : Sync.t) (s : Paxos) : Response.t :=
  Response.mk message sync (Some (_minimum s)) (_unreachable s).

(** [Paxos.prototype.request]. *)
Definition request (now : Z) (req : Request.t) (s : Paxos) : Result (Paxos * Response.t) :=
  let committed := head_promise s in
  theirs <- match Sync.minimum (Request.sync req) with
            | Some m => Ok (Minimum.propagated m)
            | None => Throw (TypeError "request.sync.minimum is undefined")
            end ;;
  let s :=
    if (Monotonic.compare (Minimum.propagated (_minimum s)) theirs <? 0)%Z then
      mutate_minimum (fun m => Minimum.mk theirs (Minimum.version m) (Minimum.reduced m)) s
    else s in
  order <- compare_nullable (Sync.committed (Request.sync req)) (Some committed) ;;
  if (order <? 0)%Z then
    sync <- _sync (Sync.from (Request.sync req)) (Sync.committed (Request.sync req)) 24 s ;;
    Ok (s, respond (Reply.mk "reject" (Some committed)) sync s)
  else
    r <- _synchronize now (Sync.commits (Request.sync req)) s ;;
    let s := fst r in
    if negb (snd r) then
      sync <- _sync (Sync.from (Request.sync req)) None 24 s ;;
      Ok (s, respond (Reply.mk "unreachable" None) sync s)
    else
      let committed := head_promise s in
      s <- (if negb (Monotonic.eqb (head_promise s) (0, 0)%N) then
              n <- shift_trailer (Minimum.propagated (_minimum s)) (Log.live (log s)) ;;
              Ok (with_log (Log.mk (Log.entries (log s)) (Log.shifted (log s) + n)) s)
            else Ok s) ;;
      let s :=
        if includes (id s) (tl (Government.majority (government s))) then
          with_scheduler (Scheduler.schedule (now + timeout s) (id s) collapse (scheduler s)) s
        else s in
      r <- (if String.eqb (Message.method (Request.message req)) "synchronize" then
              Ok (s, Reply.mk "respond" (Some committed))
            else Recorder_request now (Request.message req) s) ;;
      let s := fst r in
      sync <- _sync (Sync.from (Request.sync req)) None 24 s ;;
      Ok (s, respond (snd r) sync s).

(** *** Responses *)

(** The reply that stands for a network failure. *)
Definition unreachable_response : Response.t :=
  Response.mk (Reply.mk "unreachable" (Some (0, 0)%N))
              (Sync.mk None None None None None [])
              None [].

(** The loop over [response.unreachable]. *)
Fixpoint unreachable_loop (now : Z) (reported : Obj.t (option Promise) bool) (s : Paxos)
  : Result Paxos :=
  match reported with
  | [] => Ok s
  | (key, value) :: rest =>
      s <- (if negb (coalesce (Obj.get key (_unreachable s)) false) then
              let s := with_unreachable (Obj.set key value (_unreachable s)) s in
              let who :=
                match key with
                | Some promise => Obj.get promise (Government.immigrated_id (government s))
                | None => None
                end in
              match _shaper s with
              | Planner sh =>
                  let r := Shaper_unreachable who sh in
                  _reshape now (snd r) (with_shaper (Planner (fst r)) s)
              | Relay _ => Ok s
              end
            else Ok s) ;;
      unreachable_loop now rest s
  end.

(** A constituent's record keeps the floor from rising: it is missing, from
    another government, or still at ['0/0']. *)
Definition unreported (s : Paxos) (constituent : string) : bool :=
  match Obj.get constituent (_minimums s) with
  | None => true
  | Some m =>
      (negb (Monotonic.eqb (Minimum.version m) (Government.promise (government s)))
       || Monotonic.eqb (Minimum.reduced m) (0, 0)%N)%bool
  end.

(** The loop over [this.constituency] that reduces the least committed
    promise, started from the head of the log. *)
Fixpoint reduce (s : Paxos) (constituency : list string) (reduced : Promise) : Promise :=
  match constituency with
  | [] => reduced
  | constituent :: rest =>
      if unreported s constituent then (0, 0)%N
      else
        match Obj.get constituent (_minimums s) with
        | Some m =>
            if (Monotonic.compare (Minimum.reduced m) reduced <? 0)%Z
            then reduce s rest (Minimum.reduced m)
            else reduce s rest reduced
        | None => (0, 0)%N
        end
  end.

Definition minimum_differs (recorded : option Minimum.t) (minimum : Minimum.t) : bool :=
  match recorded with
  | None => true
  | Some m =>
      (negb (Monotonic.eqb (Minimum.version m) (Minimum.version minimum))
       || negb (Monotonic.eqb (Minimum.reduced m) (Minimum.reduced minimum)))%bool
  end.

(** The update of the minimum at the end of the housekeeping of one
    recipient. *)
Definition update_minimum (message : Message.t) (recipient : string)
    (minimum : option Minimum.t) (s : Paxos) : Paxos :=
  match minimum with
  | Some minimum =>
      if (Message.constituent message
          && minimum_differs (Obj.get recipient (_minimums s)) minimum)%bool
      then
        let s :=
          with_minimums
            (Obj.set recipient
               (Minimum.mk (Minimum.propagated minimum) (Minimum.version minimum)
                           (Minimum.reduced minimum))
               (_minimums s))
            (if String.eqb recipient (id s) then with_minimums_shared false s else s) in
        let reduced := reduce s (constituency s) (head_promise s) in
        replace_minimum
          (Minimum.mk (if is_leader s then reduced else Minimum.propagated (_minimum s))
                      (Government.promise (government s))
                      reduced) s
      else s
  | None => s
  end.

(** The housekeeping of [response] for one recipient. *)
Definition housekeep (now : Z) (message : Message.t) (recipient : string)
    (responses : Obj.t string Response.t) (s : Paxos)
  : Result (Paxos * Obj.t string Response.t) :=
  let promise := immigration_promise recipient s in
  let failed :=
    match Obj.get recipient responses with
    | None => true
    | Some response => String.eqb (Reply.method (Response.message response)) "unreachable"
    end in
  let '(s, response) :=
    if failed then
      let s := if Message.collapsible message then _collapse now s else s in
      match Obj.get promise (_disappeared s) with
      | None => (with_disappeared (Obj.set promise now (_disappeared s)) s,
                 unreachable_response)
      | Some since =>
          if (timeout s <=? now - since)%Z then
            (s, Response.mk (Response.message unreachable_response)
                            (Response.sync unreachable_response)
                            None [(promise, true)])
          else (s, unreachable_response)
      end
    else
      (with_disappeared (Obj.del promise (_disappeared s)) s,
       coalesce (Obj.get recipient responses) unreachable_response) in
  let responses := if failed then Obj.set recipient response responses else responses in
  let s :=
    match Sync.committed (Response.sync response) with
    | Some committed => with_committed (Obj.set promise committed (_committed s)) s
    | None => s
    end in
  r <- _synchronize now (Sync.commits (Response.sync response)) s ;;
  s <- unreachable_loop now (Response.unreachable response) (fst r) ;;
  Ok (update_minimum message recipient (Response.minimum response) s, responses).

Fixpoint housekeeping (now : Z) (message : Message.t) (to : list string)
    (responses : Obj.t string Response.t) (s : Paxos)
  : Result (Paxos * Obj.t string Response.t) :=
  match to with
  | [] => Ok (s, responses)
  | recipient :: rest =>
      r <- housekeep now message recipient responses s ;;
      housekeeping now message rest (snd r) (fst r)
  end.

Definition version_matches (version : Version) (s : Paxos) : bool :=
  match version with
  | VWriter promise collapsed =>
      (Monotonic.eqb promise (fst (writer_version s))
       && Bool.eqb collapsed (snd (writer_version s)))%bool
  | VGovernment _ => false
  end.

(** [Paxos.prototype.response]. *)
Definition response (now : Z) (message : Message.t) (responses : Obj.t string Response.t)
    (s : Paxos) : Result Paxos :=
  to <- match Message.to message with
        | Some to => Ok to
        | None => Throw (TypeError "message.to is undefined")
        end ;;
  r <- housekeeping now message to responses s ;;
  let s := fst r in
  let responses := snd r in
  if String.eqb (Message.method message) "synchronize" then
    if match Message.version message with
       | VGovernment promise => Monotonic.eqb promise (Government.promise (government s))
       | VWriter _ _ => false
       end
    then
      first <- match to with
               | recipient :: _ =>
                   match Obj.get recipient responses with
                   | Some response => Ok response
                   | None => Throw (TypeError "responses[message.to[0]] is undefined")
                   end
               | [] => Throw (TypeError "responses[message.to[0]] is undefined")
               end ;;
      let delay :=
        match Sync.committed (Response.sync first) with
        | None => ping s
        | Some committed =>
            if Monotonic.eqb committed (head_promise s) then ping s else 0%Z
        end in
      let key := coalesce (Message.key message) "undefined" in
      if (match Message.key message with
          | Some key => negb (String.eqb key (id s))
          | None => true
          end || negb (writer_collapsed s))%bool
      then
        Ok (with_scheduler
              (Scheduler.schedule (now + delay) key
                 (synchronize to (Some (Message.collapsible message))) (scheduler s)) s)
      else Ok s
    else Ok s
  else if version_matches (Message.version message) s then
    writer_response now message responses None s
  else Ok s.

End Citizen.

(** ** Dispatch of typed messages to participants *)

Module Utility.

Section Participants.

(** The heap the methods of the participants act on, the payload of a
    message beside its type, and what a method returns. *)
Variables Heap Payload Response : Type.

(** [String.prototype.toUpperCase] on the one-unit string [type[0]]. *)
Variable toUpperCase : string -> string.

Record Message : Type := mkMessage {
  type : option string;
  payload : Payload
}.

(** A method called on a participant with a message: it throws, or leaves
    a heap and returns an array (nothing counts as the empty array). *)
Definition Method : Type := Message -> Heap -> Result (Heap * list Response).

(** A participant: its property under a name, when that is a function. *)
Definition Participant : Type := string -> option Method.

(** [prefix + type[0].toUpperCase() + type.substring(1)]. *)
Definition method_name (prefix : string) (type : option string) : Result string :=
  match type with
  | None => Throw (TypeError "type is undefined")
  | Some EmptyString => Throw (TypeError "type[0] is undefined")
  | Some (String first rest) =>
      Ok (prefix ++ toUpperCase (String first EmptyString) ++ rest)%string
  end.

Definition handles (method : string) (participant : Participant) : bool :=
  match participant method with Some _ => true | None => false end.

(** The inner loop of [dispatch]: one message handed to each participant
    that has the method. *)
Fixpoint receive (method : string) (message : Message) (participants : list Participant)
    (heap : Heap) : Result (Heap * list Response) :=
  match participants with
  | [] => Ok (heap, [])
  | participant :: rest =>
      match participant method with
      | Some call =>
          r <- call message heap ;;
          r' <- receive method message rest (fst r) ;;
          Ok (fst r', snd r ++ snd r')
      | None => receive method message rest heap
      end
  end.

(** [exports.dispatch]. *)
Fixpoint dispatch (messages : list Message) (participants : list Participant) (heap : Heap)
  : Result (Heap * list Response) :=
  match messages with
  | [] => Ok (heap, [])
  | message :: rest =>
      method <- method_name "receive" (type message) ;;
      r <- receive method message participants heap ;;
      r' <- dispatch rest participants (fst r) ;;
      Ok (fst r', snd r ++ snd r')
  end.

(** The inner loop of [consume]: a participant without the method puts the
    message on the filtered list. *)
Fixpoint digest (method : string) (message : Message) (participants : list Participant)
    (heap : Heap) : Result (Heap * list Message) :=
  match participants with
  | [] => Ok (heap, [])
  | participant :: rest =>
      match participant method with
      | Some call =>
          r <- call message heap ;;
          digest method message rest (fst r)
      | None =>
          r' <- digest method message rest heap ;;
          Ok (fst r', message :: snd r')
      end
  end.

(** [exports.consume]. *)
Fixpoint consume (messages : list Message) (participants : list Participant) (heap : Heap)
  : Result (Heap * list Message) :=
  match messages with
  | [] => Ok (heap, [])
  | message :: rest =>
      method <- method_name "consume" (type message) ;;
      r <- digest method message participants heap ;;
      r' <- consume rest participants (fst r) ;;
      Ok (fst r', snd r ++ snd r')
  end.

(** A message carries a type with a first character. *)
Definition typed (message : Message) : bool :=
  match type message with
  | Some (String _ _) => true
  | _ => false
  end.

(** The copies of a message that [consume] hands back: one for each
    participant without the method for its type. *)
Definition unclaimed (participants : list Participant) (message : Message) : list Message :=
  match method_name "consume" (type message) with
  | Ok method =>
      List.map (fun _ => message)
               (filter (fun participant => negb (handles method participant)) participants)
  | Throw _ => []
  end.

End Participants.

Arguments mkMessage {Payload} type payload.
Arguments type {Payload} m.
Arguments payload {Payload} m.
Arguments handles {Heap Payload Response} method participant.
Arguments receive {Heap Payload Response} method message participants heap.
Arguments dispatch {Heap Payload Response} toUpperCase messages participants heap.
Arguments digest {Heap Payload Response} method message participants heap.
Arguments consume {Heap Payload Response} toUpperCase messages participants heap.
Arguments typed {Payload} message.
Arguments unclaimed {Heap Payload Response} toUpperCase participants message.

End Utility.

(** ** A citizen with inert strategies *)

(** Modelled from the spec: the constituency derivation ([constituency.js])
    is missing; the leader fans out to the majority, the majority to the
    minority and the minority to the constituents, and a dictator keeps the
    constituents itself. *)
Definition fan_out (g : Government.t) (id : string) : list string :=
  match Government.majority g with
  | [] => []
  | leader :: majority =>
      if String.eqb leader id then
        match majority, Government.minority g with
        | [], [] => Government.constituents g
        | _, _ => majority
        end
      else if includes id majority then Government.minority g
      else if includes id (Government.minority g) then Government.constituents g
      else []
  end.

(** The simplest strategies that fit the slots: a shaper that records
    immigrations and never proposes a shape, a recorder that acknowledges
    every round, and a proposer without proposals. *)
#[local] Instance inert_strategies : Strategies :=
  {| ShaperT := list Immigrate.t; RecorderT := unit; ProposerT := Promise |}.

#[local] Instance inert : Collaborators :=
  {| Constituency := fan_out;
     Shaper_new := fun _ _ => [];
     Shaper_immigrate := fun i sh => (sh ++ [i], None);
     Shaper_immigrated := fun _ sh => sh;
     Shaper_unreachable := fun _ sh => (sh, None);
     Shaper_naturalized := fun _ sh => (sh, None);
     Shaper_immigrating := fun sh => sh;
     Shaper_decided := fun sh => sh;
     Recorder_new := fun _ => tt;
     Recorder_request := fun _ m s => Ok (s, Reply.mk "receive" None);
     Recorder_createRecorder := fun _ _ => tt;
     Proposer_new := fun p _ => p;
     Proposer_collapsed := fun _ => true;
     Proposer_version := fun p => (p, true);
     Proposer_proposals := fun _ => [];
     Proposer_assign := fun _ p => p;
     Proposer_push := fun _ p => p;
     Proposer_unshift := fun _ p => p;
     Proposer_nudge := fun p _ => (p, None);
     Proposer_response := fun _ _ _ _ s => Ok s;
     Proposer_createWriter := fun promise _ _ => TwoPhase (Writer.create promise) |}.

(** *** Scenes

    Citizens built by the operations above, as in the tests: a parliament
    of five, a ping of 1 and a timeout of 2. *)

Definition scene_options : Options := mkOptions (Some 5%N) (Some 1%Z) (Some 2%Z).

(** The state a call returns, or the state it was made in when it throws. *)
Definition after (call : Paxos -> Result Paxos) (s : Paxos) : Paxos :=
  match call s with
  | Ok s' => s'
  | Throw _ => s
  end.

(** The leader: citizen ['0'], bootstrapped at time 0. *)
Definition dictator : Paxos :=
  after (bootstrap 0 "{}") (Paxos_new 0 "republic" "0" scene_options).

(** The government that admits [newcomer] as a constituent of the dictator. *)
Definition admits (promise : Promise) (constituents : list string)
    (properties : Obj.t string JSON) (immigrated_id : Obj.t Promise string)
    (immigrated_promise : Obj.t string Promise) (newcomer : string) (cookie : Z)
  : Government.t :=
  Government.mk promise ["0"] [] constituents properties immigrated_id immigrated_promise
                (Some []) (Some (Immigrate.mk newcomer (Some "{}") cookie)) None.

Definition government2 : Government.t :=
  admits (2, 0)%N ["1"] [("0", "{}"); ("1", "{}")]
         [((1, 0)%N, "0"); ((2, 0)%N, "1")] [("0", (1, 0)%N); ("1", (2, 0)%N)] "1" 1.

Definition government3 : Government.t :=
  admits (3, 0)%N ["1"; "2"] [("0", "{}"); ("1", "{}"); ("2", "{}")]
         [((1, 0)%N, "0"); ((2, 0)%N, "1"); ((3, 0)%N, "2")]
         [("0", (1, 0)%N); ("1", (2, 0)%N); ("2", (3, 0)%N)] "2" 2.

(** A ping of constituent [to] under government [version]. *)
Definition ping_of (version : Promise) (to : string) : Message.t :=
  Message.mk "synchronize" (VGovernment version) (Some [to]) false true (Some to) [].

(** The reply of a constituent that is at [committed] and reports
    [minimum]. *)
Definition pong (from : string) (committed : Promise) (minimum : Minimum.t) : Response.t :=
  Response.mk (Reply.mk "respond" (Some committed))
              (Sync.mk (Some "republic") None (Some from) (Some minimum) (Some committed) [])
              (Some minimum) [].

(** The dictator has enacted the immigration of ['1']. *)
Definition leader2 : Paxos :=
  after (_commit 1 (Entry.mk (2, 0)%N (BGovernment government2) (Some (1, 0)%N))
                 (Some (1, 0)%N)) dictator.

(** Constituent ['1'] has reported its minimum under government [2/0]. *)
Definition leader2_reported : Paxos :=
  after (response 2 (ping_of (2, 0)%N "1")
                  [("1", pong "1" (2, 0)%N (Minimum.mk (0, 0) (2, 0) (2, 0))%N)]) leader2.

(** The leader has enacted the immigration of ['2']. *)
Definition leader3 : Paxos :=
  after (_commit 3 (Entry.mk (3, 0)%N (BGovernment government3) (Some (2, 0)%N))
                 (Some (2, 0)%N)) leader2_reported.

(** Constituent ['1'] reports again, now under government [3/0]. *)
Definition leader3_reported : Paxos :=
  after (response 4 (ping_of (3, 0)%N "1")
                  [("1", pong "1" (3, 0)%N (Minimum.mk (2, 0) (3, 0) (3, 0))%N)]) leader3.

(** The dictator has been handed the shape that admits ['1']: the
    government proposal is in flight. *)
Definition admitting : Paxos :=
  after (newGovernment 1 ["0"]
           (Shape.mkGovernment ["0"] [] (Some (Immigrate.mk "1" (Some "{}") 1)) None))
        dictator.

(** The write round in flight at [admitting]. *)
Definition write_in_flight : Message.t :=
  match outbox admitting with
  | sent :: _ => Outgoing.message sent
  | [] => ping_of (0, 0)%N "0"
  end.

(** A recorder rejects the write under a higher promise. *)
Definition rejection : Obj.t string Response.t :=
  [("0", Response.mk (Reply.mk "reject" (Some (9, 0)%N))
                     (Sync.mk (Some "republic") (Some (1, 0)%N) (Some "0")
                              (Some (_minimum admitting)) (Some (1, 0)%N) [])
                     (Some (_minimum admitting)) [])].

(** A request from another republic that carries one commit. *)
Definition foreign_request : Request.t :=
  Request.mk (ping_of (1, 0)%N "0")
             (Sync.mk (Some "elsewhere") (Some (1, 0)%N) (Some "9")
                      (Some (Minimum.mk (0, 0) (1, 0) (0, 0))%N) (Some (1, 0)%N)
                      [Entry.mk (1, 1)%N (BMessage "foreign") (Some (1, 0)%N)]).


(** A government two majors above the current one, offered on top of the
    dictator's head. *)
Definition leaping : Entry.t :=
  Entry.mk (3, 0)%N
           (BGovernment
              (Government.mk (3, 0)%N ["0"] [] [] [("0", "{}")] [((1, 0)%N, "0")]
                             [("0", (1, 0)%N)] None None None))
           (Some (1, 0)%N).

(** The dictator after it has been handed that government. *)
Definition leapt : Paxos := after (_commit 2 leaping (Some (1, 0)%N)) dictator.

(** The government that seats ['1'] in the majority and ['2'] in the
    minority. *)
Definition government4 : Government.t :=
  Government.mk (4, 0)%N ["0"; "1"] ["2"] []
    [("0", "{}"); ("1", "{}"); ("2", "{}")]
    [((1, 0)%N, "0"); ((2, 0)%N, "1"); ((3, 0)%N, "2")]
    [("0", (1, 0)%N); ("1", (2, 0)%N); ("2", (3, 0)%N)]
    (Some []) None None.

(** Citizen ['1'], created at time 1 and brought up to government [4/0] by
    one synchronisation: it represents ['2']. *)
Definition representative : Paxos :=
  after (fun s =>
           r <- _synchronize 5
                  [Entry.mk (2, 0)%N (BGovernment government2) (Some (1, 0)%N);
                   Entry.mk (3, 0)%N (BGovernment government3) (Some (2, 0)%N);
                   Entry.mk (4, 0)%N (BGovernment government4) (Some (3, 0)%N)] s ;;
           Ok (fst r))
        (Paxos_new 1 "republic" "1" scene_options).

(** Its constituent reports a minimum one entry above the representative's
    head. *)
Definition representative_reported : Paxos :=
  after (response 6 (ping_of (4, 0)%N "2")
                  [("2", pong "2" (4, 1)%N (Minimum.mk (0, 0) (4, 0) (4, 1))%N)])
        representative.

(** The leader after the rejection has come back through [response]. *)
Definition rejected : Paxos := after (response 2 write_in_flight rejection) admitting.

(** The leader after a client has enqueued a message while the government
    proposal is in flight. *)
Definition queued : Paxos :=
  after (fun s => r <- enqueue 2 "republic" "hello" s ;; Ok (fst r)) admitting.

(** The dictator after it has served the request of the other republic. *)
Definition served : Paxos :=
  after (fun s => r <- request 2 foreign_request s ;; Ok (fst r)) dictator.

(** The commit that follows the dictator's head by one minor step. *)
Definition following : Entry.t := Entry.mk (1, 1)%N (BMessage "next") (Some (1, 0)%N).

(** A citizen that is not a leader, as constructed. *)
Definition newcomer : Paxos := Paxos_new 1 "republic" "1" scene_options.

(** The writer of [admitting] as a run: created, then handed the government
    proposal. *)
Definition admitting_writer : Writer.t :=
  match _writer admitting with
  | TwoPhase w => w
  | Recovery _ => Writer.create (1, 0)%N
  end.

(** *** A scene for the dispatcher

    Two participants over a heap that journals the payloads handled: the
    listener has [receivePing] and [consumePing], the bystander has no
    method at all. *)

(** [toUpperCase] on a string of one ASCII character. *)
Definition upper (s : string) : string :=
  match s with
  | String c EmptyString =>
      let n := Ascii.nat_of_ascii c in
      if ((97 <=? n) && (n <=? 122))%nat
      then String (Ascii.ascii_of_nat (n - 32)) EmptyString
      else s
  | _ => s
  end.

Definition listener : Utility.Participant (list string) string string :=
  fun method =>
    if String.eqb method "receivePing" then
      Some (fun message heap => Ok (heap ++ [Utility.payload message], ["pong"]))
    else if String.eqb method "consumePing" then
      Some (fun message heap => Ok (heap ++ [Utility.payload message], []))
    else None.

Definition bystander : Utility.Participant (list string) string string :=
  fun _ => None.

Definition ping_message (payload : string) : Utility.Message string :=
  Utility.mkMessage (Some "ping") payload.

(** A message whose type is the empty string. *)
Definition blank : Utility.Message string := Utility.mkMessage (Some "") "lost".

(** ** The earlier citizen: one segment for all the recipients

    The earlier version of the citizen keeps one [minimum] and puts one
    sync segment in all the envelopes of a request; what it knows of each
    recipient comes from its pinger. *)

(** What the pinger knows of a recipient. *)
Module Ping.
Record t : Type := mk {
  id : option string;
  committed : option Promise
}.
End Ping.

(** The loop of [_stuffSynchronize] over the pings after the first: the
    ping with the least committed promise so far. *)
Fixpoint least_ping (ping : Ping.t) (pings : list Ping.t) : Result Ping.t :=
  match pings with
  | [] => Ok ping
  | next :: rest =>
      match Ping.committed ping, Ping.committed next with
      | Some a, Some b =>
          let ping := if (Monotonic.compare b a <? 0)%Z then next else ping in
          assert (negb (eqb_nullable (Ping.committed ping) (Some (0, 0)%N)))
                 "ping.committed != '0/0'" ;;;
          least_ping ping rest
      | _, _ => Throw (AssertionError "ping.committed != null")
      end
  end.

(** [Paxos.prototype._stuffSynchronize] of the earlier citizen, which keeps
    one [minimum] and sends one segment to all the recipients of a
    request: the segment with the commits pushed, and the value
    returned. *)
Definition _stuffSynchronize (pings : list Ping.t) (sync : Sync.t) (count : nat)
    (log : Log.t) (minimum : Promise) : Result (Sync.t * bool) :=
  match pings with
  | [] => Throw (TypeError "ping is undefined")
  | first :: rest =>
      ping <- least_ping first rest ;;
      match Ping.committed ping with
      | None => Ok (sync, true)
      | Some committed =>
          iterator <-
            (if Monotonic.eqb committed (0, 0)%N then
               match immigration_from (Ping.id ping) (Log.live log) with
               | Some nodes => Ok nodes
               | None => Throw (AssertionError "immigration missing")
               end
             else
               assert (0 <=? Monotonic.compare committed minimum)%Z "minimum breached" ;;;
               assert (Monotonic.compare committed (LogEntry.promise (log_head log))
                       <=? 0)%Z "maximum breached" ;;;
               match Log.after committed (Log.live log) with
               | Some nodes => Ok nodes
               | None => Throw (TypeError "this._findRound(ping.committed) is null")
               end) ;;
          Ok (Sync.mk (Sync.republic sync) (Sync.promise sync) (Sync.from sync)
                      (Sync.minimum sync) (Sync.committed sync)
                      (Sync.commits sync
                       ++ List.map commit_of (counted count iterator)),
              true)
      end
  end.

(** The ping is at [floor] or above it. *)
Definition above (floor : Promise) (ping : Ping.t) : Prop :=
  exists committed, Ping.committed ping = Some committed
                    /\ (Monotonic.compare committed floor <? 0)%Z = false.

(** Two recipients, at [1/0] and at [1/1]. *)
Definition laggards : list Ping.t :=
  [Ping.mk (Some "1") (Some (1, 1)%N); Ping.mk (Some "2") (Some (1, 0)%N)].

(** An empty segment. *)
Definition empty_sync : Sync.t :=
  Sync.mk (Some "republic") None (Some "0") None (Some (1, 1)%N) [].

(** ** The statements under verification *)

(** The log entry [_commit] pushes for a commit. *)
Definition logged (e : Entry.t) : LogEntry.t :=
  LogEntry.mk (if Monotonic.isBoundary (Entry.promise e) 0 then "government" else "entry")
              (Entry.promise e) (Entry.body e) (Entry.previous e).


(** Each commit is chained and carries the increment-minor of the head it
    is applied to. *)
Fixpoint consecutive (top : Promise) (entries : list Entry.t) : bool :=
  match entries with
  | [] => true
  | e :: rest =>
      (eqb_nullable (Some top) (Entry.previous e)
       && Monotonic.eqb (Monotonic.increment top 1) (Entry.promise e)
       && consecutive (Entry.promise e) rest)%bool
  end.

Definition user_entry (e : Entry.t) : bool := negb (Monotonic.isBoundary (Entry.promise e) 0).


(** The smaller of two promises. *)
Definition least (a b : Promise) : Promise :=
  if (Monotonic.compare a b <? 0)%Z then a else b.


(** The generator behind the retry delay. *)
Definition lehmer (seed : Z) : Z := ((seed * 16807) mod (2 ^ 31 - 1))%Z.

(** The delays of [n] successive retries from [seed]. *)
Fixpoint lehmer_delays (n : nat) (seed timeout : Z) : list Z :=
  match n with
  | O => []
  | S n' => (lehmer seed mod timeout)%Z :: lehmer_delays n' (lehmer seed) timeout
  end.

(** The next major promise after [previous]. *)
Definition next_government (previous : Promise) : Promise := (fst previous + 1, 0)%N.

(** *** Runs of the writer

    The writer of a leader from its creation: proposals are pushed under
    minor promises and a government is unshifted by [newGovernment] after
    the queue is re-mapped.  In a run each response answers the request in
    flight, once; in a history a response may answer any request, any
    number of times. *)

Definition assign (proposals : list Proposal.t) (w : Writer.t) : Writer.t :=
  Writer.mk (Writer.version w) (Writer.collapsed w) proposals
            (Writer._writing w) (Writer._unshifted w).

Definition last_sent (sent : list Message.t) (inflight : option Message.t) : option Message.t :=
  match rev sent with
  | m :: _ => Some m
  | [] => inflight
  end.

Inductive writer_run : Writer.t -> option Message.t -> list Message.t -> Prop :=
| run_create (promise : Promise) :
    writer_run (Writer.create promise) None []
| run_push w inflight sent quorum promised body :
    writer_run w inflight sent ->
    let queued := Proposal.mk quorum (Monotonic.increment promised 1) body None None in
    let r := Writer.nudge (assign (Writer.proposals w ++ [queued]) w) in
    writer_run (fst r)
               (match snd r with Some m => Some m | None => inflight end)
               (match snd r with Some m => sent ++ [m] | None => sent end)
| run_government w inflight sent route promise quorum body :
    writer_run w inflight sent ->
    let remapped := fst (fst (remap route promise (Writer.proposals w) [])) in
    let r := Writer.nudge
               (Writer.unshift (Proposal.mk (Some quorum) promise body None None)
                               (assign remapped w)) in
    writer_run (fst r)
               (match snd r with Some m => Some m | None => inflight end)
               (match snd r with Some m => sent ++ [m] | None => sent end)
| run_response w request sent w' sends :
    writer_run w (Some request) sent ->
    Writer.respond (Message.messages request) w = Ok (w', sends) ->
    writer_run w' (last_sent sends None) (sent ++ sends).

(** The writer of a leader from its creation, whatever comes back: a
    response may answer any request, or the same request again, since the
    citizen hands the writer every response that carries its version.  The
    steps are the operations of the writer one by one, [push], [unshift]
    after the queue is re-mapped, [nudge], and one message of a response,
    so that a call that throws midway leaves a history too. *)
Inductive writer_history : Writer.t -> list Message.t -> Prop :=
| history_create (promise : Promise) :
    writer_history (Writer.create promise) []
| history_push w sent quorum promised body :
    writer_history w sent ->
    let queued := Proposal.mk quorum (Monotonic.increment promised 1) body None None in
    writer_history (assign (Writer.proposals w ++ [queued]) w) sent
| history_government w sent route promise quorum body :
    writer_history w sent ->
    let remapped := fst (fst (remap route promise (Writer.proposals w) [])) in
    writer_history (Writer.unshift (Proposal.mk (Some quorum) promise body None None)
                                   (assign remapped w)) sent
| history_nudge w sent :
    writer_history w sent ->
    let r := Writer.nudge w in
    writer_history (fst r) (match snd r with Some m => sent ++ [m] | None => sent end)
| history_reply w sent message w' m :
    writer_history w sent ->
    Writer.replied message w = Ok (w', m) ->
    writer_history w' (match m with Some m => sent ++ [m] | None => sent end).

(** A request packs a second write beside a commit. *)
Definition piggybacks (m : Message.t) (a b : Proposal.t) : Prop :=
  Message.messages m = [Writer.commit_of a; Writer.write_of b].

Definition government_write (sub : Submessage.t) : bool :=
  (String.eqb (Submessage.method sub) "write"
   && Monotonic.isBoundary (Submessage.promise sub) 0)%bool.

Section Statements.

Context {strategies : Strategies} {collaborators : Collaborators}.




(** The delay under which the propose event of the citizen is scheduled,
    counted from [now]. *)
Definition proposed_delay (now : Z) (s : Paxos) : option Z :=
  match Obj.get (id s) (scheduler s) with
  | Some (when, propose) => Some (when - now)%Z
  | _ => None
  end.

(** The delays of successive retries made at the given times. *)
Fixpoint retry_delays (nows : list Z) (s : Paxos) : list (option Z) :=
  match nows with
  | [] => []
  | now :: rest =>
      let s' := _propose now true s in
      proposed_delay now s' :: retry_delays rest s'
  end.

(** A constituent has reported a minimum under the current government. *)
Definition reported (s : Paxos) (constituent : string) : bool :=
  match Obj.get constituent (_minimums s) with
  | Some m => Monotonic.eqb (Minimum.version m) (Government.promise (government s))
  | None => false
  end.

(** The [reduced] value a constituent has reported. *)
Definition reduced_of (s : Paxos) (constituent : string) : Promise :=
  match Obj.get constituent (_minimums s) with
  | Some m => Minimum.reduced m
  | None => (0, 0)%N
  end.

(** The least of [floor] and the constituents' reduced values. *)
Definition floor (s : Paxos) (constituency : list string) (floor : Promise) : Promise :=
  fold_left (fun acc c => least (reduced_of s c) acc) constituency floor.

(** The minimum of the constituents' reduced values alone, as the
    specification words it; [None] for no constituents. *)
Definition least_reported (s : Paxos) : option Promise :=
  match constituency s with
  | [] => None
  | first :: rest => Some (floor s rest (reduced_of s first))
  end.

(** The state in which [update_minimum] recomputes: the report recorded. *)
Definition recorded (recipient : string) (minimum : Minimum.t) (s : Paxos) : Paxos :=
  with_minimums (Obj.set recipient minimum (_minimums s))
                (if String.eqb recipient (id s) then with_minimums_shared false s else s).

End Statements.

Definition user_proposal (p : Proposal.t) : Prop :=
  Monotonic.isBoundary (Proposal.promise p) 0 = false.

(** The three rounds a writer sends: a lone write, a lone commit, or a
    commit with a second write packed beside it. *)
Definition packed (m : Message.t) : Prop :=
  (exists a, Message.messages m = [Writer.write_of a])
  \/ (exists a, Message.messages m = [Writer.commit_of a])
  \/ (exists a b, Message.messages m = [Writer.commit_of a; Writer.write_of b]
                  /\ user_proposal a /\ user_proposal b).

(** How the in-flight list stands to the request in flight. *)
Definition flying (w : Writer.t) (inflight : option Message.t) : Prop :=
  match inflight with
  | None => Writer._writing w = []
  | Some m =>
      (exists a, Writer._writing w = [a] /\ Message.messages m = [Writer.write_of a])
      \/ (exists a, Writer._writing w = [a] /\ Message.messages m = [Writer.commit_of a])
      \/ (exists a b, Writer._writing w = [a; b]
                      /\ Message.messages m = [Writer.commit_of a; Writer.write_of b]
                      /\ user_proposal a /\ user_proposal b)
  end.

(** The proposals in flight are user proposals, or there is one at most. *)
Definition aligned (w : Writer.t) : Prop :=
  Forall user_proposal (Writer._writing w) \/ (List.length (Writer._writing w) <= 1)%nat.

Section Frames.

Context {strategies : Strategies} {collaborators : Collaborators}.

(** What proposing a government leaves alone: everything but the shaper,
    the writer, the last promise issued, the scheduler and the outbox. *)
Definition ledger (s : Paxos) :=
  (id s, cookie s, republic s, parliamentSize s, log s, government s, ping s, timeout s,
   constituency s, citizens s, _committed s, _minimum s, _minimums s, _minimums_shared s,
   _recorder s, _seed s, _disappeared s, _unreachable s, majority s).

(** The requests in the outbox, oldest first. *)
Definition sent_requests (s : Paxos) : list Message.t :=
  List.map Outgoing.message (outbox s).

(** A shape whose immigration record, if any, carries properties. *)
Definition serialisable (shape : Shape.government) : Prop :=
  match Shape.immigrate shape with
  | Some immigrate => Immigrate.properties immigrate <> None
  | None => True
  end.

(** The occupant of the writer slot has taken [proposal]: a two-phase
    writer holds it in flight or in its queue; a proposer is the proposer
    that was handed it by [unshift], after the queue was re-mapped along
    [route] unless the proposer is collapsed, and was then nudged. *)
Definition proposes (route : list string) (proposal : Proposal.t)
    (before after : WriterSlot) : Prop :=
  match before with
  | TwoPhase _ =>
      exists w, after = TwoPhase w
                /\ In proposal (Writer._writing w ++ Writer.proposals w)
  | Recovery p =>
      let queued :=
        if Proposer_collapsed p then p
        else Proposer_assign
               (fst (fst (remap route (Proposal.promise proposal) (Proposer_proposals p) [])))
               p in
      exists s, after = Recovery (fst (Proposer_nudge (Proposer_unshift proposal queued) s))
  end.

(** The writer slot is ready for a government: a two-phase writer is busy,
    or no peer has a recorded commit to catch up from; a collapsed
    proposer has no government at the front of its queue, no peer has a
    recorded commit, and the requests it sends name their recipients. *)
Definition ready (s : Paxos) : Prop :=
  match _writer s with
  | TwoPhase w =>
      Writer.collapsed w = false /\ (Writer._writing w <> [] \/ _committed s = [])
  | Recovery p =>
      Proposer_collapsed p = true
      /\ match Proposer_proposals p with
         | [] => True
         | first :: _ => Monotonic.isBoundary (Proposal.promise first) 0 = false
         end
      /\ _committed s = []
      /\ forall proposal s0 m,
           snd (Proposer_nudge (Proposer_unshift proposal p) s0) = Some m ->
           Message.to m <> None
  end.

End Frames.

(** *** The queue of the writer *)

(** The proposals the writer holds, oldest first: those in flight, then
    those waiting. *)
Definition queue (w : Writer.t) : list Proposal.t :=
  Writer._writing w ++ Writer.proposals w.

(** The number of ['commit'] messages in a request. *)
Definition commit_count (messages : list Submessage.t) : nat :=
  List.length (filter (fun m => String.eqb (Submessage.method m) "commit") messages).

(** The [n] minor promises that follow [start]. *)
Definition promises_after (start : Promise) (n : nat) : list Promise :=
  List.map (fun k => (fst start, snd start + N.of_nat k)%N) (seq 1 n).

(** The writer of [queued]: a government in flight and one message
    waiting. *)
Definition queued_writer : Writer.t :=
  match _writer queued with
  | TwoPhase w => w
  | Recovery _ => Writer.create (1, 0)%N
  end.

(** The leader of [queued] after a second shape has been proposed. *)
Definition requeued : Paxos :=
  after (newGovernment 3 ["0"] (Shape.mkGovernment ["0"] [] None None)) queued.

(** Two proposals waiting under the promises [1/1] and [1/2]. *)
Definition waiting : list Proposal.t :=
  [Proposal.mk (Some ["0"]) (1, 1)%N (BMessage "a") None None;
   Proposal.mk (Some ["0"]) (1, 2)%N (BMessage "b") None None].

(** The writer after a client's proposal has been pushed under the
    increment-minor of [promised] and the writer nudged. *)
Definition pushed (body : Body) (promised : Promise) (w : Writer.t) : Writer.t :=
  fst (Writer.nudge
         (assign (Writer.proposals w
                  ++ [Proposal.mk (Some ["0"]) (Monotonic.increment promised 1) body
                                  None None]) w)).

(** The writer after the response to [request] has come back. *)
Definition answered (request : Message.t) (w : Writer.t) : Writer.t :=
  match Writer.respond (Message.messages request) w with
  | Ok (w', _) => w'
  | Throw _ => w
  end.

(** A writer with the proposal [1/1] in flight and [1/2] and [1/3]
    waiting. *)
Definition crowded : Writer.t :=
  pushed (BMessage "c") (1, 2)%N
         (pushed (BMessage "b") (1, 1)%N
                 (pushed (BMessage "a") (1, 0)%N (Writer.create (1, 0)%N))).

(** The round that writes [1/1]. *)
Definition first_write : Message.t :=
  Writer.round (Writer.create (1, 0)%N) (Some ["0"])
    [Writer.write_of (Proposal.mk (Some ["0"]) (1, 1)%N (BMessage "a") None None)].

(** The response to that round comes back twice. *)
Definition overfilled : Writer.t := answered first_write (answered first_write crowded).

(** The writer after the round that writes [1/1] has been answered once,
    with [1/2] waiting, and the round it then sends. *)
Definition piped : Writer.t :=
  answered first_write
           (pushed (BMessage "b") (1, 1)%N
                   (pushed (BMessage "a") (1, 0)%N (Writer.create (1, 0)%N))).

Definition second_round : Message.t :=
  Writer.round (Writer.create (1, 0)%N) (Some ["0"])
    [Writer.commit_of (Proposal.mk (Some ["0"]) (1, 1)%N (BMessage "a") None None);
     Writer.write_of (Proposal.mk (Some ["0"]) (1, 2)%N (BMessage "b") None None)].

(** *** Submissions, timers and requests *)

Section Conduct.

Context {strategies : Strategies} {collaborators : Collaborators}.

(** The answer of a citizen that does not take a submission: a collapsed
    citizen or one of another republic names no leader, any other names
    [government.majority[0]], which an empty majority does not have. *)
Definition refusal (republic' : string) (s : Paxos) : Enqueued :=
  mkEnqueued false (Some (republic s))
             (if (writer_collapsed s || negb (String.eqb (republic s) republic'))%bool
              then None else Government.leader (government s))
             None.

(** The members of a parliament other than the citizen itself. *)
Definition strangers (s : Paxos) (parliament : list string) : list string :=
  filter (fun who => negb (String.eqb who (id s))) parliament.

(** The members of the current parliament other than the citizen. *)
Definition others (s : Paxos) : list string :=
  strangers s (Government.majority (government s) ++ Government.minority (government s)).

(** The citizen has no record of [who] having disappeared. *)
Definition present (s : Paxos) (who : string) : bool :=
  negb (Obj.has (immigration_promise who s) (_disappeared s)).

(** The timer envelope of an event. *)
Definition timed (envelope : Timer.t) (event : Event) : Prop :=
  Timer.module envelope = "happenstance" /\ Timer.method envelope = "event"
  /\ Timer.body envelope = event.

(** What each envelope of a request sent by [s] carries: the request, the
    sender, and a sync segment that starts at the sender's head and holds
    at most 23 commits. *)
Definition addressed (message : Message.t) (s : Paxos) (envelope : Envelope.t) : Prop :=
  Envelope.from envelope = id s
  /\ Request.message (Envelope.request envelope) = message
  /\ Sync.from (Request.sync (Envelope.request envelope)) = Some (id s)
  /\ Sync.republic (Request.sync (Envelope.request envelope)) = Some (republic s)
  /\ Sync.committed (Request.sync (Envelope.request envelope)) = Some (head_promise s)
  /\ (List.length (Sync.commits (Request.sync (Envelope.request envelope))) <= 23)%nat.

(** The recipient did not answer: its response is missing or says
    ['unreachable']. *)
Definition silent (recipient : string) (responses : Obj.t string Response.t) : bool :=
  match Obj.get recipient responses with
  | Some response => String.eqb (Reply.method (Response.message response)) "unreachable"
  | None => true
  end.

(** [this._unreachable[promise]] as a condition. *)
Definition marked (promise : option Promise) (s : Paxos) : bool :=
  coalesce (Obj.get promise (_unreachable s)) false.

(** The citizen notifies its constituents itself: it is not the leader, or
    it is the only member of the majority. *)
Definition relays (s : Paxos) : bool :=
  (negb (match Government.leader (government s) with
         | Some leader => String.eqb (id s) leader
         | None => false
         end)
   || (List.length (Government.majority (government s)) =? 1)%nat)%bool.

End Conduct.

(** *** The shape of the log *)

(** Entry [b] stands right after entry [a]: it names [a] as its previous,
    lies above it, and is a government or the next minor step. *)
Definition follows (a b : LogEntry.t) : bool :=
  (eqb_nullable (LogEntry.previous b) (Some (LogEntry.promise a))
   && (Monotonic.compare (LogEntry.promise a) (LogEntry.promise b) <? 0)%Z
   && (Monotonic.isBoundary (LogEntry.promise b) 0
       || Monotonic.eqb (LogEntry.promise b)
                        (Monotonic.increment (LogEntry.promise a) 1)))%bool.

Fixpoint linked_from (a : LogEntry.t) (rest : list LogEntry.t) : bool :=
  match rest with
  | [] => true
  | b :: rest' => (follows a b && linked_from b rest')%bool
  end.

(** A run of entries in which each follows the one before. *)
Definition run (nodes : list LogEntry.t) : bool :=
  match nodes with
  | [] => true
  | a :: rest => linked_from a rest
  end.

(** The log starts with an entry under ['0/0']; the entries after it lie
    above ['0/0'] and each follows the one before.  The first of them may
    name any previous: an immigrant starts in the middle of the history. *)
Definition linked (l : Log.t) : bool :=
  match Log.entries l with
  | [] => false
  | first :: rest =>
      (Monotonic.eqb (LogEntry.promise first) (0, 0)%N
       && match rest with
          | [] => true
          | second :: rest' =>
              ((Monotonic.compare (0, 0)%N (LogEntry.promise second) <? 0)%Z
               && linked_from second rest')%bool
          end)%bool
  end.

(** The log is linked and its trailer has not passed its head. *)
Definition intact (l : Log.t) : Prop :=
  linked l = true /\ (Log.shifted l < List.length (Log.entries l))%nat.

(** The log has only grown and its trailer has only advanced. *)
Definition extends (l l' : Log.t) : Prop :=
  (exists added, Log.entries l' = Log.entries l ++ added)
  /\ (Log.shifted l <= Log.shifted l')%nat.

(** *** The life of a citizen

    The operations that run on the code of this development alone, when
    they return: the rounds a request or a response hands to the recorder
    or the proposer are left out, and so is a bootstrap of a citizen that
    already has entries.  A call that throws is not a step: what it leaves
    behind is not described. *)

Section Reaching.

Context {strategies : Strategies} {collaborators : Collaborators}.

Inductive step : Paxos -> Paxos -> Prop :=
| step_bootstrap now properties s s' :
    head_promise s = (0, 0)%N -> bootstrap now properties s = Ok s' -> step s s'
| step_enqueue now republic' message s s' response :
    enqueue now republic' message s = Ok (s', response) -> step s s'
| step_immigrate now republic' id' cookie' properties s s' response :
    immigrate now republic' id' cookie' properties s = Ok (s', response) -> step s s'
| step_event fuel envelope s s' :
    event fuel envelope s = Some (Ok s') -> step s s'
| step_request now req s s' reply :
    Message.method (Request.message req) = "synchronize" ->
    request now req s = Ok (s', reply) -> step s s'
| step_response now message responses s s' :
    Message.method message = "synchronize" ->
    response now message responses s = Ok s' -> step s s'
| step_register now register s s' :
    _register now register s = Ok s' -> step s s'.

Inductive reachable : Paxos -> Prop :=
| reach_new now republic' id' options : reachable (Paxos_new now republic' id' options)
| reach_step s s' : reachable s -> step s s' -> reachable s'.

End Reaching.

(** *** Further scenes *)

(** The dictator after it has given up on its government at time 2: its
    writer is a proposer. *)
Definition collapsing : Paxos := _collapse 2 dictator.



(** The timer envelope of the citizen's propose event at time 2. *)
Definition propose_envelope : Timer.t := Timer.mk "happenstance" "event" 2 "0" propose.

(** The representative after the leader ['0'] has failed to answer a ping
    at time 6, and the timer envelope of its propose event at time 7. *)
Definition forsaken : Paxos :=
  after (response 6 (ping_of (4, 0)%N "0") []) representative.

Definition forsaken_envelope : Timer.t := Timer.mk "happenstance" "event" 7 "1" propose.

(** The leader of government [2/0] after it has pinged its constituent. *)
Definition pinging : Paxos := after (_send (ping_of (2, 0)%N "1")) leader2.

(** The dictator after it has been asked to admit ['1']: the inert shaper
    records the immigration and proposes no shape. *)
Definition asked : Paxos :=
  after (fun s => r <- immigrate 1 "republic" "1" 1 (Some "{}") s ;; Ok (fst r)) dictator.

(** The leader of government [2/0] after constituent ['1'] has failed to
    answer a ping at time 2, and again at time 5. *)
Definition unanswered : Paxos := after (response 2 (ping_of (2, 0)%N "1") []) leader2.

Definition unanswered_again : Paxos :=
  after (response 5 (ping_of (2, 0)%N "1") []) unanswered.

(** A government formed by a round of Paxos, which carries no map: it
    seats ['1'] beside the leader. *)
Definition recovery : Entry.t :=
  Entry.mk (3, 0)%N
           (BGovernment
              (Government.mk (3, 0)%N ["0"; "1"] [] [] [("0", "{}"); ("1", "{}")]
                             [((1, 0)%N, "0"); ((2, 0)%N, "1")]
                             [("0", (1, 0)%N); ("1", (2, 0)%N)] None None None))
           (Some (2, 0)%N).

(** The leader that has marked ['1'] unreachable enacts that government. *)
Definition recovered : Paxos := after (_commit 6 recovery (Some (2, 0)%N)) unanswered_again.

(** A ping that advertises a propagated minimum of [1/0], and the dictator
    after it has served it. *)
Definition advertising : Request.t :=
  Request.mk (ping_of (1, 0)%N "0")
             (Sync.mk (Some "republic") (Some (1, 0)%N) (Some "9")
                      (Some (Minimum.mk (1, 0) (1, 0) (1, 0))%N) (Some (1, 0)%N) []).

Definition heeding : Paxos :=
  after (fun s => r <- request 2 advertising s ;; Ok (fst r)) dictator.

(** The sync segment the citizen [served] builds for a peer at [1/0]. *)
Definition segment : Sync.t :=
  match _sync (Some "1") (Some (1, 0)%N) 24 served with
  | Ok sync => sync
  | Throw _ => Sync.mk None None None None None []
  end.

(** The dictator after that segment has come in. *)
Definition caught_up : Paxos :=
  after (fun s => r <- _synchronize 3 (Sync.commits segment) s ;; Ok (fst r)) dictator.

(** The leader of government [2/0] after a user entry has been committed
    on its head. *)
Definition leader2_next : Paxos :=
  after (_commit 2 (Entry.mk (2, 1)%N (BMessage "next") (Some (2, 0)%N)) (Some (2, 0)%N))
        leader2.

(** The housekeeping of the second failure of constituent ['1'], at time
    5. *)
Definition housekept : Paxos * Obj.t string Response.t :=
  match housekeep 5 (ping_of (2, 0)%N "1") "1" [] unanswered with
  | Ok r => r
  | Throw _ => (unanswered, [])
  end.

(** The sync segment the leader of government [2/0] builds for the
    newcomer ['1'], which is at ['0/0']. *)
Definition announcement : Sync.t :=
  match _sync (Some "1") (Some (0, 0)%N) 24 leader2 with
  | Ok sync => sync
  | Throw _ => Sync.mk None None None None None []
  end.

(** The tables of a citizen that an enactment rebuilds. *)
Definition tables {strategies : Strategies} (s : Paxos) :=
  (constituency s, citizens s, _minimums s, _committed s, _unreachable s, government s).

(** * Verification *)

(** ** Promises and objects *)

Arguments Monotonic.compare : simpl never.
Arguments Monotonic.increment : simpl never.
Arguments Monotonic.isBoundary : simpl never.
Arguments Monotonic.eqb : simpl never.
Arguments eqb_nullable : simpl never.

Lemma Monotonic_eqb_spec (a b : Promise) : reflect (a = b) (Monotonic.eqb a b).
Proof.
  destruct a as [g r], b as [g' r']; unfold Monotonic.eqb; simpl.
  destruct (N.eqb_spec g g'), (N.eqb_spec r r'); simpl; constructor; congruence.
Qed.

Lemma Monotonic_eqb_refl (a : Promise) : Monotonic.eqb a a = true.
Proof. destruct (Monotonic_eqb_spec a a); congruence. Qed.

Lemma eqb_nullable_spec (a b : option Promise) : reflect (a = b) (eqb_nullable a b).
Proof.
  destruct a as [x|], b as [y|]; unfold eqb_nullable; try (constructor; congruence).
  destruct (Monotonic_eqb_spec x y); constructor; congruence.
Qed.

Lemma Monotonic_eqb_true (a b : Promise) : Monotonic.eqb a b = true -> a = b.
Proof. destruct (Monotonic_eqb_spec a b); [auto|discriminate]. Qed.

Lemma eqb_nullable_true (a b : option Promise) : eqb_nullable a b = true -> a = b.
Proof. destruct (eqb_nullable_spec a b); [auto|discriminate]. Qed.

(** The order [Monotonic.compare] decides, as a relation. *)
Definition precedes (a b : Promise) : Prop :=
  (fst a < fst b)%N \/ (fst a = fst b /\ (snd a < snd b)%N).

Lemma compare_lt (a b : Promise) :
  (Monotonic.compare a b <? 0)%Z = true <-> precedes a b.
Proof.
  unfold Monotonic.compare, precedes.
  destruct (N.compare_spec (fst a) (fst b)) as [E|L|G];
    [destruct (N.compare_spec (snd a) (snd b)) | |]; simpl;
    split; intros; try discriminate; try lia; auto.
Qed.

Lemma compare_le (a b : Promise) :
  (Monotonic.compare a b <=? 0)%Z = true <-> precedes a b \/ a = b.
Proof.
  unfold Monotonic.compare, precedes. destruct a as [g r], b as [g' r']; simpl.
  destruct (N.compare_spec g g') as [E|L|G];
    [destruct (N.compare_spec r r') as [E'|L'|G'] | |]; simpl;
    split; intros K; try discriminate; subst; auto; try lia.
  - destruct K as [[K|[_ K]]|K]; try lia. inversion K; lia.
  - destruct K as [[K|[K _]]|K]; try lia. inversion K; lia.
Qed.

Lemma compare_antisym (a b : Promise) :
  Monotonic.compare a b = (- Monotonic.compare b a)%Z.
Proof.
  unfold Monotonic.compare. rewrite (N.compare_antisym (fst a) (fst b)).
  rewrite (N.compare_antisym (snd a) (snd b)).
  destruct (N.compare (fst a) (fst b)), (N.compare (snd a) (snd b)); reflexivity.
Qed.

Lemma precedes_irrefl (a : Promise) : ~ precedes a a.
Proof. unfold precedes; lia. Qed.

Lemma precedes_trans (a b c : Promise) : precedes a b -> precedes b c -> precedes a c.
Proof. unfold precedes; lia. Qed.

Lemma increment_minor_precedes (p : Promise) : precedes p (Monotonic.increment p 1).
Proof. unfold precedes, Monotonic.increment; simpl; lia. Qed.

Lemma increment_minor_user (p : Promise) :
  Monotonic.isBoundary (Monotonic.increment p 1) 0 = false.
Proof. unfold Monotonic.isBoundary, Monotonic.increment. simpl. apply N.eqb_neq. lia. Qed.

Lemma zero_least (p : Promise) : (Monotonic.compare p (0, 0)%N <? 0)%Z = false.
Proof.
  destruct (Monotonic.compare p (0, 0)%N <? 0)%Z eqn:E; [|reflexivity].
  apply compare_lt in E. unfold precedes in E; simpl in E. lia.
Qed.

Section Objects.

Context {V : Type}.

Lemma get_set_string (k : string) (v : V) (o : Obj.t string V) :
  Obj.get k (Obj.set k v o) = Some v.
Proof.
  induction o as [|[k' v'] o IH]; simpl.
  - rewrite String.eqb_refl. reflexivity.
  - destruct (String.eqb k k') eqn:E; simpl; rewrite E; auto.
Qed.

Lemma get_del_string (k : string) (o : Obj.t string V) : Obj.get k (Obj.del k o) = None.
Proof.
  induction o as [|[k' v'] o IH]; simpl; [reflexivity|].
  destruct (String.eqb k k') eqn:E; simpl; [|rewrite E]; auto.
Qed.

Lemma get_app_string (k : string) (o o' : Obj.t string V) :
  Obj.get k (o ++ o') = match Obj.get k o with Some v => Some v | None => Obj.get k o' end.
Proof.
  induction o as [|[k' v'] o IH]; simpl; [reflexivity|].
  destruct (String.eqb k k'); auto.
Qed.

End Objects.

Lemma scheduled (when : Z) (key : string) (event : Event) (s : Scheduler.t) :
  Obj.get key (Scheduler.schedule when key event s) = Some (when, event).
Proof.
  unfold Scheduler.schedule. rewrite get_app_string, get_del_string. simpl.
  rewrite String.eqb_refl. reflexivity.
Qed.

Section Properties.

Context {strategies : Strategies} {collaborators : Collaborators}.

(** ** Retry backoff *)

Lemma lehmer_range (seed : Z) : (0 <= lehmer seed < 2147483647)%Z.
Proof. unfold lehmer. change (2 ^ 31 - 1)%Z with 2147483647%Z. apply Z.mod_pos_bound. lia. Qed.

(** Within the range of the generator the product is an exact double. *)
Lemma lehmer_exact (seed : Z) :
  (0 <= seed < 2147483647)%Z -> (0 <= seed * 16807 < 2 ^ 53)%Z.
Proof. intros H. change (2 ^ 53)%Z with 9007199254740992%Z. lia. Qed.

Lemma _propose_retry (now : Z) (s : Paxos) :
  (0 <= _seed s)%Z -> (0 < timeout s)%Z -> is_leader s = false ->
  _propose now true s
  = with_scheduler
      (Scheduler.schedule (now + lehmer (_seed s) mod timeout s) (id s) propose (scheduler s))
      (with_seed (lehmer (_seed s)) s).
Proof.
  intros Hseed Htimeout Hleader. unfold _propose. rewrite Hleader. simpl.
  assert (E : Z.rem (_seed s * 16807) 2147483647 = lehmer (_seed s)).
  { unfold lehmer. change (2 ^ 31 - 1)%Z with 2147483647%Z.
    apply Z.rem_mod_nonneg; lia. }
  rewrite E. rewrite Z.rem_mod_nonneg; [reflexivity| |assumption].
  apply lehmer_range.
Qed.

Lemma _propose_leader (now : Z) (retry : bool) (s : Paxos) :
  is_leader s = true ->
  _propose now retry s
  = with_scheduler (Scheduler.schedule (now + 0) (id s) propose (scheduler s)) s.
Proof. intros H. unfold _propose. rewrite H, andb_false_r. reflexivity. Qed.

Lemma retry_delays_lehmer (nows : list Z) :
  forall s : Paxos,
    (0 <= _seed s)%Z -> (0 < timeout s)%Z -> is_leader s = false ->
    retry_delays nows s
    = List.map Some (lehmer_delays (List.length nows) (_seed s) (timeout s)).
Proof.
  induction nows as [|now rest IH]; intros s Hseed Htimeout Hleader; [reflexivity|].
  simpl. rewrite (_propose_retry now s Hseed Htimeout Hleader).
  f_equal.
  - unfold proposed_delay. simpl. rewrite scheduled. f_equal. apply Z.add_simpl_l.
  - rewrite IH; simpl; auto. apply lehmer_range.
Qed.

(** Claim C9.  A retry of a citizen that is not the leader replaces the
    seed by [(seed * 16807) mod (2^31 - 1)] and schedules the propose event
    that value modulo the timeout after [now]; the leader retries with no
    delay and keeps its seed; the delays of successive retries are a
    function of the first seed and the timeout alone. *)
Theorem retry_backoff (s : Paxos) (now : Z) :
  (0 <= _seed s < 2 ^ 31 - 1)%Z -> (0 < timeout s)%Z ->
  (is_leader s = false ->
     _seed (_propose now true s) = ((_seed s * 16807) mod (2 ^ 31 - 1))%Z
     /\ proposed_delay now (_propose now true s)
        = Some (((_seed s * 16807) mod (2 ^ 31 - 1)) mod timeout s)%Z
     /\ (0 <= _seed (_propose now true s) < 2 ^ 31 - 1)%Z
     /\ (_seed s * 16807 < 2 ^ 53)%Z
     /\ forall nows : list Z,
          retry_delays nows s
          = List.map Some (lehmer_delays (List.length nows) (_seed s) (timeout s)))
  /\ (is_leader s = true ->
        _seed (_propose now true s) = _seed s
        /\ proposed_delay now (_propose now true s) = Some 0%Z).
Proof.
  intros Hseed Htimeout. change (2 ^ 31 - 1)%Z with 2147483647%Z in Hseed.
  split; intros Hleader.
  - rewrite (_propose_retry now s (proj1 Hseed) Htimeout Hleader). simpl.
    fold (lehmer (_seed s)). repeat split.
    + unfold proposed_delay. simpl. rewrite scheduled. f_equal. apply Z.add_simpl_l.
    + apply lehmer_range.
    + apply lehmer_range.
    + apply lehmer_exact. assumption.
    + intros nows. apply retry_delays_lehmer; auto; lia.
  - rewrite (_propose_leader now true s Hleader). simpl. split; [reflexivity|].
    unfold proposed_delay. simpl. rewrite scheduled. f_equal. lia.
Qed.

End Properties.

(** ** The reduced minimum *)

Section Reduction.

Context {strategies : Strategies} {collaborators : Collaborators}.

Lemma least_zero_l (p : Promise) : least (0, 0)%N p = (0, 0)%N.
Proof.
  unfold least. destruct (Monotonic.compare (0, 0)%N p <? 0)%Z eqn:E; [reflexivity|].
  destruct p as [g r]. unfold Monotonic.compare in E. simpl in E.
  destruct g, r; simpl in E; try discriminate; reflexivity.
Qed.

Lemma floor_zero (s : Paxos) (constituency : list string) :
  floor s constituency (0, 0)%N = (0, 0)%N.
Proof.
  induction constituency as [|c rest IH]; simpl; [reflexivity|].
  unfold floor in *. simpl. unfold least at 2. rewrite zero_least. exact IH.
Qed.

(** The loop with its early exit computes the least of the head and the
    reported values when every constituent has reported under the current
    government. *)
Lemma reduce_reported (s : Paxos) (constituency : list string) :
  forall start : Promise,
    forallb (reported s) constituency = true ->
    reduce s constituency start = floor s constituency start.
Proof.
  induction constituency as [|c rest IH]; intros start H; simpl in *; [reflexivity|].
  apply andb_true_iff in H. destruct H as [Hc Hrest].
  unfold reported in Hc. unfold unreported, floor. simpl. unfold reduced_of at 2.
  destruct (Obj.get c (_minimums s)) as [m|]; [|discriminate].
  rewrite Hc. simpl.
  destruct (Monotonic_eqb_spec (Minimum.reduced m) (0, 0)%N) as [Z|NZ].
  - rewrite Z, least_zero_l. symmetry. apply floor_zero.
  - unfold least. destruct (Monotonic.compare (Minimum.reduced m) start <? 0)%Z;
      apply IH; assumption.
Qed.

(** A constituent without a report under the current government sends the
    loop to ['0/0']. *)
Lemma reduce_unreported (s : Paxos) (constituency : list string) :
  forall start : Promise,
    forallb (reported s) constituency = false ->
    reduce s constituency start = (0, 0)%N.
Proof.
  induction constituency as [|c rest IH]; intros start H; simpl in *; [discriminate|].
  unfold unreported. unfold reported in H at 1.
  destruct (Obj.get c (_minimums s)) as [m|]; [|reflexivity].
  destruct (Monotonic.eqb (Minimum.version m) (Government.promise (government s)));
    simpl in *; [|reflexivity].
  destruct (Monotonic.eqb (Minimum.reduced m) (0, 0)%N); [reflexivity|].
  destruct (Monotonic.compare (Minimum.reduced m) start <? 0)%Z; apply IH; assumption.
Qed.

(** Claim C7, as amended.  When a response makes the citizen recompute its
    minimum, the new [reduced] is the least of the head promise of its log
    and its constituents' reduced values when every constituent has
    reported under the current government version, and ['0/0'] otherwise;
    the leader takes that value as [propagated], any other citizen keeps
    the [propagated] it had; the version is the government's promise. *)
Theorem reduced_minimum (s : Paxos) (message : Message.t) (recipient : string)
    (minimum : Minimum.t) :
  Message.constituent message = true ->
  minimum_differs (Obj.get recipient (_minimums s)) minimum = true ->
  let s1 := recorded recipient minimum s in
  let s' := update_minimum message recipient (Some minimum) s in
  (forallb (reported s1) (constituency s) = true ->
     Minimum.reduced (_minimum s') = floor s1 (constituency s) (head_promise s))
  /\ (forallb (reported s1) (constituency s) = false ->
        Minimum.reduced (_minimum s') = (0, 0)%N)
  /\ Minimum.propagated (_minimum s')
     = (if is_leader s then Minimum.reduced (_minimum s')
        else Minimum.propagated (_minimum s))
  /\ Minimum.version (_minimum s') = Government.promise (government s).
Proof.
  intros Hconstituent Hdiffers s1 s'.
  assert (E : s' = replace_minimum
                     (Minimum.mk
                        (if is_leader s then reduce s1 (constituency s) (head_promise s)
                         else Minimum.propagated (_minimum s))
                        (Government.promise (government s))
                        (reduce s1 (constituency s) (head_promise s))) s1).
  { subst s' s1. unfold update_minimum, recorded. rewrite Hconstituent, Hdiffers.
    destruct minimum as [p v r]. simpl.
    destruct (String.eqb recipient (id s)); reflexivity. }
  rewrite E. simpl. repeat split.
  - intros H. apply reduce_reported. exact H.
  - intros H. apply reduce_unreported. exact H.
Qed.

End Reduction.

(** ** The writer's pipeline *)

Lemma bind_ok {A B : Type} (c : Result A) (k : A -> Result B) (b : B) :
  bind c k = Ok b -> exists a, c = Ok a /\ k a = Ok b.
Proof. destruct c as [a|e]; simpl; intros H; [eauto|discriminate]. Qed.

Lemma assert_ok (condition : bool) (message : string) (u : unit) :
  assert condition message = Ok u -> condition = true.
Proof. destruct condition; simpl; [reflexivity|discriminate]. Qed.

Ltac bind_inversion H :=
  let a := fresh "a" in
  let E := fresh "E" in
  apply bind_ok in H; destruct H as [a [E H]].

Lemma nudge_idle (w : Writer.t) :
  Writer._writing w = [] ->
  (Writer.proposals w = [] /\ Writer.nudge w = (w, None))
  \/ (exists p m, Writer.nudge w = (fst (Writer.nudge w), Some m)
                  /\ Writer._writing (fst (Writer.nudge w)) = [p]
                  /\ Message.messages m = [Writer.write_of p]).
Proof.
  intros H. unfold Writer.nudge. rewrite H.
  destruct (Writer.proposals w) as [|p rest]; [left; auto|].
  right. exists p. eexists. simpl. repeat split.
Qed.

Lemma nudge_busy (w : Writer.t) :
  Writer._writing w <> [] -> Writer.nudge w = (w, None).
Proof.
  intros H. unfold Writer.nudge. destruct (Writer._writing w); [congruence|reflexivity].
Qed.

Lemma written_first (w : Writer.t) (a : Proposal.t) (w' : Writer.t) (m : Message.t) :
  Writer._writing w = [a] ->
  Writer.written w = Ok (w', m) ->
  (Writer._writing w' = [a] /\ Message.messages m = [Writer.commit_of a])
  \/ (exists next, Writer._writing w' = [a; next]
                   /\ Message.messages m = [Writer.commit_of a; Writer.write_of next]
                   /\ user_proposal a /\ user_proposal next).
Proof.
  intros Hw H. unfold Writer.written in H. rewrite Hw in H.
  destruct (Writer.proposals w) as [|next rest].
  - inversion H; subst. left. auto.
  - destruct (Monotonic.isBoundary (Proposal.promise a) 0) eqn:Ea,
             (Monotonic.isBoundary (Proposal.promise next) 0) eqn:En;
      simpl in H; inversion H; subst; try (left; split; [assumption|reflexivity]).
    right. exists next. simpl. repeat split; assumption.
Qed.

Lemma flying_nudge (w : Writer.t) (inflight : option Message.t) (sent : list Message.t) :
  flying w inflight -> Forall packed sent ->
  forall w1 : Writer.t,
    Writer._writing w1 = Writer._writing w ->
    let r := Writer.nudge w1 in
    flying (fst r) (match snd r with Some m => Some m | None => inflight end)
    /\ Forall packed (match snd r with Some m => sent ++ [m] | None => sent end).
Proof.
  intros Hfly Hsent w1 Hw1 r. subst r. destruct inflight as [request|].
  - assert (Hbusy : Writer._writing w1 <> []).
    { rewrite Hw1. simpl in Hfly.
      destruct Hfly as [[a [E _]]|[[a [E _]]|[a [b [E _]]]]]; rewrite E; discriminate. }
    rewrite (nudge_busy w1 Hbusy). simpl. split; [|assumption].
    unfold flying in *. rewrite Hw1. exact Hfly.
  - simpl in Hfly. rewrite <- Hw1 in Hfly.
    destruct (nudge_idle w1 Hfly) as [[_ E]|[p [m [E [Hp Hm]]]]]; rewrite E; simpl.
    + split; assumption.
    + split.
      * left. exists p. split; assumption.
      * apply Forall_app. split; [assumption|].
        constructor; [|constructor]. left. exists p. exact Hm.
Qed.

Lemma respond_write (a : Proposal.t) (w : Writer.t) :
  Writer.respond [Writer.write_of a] w
  = (r <- Writer.written w ;; Ok (fst r, [snd r])).
Proof.
  cbn -[Writer.written Writer.committed].
  destruct (Writer.written w) as [[w1 m1]|e]; reflexivity.
Qed.

Lemma respond_commit (a : Proposal.t) (w : Writer.t) :
  Writer.respond [Writer.commit_of a] w
  = Ok (fst (Writer.committed w),
        match snd (Writer.committed w) with Some m => [m] | None => [] end).
Proof.
  cbn -[Writer.written Writer.committed].
  destruct (Writer.committed w) as [w1 [m1|]]; reflexivity.
Qed.

Lemma respond_commit_write (a b : Proposal.t) (w : Writer.t) :
  Writer.respond [Writer.commit_of a; Writer.write_of b] w
  = (r <- Writer.written (fst (Writer.committed w)) ;;
     Ok (fst r, match snd (Writer.committed w) with
                | Some m => [m; snd r]
                | None => [snd r]
                end)).
Proof.
  cbn -[Writer.written Writer.committed].
  destruct (Writer.committed w) as [w1 [m1|]]; simpl;
    destruct (Writer.written w1) as [[w2 m2]|e]; reflexivity.
Qed.

Lemma flying_response (w : Writer.t) (request : Message.t) (w' : Writer.t)
    (sends : list Message.t) :
  flying w (Some request) ->
  Writer.respond (Message.messages request) w = Ok (w', sends) ->
  flying w' (last_sent sends None) /\ Forall packed sends.
Proof.
  intros Hfly H. simpl in Hfly.
  destruct Hfly as [[a [Hw Hm]]|[[a [Hw Hm]]|[a [b [Hw [Hm [Ha Hb]]]]]]];
    rewrite Hm in H.
  - rewrite respond_write in H.
    destruct (Writer.written w) as [[w1 m1]|e] eqn:E; simpl in H; [|discriminate].
    inversion H; subst. unfold last_sent. simpl.
    destruct (written_first w a w' m1 Hw E) as [[Hw' Hm']|[next [Hw' [Hm' [Hu Hn]]]]].
    + split; [right; left; exists a; auto|].
      constructor; [|constructor]. right; left. exists a. exact Hm'.
    + split; [right; right; exists a, next; auto|].
      constructor; [|constructor]. right; right. exists a, next. auto.
  - rewrite respond_commit in H. unfold Writer.committed in H.
    set (w0 := Writer.mk (Writer.version w) (Writer.collapsed w) (Writer.proposals w)
                         (tl (Writer._writing w)) (Writer._unshifted w)) in H.
    assert (Hidle : Writer._writing w0 = []) by (subst w0; simpl; rewrite Hw; reflexivity).
    destruct (nudge_idle w0 Hidle) as [[_ E]|[p [m [E [Hp Hmp]]]]];
      rewrite E in H; simpl in H; inversion H; subst; unfold last_sent; simpl.
    + split; [assumption|constructor].
    + split; [left; exists p; auto|].
      constructor; [|constructor]. left. exists p. exact Hmp.
  - rewrite respond_commit_write in H. unfold Writer.committed in H.
    set (w0 := Writer.mk (Writer.version w) (Writer.collapsed w) (Writer.proposals w)
                         (tl (Writer._writing w)) (Writer._unshifted w)) in H.
    assert (Hone : Writer._writing w0 = [b]) by (subst w0; simpl; rewrite Hw; reflexivity).
    assert (Hbusy : Writer._writing w0 <> []) by (rewrite Hone; discriminate).
    rewrite (nudge_busy w0 Hbusy) in H. simpl in H.
    destruct (Writer.written w0) as [[w1 m1]|e] eqn:E; simpl in H; [|discriminate].
    inversion H; subst. unfold last_sent. simpl.
    destruct (written_first w0 b w' m1 Hone E) as [[Hw' Hm']|[next [Hw' [Hm' [Hu Hn]]]]].
    + split; [right; left; exists b; auto|].
      constructor; [|constructor]. right; left. exists b. exact Hm'.
    + split; [right; right; exists b, next; auto|].
      constructor; [|constructor]. right; right. exists b, next. auto.
Qed.

(** The invariant of the writer's runs. *)
Lemma writer_run_flying (w : Writer.t) (inflight : option Message.t)
    (sent : list Message.t) :
  writer_run w inflight sent -> flying w inflight /\ Forall packed sent.
Proof.
  induction 1 as [promise
                 |w inflight sent quorum promised body _ [Hfly Hsent]
                 |w inflight sent route promise quorum body _ [Hfly Hsent]
                 |w request sent w' sends _ [Hfly Hsent] Hrespond].
  - split; [reflexivity|constructor].
  - apply (flying_nudge w inflight sent Hfly Hsent). reflexivity.
  - apply (flying_nudge w inflight sent Hfly Hsent). reflexivity.
  - destruct (flying_response w request w' sends Hfly Hrespond) as [Hfly' Hsends].
    split; [assumption|]. apply Forall_app. split; assumption.
Qed.

(** A whole response is a history of its messages. *)
Lemma history_respond (messages : list Submessage.t) :
  forall (w w' : Writer.t) (sent sends : list Message.t),
    writer_history w sent -> Writer.respond messages w = Ok (w', sends) ->
    writer_history w' (sent ++ sends).
Proof.
  induction messages as [|message rest IH]; intros w w' sent sends H Hrespond.
  - injection Hrespond as <- <-. rewrite app_nil_r. exact H.
  - cbn [Writer.respond] in Hrespond.
    apply bind_ok in Hrespond. destruct Hrespond as [[w1 m1] [Hreplied Hrespond]].
    apply bind_ok in Hrespond. destruct Hrespond as [[w2 sends2] [Hrest Hrespond]].
    cbn [fst snd] in *. injection Hrespond as <- <-.
    pose proof (history_reply w sent message w1 m1 H Hreplied) as H1.
    pose proof (IH _ _ _ _ H1 Hrest) as H2.
    destruct m1 as [m|]; [rewrite <- app_assoc in H2|]; exact H2.
Qed.

Lemma writer_run_history (w : Writer.t) (inflight : option Message.t)
    (sent : list Message.t) :
  writer_run w inflight sent -> writer_history w sent.
Proof.
  induction 1 as [promise
                 |w inflight sent quorum promised body _ IH
                 |w inflight sent route promise quorum body _ IH
                 |w request sent w' sends _ IH Hrespond].
  - constructor.
  - exact (history_nudge _ _ (history_push w sent quorum promised body IH)).
  - exact (history_nudge _ _ (history_government w sent route promise quorum body IH)).
  - exact (history_respond _ _ _ _ _ IH Hrespond).
Qed.

Lemma nudge_aligned (w : Writer.t) :
  aligned w ->
  aligned (fst (Writer.nudge w))
  /\ forall m, snd (Writer.nudge w) = Some m -> packed m.
Proof.
  intros H. unfold Writer.nudge.
  destruct (Writer._writing w) as [|a rest] eqn:Hw.
  - destruct (Writer.proposals w) as [|p queue]; simpl.
    + split; [exact H|discriminate].
    + split; [right; simpl; lia|]. intros m Hm. injection Hm as <-.
      left. exists p. reflexivity.
  - simpl. split; [exact H|discriminate].
Qed.

Lemma written_aligned (w w' : Writer.t) (m : Message.t) :
  aligned w -> Writer.written w = Ok (w', m) -> aligned w' /\ packed m.
Proof.
  intros H Hwritten. unfold Writer.written in Hwritten.
  destruct (Writer._writing w) as [|first tail] eqn:Hw; [discriminate|].
  assert (Hlone : forall w0 m0, (w0, m0) = (w, Writer.round w (Proposal.quorum first)
                                               [Writer.commit_of first]) ->
                              aligned w0 /\ packed m0).
  { intros w0 m0 E. injection E as -> ->. split; [exact H|].
    right. left. exists first. reflexivity. }
  destruct (Writer.proposals w) as [|next queue].
  - injection Hwritten as <- <-. apply Hlone. reflexivity.
  - destruct (Monotonic.isBoundary (Proposal.promise first) 0) eqn:Hfirst;
      [injection Hwritten as <- <-; apply Hlone; reflexivity|].
    destruct (Monotonic.isBoundary (Proposal.promise next) 0) eqn:Hnext;
      [injection Hwritten as <- <-; apply Hlone; reflexivity|].
    cbn [negb andb Writer._writing] in Hwritten.
    assert (Htail : Forall user_proposal tail).
    { unfold aligned in H. rewrite Hw in H. destruct H as [H|H].
      - inversion H. assumption.
      - destruct tail; [constructor|simpl in H; lia]. }
    destruct tail as [|second tail']; cbn [app nth_error] in Hwritten;
      injection Hwritten as <- <-; cbn [Writer._writing].
    + split.
      * left. repeat constructor; assumption.
      * right. right. exists first, next. repeat split; assumption.
    + inversion Htail as [|x l Hsecond Htail']; subst.
      split.
      * left. constructor; [exact Hfirst|]. constructor; [exact Hsecond|].
        apply Forall_app. split; [exact Htail'|]. repeat constructor. exact Hnext.
      * right. right. exists first, second. repeat split; assumption.
Qed.

Lemma tail_aligned (w : Writer.t) :
  aligned w ->
  aligned (Writer.mk (Writer.version w) (Writer.collapsed w) (Writer.proposals w)
                     (tl (Writer._writing w)) (Writer._unshifted w)).
Proof.
  unfold aligned. cbn [Writer._writing].
  destruct (Writer._writing w) as [|a rest]; [auto|]. simpl.
  intros [H|H]; [left; inversion H; assumption|right; lia].
Qed.

Lemma replied_aligned (message : Submessage.t) (w w' : Writer.t) (m : option Message.t) :
  aligned w -> Writer.replied message w = Ok (w', m) ->
  aligned w' /\ forall m', m = Some m' -> packed m'.
Proof.
  intros H Hreplied. unfold Writer.replied in Hreplied.
  destruct (String.eqb (Submessage.method message) "write").
  - apply bind_ok in Hreplied. destruct Hreplied as [[w0 m0] [Hwritten Hreplied]].
    cbn [fst snd] in Hreplied. injection Hreplied as <- <-.
    destruct (written_aligned _ _ _ H Hwritten) as [Ha Hp].
    split; [exact Ha|]. intros m' Hm. injection Hm as <-. exact Hp.
  - destruct (String.eqb (Submessage.method message) "commit").
    + injection Hreplied as Hc. unfold Writer.committed in Hc.
      pose proof (nudge_aligned _ (tail_aligned w H)) as [Ha Hp].
      rewrite Hc in Ha, Hp. cbn [fst snd] in Ha, Hp. split; assumption.
    + injection Hreplied as <- <-. split; [exact H|discriminate].
Qed.

(** The invariant of the writer, whatever comes back. *)
Lemma writer_history_aligned (w : Writer.t) (sent : list Message.t) :
  writer_history w sent -> aligned w /\ Forall packed sent.
Proof.
  induction 1 as [promise
                 |w sent quorum promised body _ [Ha Hsent]
                 |w sent route promise quorum body _ [Ha Hsent]
                 |w sent _ [Ha Hsent]
                 |w sent message w' m _ [Ha Hsent] Hreplied].
  - split; [right; simpl; lia|constructor].
  - split; [exact Ha|exact Hsent].
  - split; [exact Ha|exact Hsent].
  - destruct (nudge_aligned w Ha) as [Ha' Hp].
    destruct (Writer.nudge w) as [w1 [m|]]; cbn [fst snd] in *.
    + split; [exact Ha'|]. apply Forall_app. split; [exact Hsent|].
      constructor; [apply Hp; reflexivity|constructor].
    + split; assumption.
  - destruct (replied_aligned _ _ _ _ Ha Hreplied) as [Ha' Hp].
    split; [exact Ha'|]. destruct m as [m|]; [|exact Hsent].
    apply Forall_app. split; [exact Hsent|].
    constructor; [apply Hp; reflexivity|constructor].
Qed.

Lemma history_answered (request : Message.t) (w : Writer.t) (sent : list Message.t) :
  writer_history w sent -> exists sent', writer_history (answered request w) sent'.
Proof.
  intros H. unfold answered.
  destruct (Writer.respond (Message.messages request) w) as [[w' sends]|e] eqn:E.
  - eexists. exact (history_respond _ _ _ _ _ H E).
  - eauto.
Qed.

(** Claim C4, as amended.  Whatever responses come back to the writer
    of a leader, answers to any request and repeated answers included: a
    request that packs a second write beside a commit does so only when
    the proposal being committed and the proposal being written both carry
    non-government promises; the write of a government promise is the only
    message of its request; and a government proposal in flight is in
    flight alone.  When each response answers the request in flight, once,
    the in-flight list holds at most two proposals. *)
Theorem writer_pipeline (w : Writer.t) (sent : list Message.t) :
  writer_history w sent ->
  (forall m a b, In m sent -> piggybacks m a b ->
     Monotonic.isBoundary (Proposal.promise a) 0 = false
     /\ Monotonic.isBoundary (Proposal.promise b) 0 = false)
  /\ (forall m sub, In m sent -> In sub (Message.messages m) ->
        government_write sub = true -> Message.messages m = [sub])
  /\ (forall p, In p (Writer._writing w) ->
        Monotonic.isBoundary (Proposal.promise p) 0 = true -> Writer._writing w = [p])
  /\ (forall inflight, writer_run w inflight sent ->
        (List.length (Writer._writing w) <= 2)%nat).
Proof.
  intros Hhistory. destruct (writer_history_aligned w sent Hhistory) as [Ha Hsent].
  rewrite Forall_forall in Hsent. split; [|split; [|split]].
  - intros m a b Hm Hpiggy.
    destruct (Hsent m Hm) as [[c Hc]|[[c Hc]|[c [d [Hc [Hu Hv]]]]]];
      unfold piggybacks in Hpiggy; rewrite Hc in Hpiggy; try discriminate.
    inversion Hpiggy. unfold user_proposal in Hu, Hv. split; congruence.
  - intros m sub Hm Hsub Hgov.
    destruct (Hsent m Hm) as [[c Hc]|[[c Hc]|[c [d [Hc [Hu Hv]]]]]];
      rewrite Hc in *; simpl in Hsub.
    + destruct Hsub as [<-|[]]. reflexivity.
    + destruct Hsub as [<-|[]]. discriminate.
    + destruct Hsub as [<-|[<-|[]]]; [discriminate|].
      unfold government_write, Writer.write_of in Hgov.
      cbn [Submessage.promise Submessage.method] in Hgov.
      unfold user_proposal in Hv. rewrite Hv, andb_false_r in Hgov. discriminate.
  - intros p Hp Hboundary. destruct Ha as [Ha|Ha].
    + rewrite Forall_forall in Ha. apply Ha in Hp. unfold user_proposal in Hp. congruence.
    + destruct (Writer._writing w) as [|a [|b rest]]; simpl in *; try lia.
      destruct Hp as [<-|[]]. reflexivity.
  - intros inflight Hrun.
    destruct (writer_run_flying w inflight sent Hrun) as [Hfly _].
    destruct inflight as [m|]; simpl in Hfly.
    + destruct Hfly as [[a [E _]]|[[a [E _]]|[a [b [E _]]]]]; rewrite E; simpl; lia.
    + rewrite Hfly. simpl. lia.
Qed.

(** ** What sending and proposing leave alone *)

Section Sending.

Context {strategies : Strategies} {collaborators : Collaborators}.

Lemma _send_each_frame (message : Message.t) (to : list string) :
  forall (s : Paxos) (r : Paxos * list Envelope.t),
    _send_each message to s = Ok r ->
    ledger (fst r) = ledger s /\ _writer (fst r) = _writer s
    /\ _shaper (fst r) = _shaper s /\ _promised (fst r) = _promised s
    /\ outbox (fst r) = outbox s.
Proof.
  induction to as [|recipient rest IH]; intros s r H; simpl in H.
  - inversion H; subst. simpl. auto.
  - bind_inversion H. bind_inversion H. inversion H; subst. simpl.
    apply IH in E0. simpl in E0. exact E0.
Qed.

Lemma _send_frame (message : Message.t) (s s' : Paxos) :
  _send message s = Ok s' ->
  ledger s' = ledger s /\ _writer s' = _writer s /\ _shaper s' = _shaper s
  /\ _promised s' = _promised s /\ sent_requests s' = sent_requests s ++ [message].
Proof.
  unfold _send. destruct (Message.to message) as [to|]; [|discriminate].
  intros H. bind_inversion H. inversion H; subst.
  destruct (_send_each_frame message to s a E) as [Hl [Hw [Hs [Hp Ho]]]].
  unfold sent_requests. simpl. rewrite Ho, map_app. auto.
Qed.

Lemma _send_optional_frame (message : option Message.t) (s s' : Paxos) :
  _send_optional message s = Ok s' ->
  ledger s' = ledger s /\ _writer s' = _writer s /\ _shaper s' = _shaper s
  /\ _promised s' = _promised s
  /\ sent_requests s' = sent_requests s
                        ++ match message with Some m => [m] | None => [] end.
Proof.
  destruct message as [m|]; simpl.
  - apply _send_frame.
  - intros H. inversion H; subst. rewrite app_nil_r. auto.
Qed.

(** Requests go out when no peer has a recorded commit to catch up from. *)
Lemma _send_each_returns (message : Message.t) (to : list string) :
  forall s : Paxos, _committed s = [] -> exists r, _send_each message to s = Ok r.
Proof.
  induction to as [|recipient rest IH]; intros s H; simpl; [eauto|].
  rewrite H. simpl.
  destruct (IH (with_scheduler (Scheduler.unschedule recipient (scheduler s)) s) H)
    as [r Hr].
  rewrite Hr. simpl. eauto.
Qed.

Lemma _send_returns (message : Message.t) (s : Paxos) :
  _committed s = [] -> Message.to message <> None -> exists s', _send message s = Ok s'.
Proof.
  intros H Hto. unfold _send. destruct (Message.to message) as [to|]; [|congruence].
  destruct (_send_each_returns message to s H) as [r Hr]. rewrite Hr. simpl. eauto.
Qed.

(** The citizen's loop over a response is the writer's own loop, with each
    request handed to [_send]. *)
Lemma Writer_response_loop_respond (messages : list Submessage.t) :
  forall (w : Writer.t) (s s' : Paxos),
    Writer_response_loop messages w s = Ok s' ->
    exists w' sends,
      Writer.respond messages w = Ok (w', sends)
      /\ (messages <> [] -> _writer s' = TwoPhase w')
      /\ sent_requests s' = sent_requests s ++ sends
      /\ ledger s' = ledger s.
Proof.
  induction messages as [|message rest IH]; intros w s s' H; simpl in H.
  - inversion H; subst. exists w, []. rewrite app_nil_r. simpl. intuition congruence.
  - bind_inversion H. unfold Writer_response_message in E.
    bind_inversion E. bind_inversion E. inversion E; subst. simpl in H.
    destruct (_send_optional_frame _ _ _ E1) as [Hl [Hw [_ [_ Ho]]]].
    destruct (IH _ _ _ H) as [w' [sends [Hr [Hw' [Ho' Hl']]]]].
    simpl. rewrite E0. simpl. rewrite Hr. simpl.
    exists w'. eexists. split; [reflexivity|]. repeat split.
    + intros _. destruct rest as [|next rest'].
      * simpl in H. inversion H; subst. simpl in Hr. inversion Hr; subst.
        rewrite Hw. reflexivity.
      * apply Hw'. discriminate.
    + rewrite Ho', Ho. simpl. rewrite <- app_assoc.
      destruct (snd a0); reflexivity.
    + rewrite Hl', Hl. reflexivity.
Qed.

End Sending.

(** ** Proposing a government *)

Section Governing.

Context {strategies : Strategies} {collaborators : Collaborators}.

Lemma ledger_writer_assign (proposals : list Proposal.t) (s : Paxos) :
  ledger (writer_assign proposals s) = ledger s.
Proof. unfold writer_assign. destruct (_writer s); reflexivity. Qed.

Lemma ledger_shaper_decided (s : Paxos) : ledger (shaper_decided s) = ledger s.
Proof. unfold shaper_decided. destruct (_shaper s); reflexivity. Qed.

Lemma writer_unshift_ledger (proposal : Proposal.t) (s s' : Paxos) :
  writer_unshift proposal s = Ok s' -> ledger s' = ledger s.
Proof.
  unfold writer_unshift, Writer_unshift.
  destruct (_writer s); intros H; inversion H; reflexivity.
Qed.

Lemma writer_nudge_ledger (s s' : Paxos) :
  writer_nudge s = Ok s' -> ledger s' = ledger s.
Proof.
  unfold writer_nudge, Writer_nudge. destruct (_writer s); intros H;
    apply _send_optional_frame in H; destruct H as [H _]; exact H.
Qed.

Lemma newGovernment_ledger (now : Z) (quorum : list string) (shape : Shape.government)
    (s s' : Paxos) :
  newGovernment now quorum shape s = Ok s' -> ledger s' = ledger s.
Proof.
  unfold newGovernment. intros H.
  destruct (writer_collapsed (shaper_decided s)).
  - bind_inversion H. bind_inversion H. bind_inversion H.
    apply writer_nudge_ledger in H. apply writer_unshift_ledger in E1.
    rewrite H, E1. simpl. apply ledger_shaper_decided.
  - destruct (remap (Shape.majority shape)
                    (Monotonic.increment (Government.promise (government (shaper_decided s))) 0)
                    (writer_proposals (shaper_decided s)) []) as [[proposals remapped] map].
    bind_inversion H. bind_inversion H. bind_inversion H.
    apply writer_nudge_ledger in H. apply writer_unshift_ledger in E1.
    rewrite H, E1.
    change (ledger (writer_assign proposals (shaper_decided s)) = ledger s).
    rewrite ledger_writer_assign. apply ledger_shaper_decided.
Qed.

Lemma _reshape_ledger (now : Z) (shape : option Shape.t) (s s' : Paxos) :
  _reshape now shape s = Ok s' -> ledger s' = ledger s.
Proof.
  destruct shape as [sh|]; simpl.
  - apply newGovernment_ledger.
  - intros H; inversion H; reflexivity.
Qed.

Lemma reshape_unreachable_ledger (now : Z) (keys : list (option Promise)) :
  forall s s' : Paxos, reshape_unreachable now keys s = Ok s' -> ledger s' = ledger s.
Proof.
  induction keys as [|key rest IH]; intros s s' H; simpl in H.
  - inversion H; reflexivity.
  - bind_inversion H. apply IH in H. rewrite H.
    destruct (_shaper s); [|inversion E; reflexivity].
    apply _reshape_ledger in E. exact E.
Qed.

Lemma reshape_naturalized_ledger (now : Z) (citizens : list string) :
  forall s s' : Paxos, reshape_naturalized now citizens s = Ok s' -> ledger s' = ledger s.
Proof.
  induction citizens as [|who rest IH]; intros s s' H; simpl in H.
  - inversion H; reflexivity.
  - bind_inversion H. apply IH in H. rewrite H.
    destruct (_shaper s); [|inversion E; reflexivity].
    apply _reshape_ledger in E. exact E.
Qed.

Lemma remap_user (route : list string) (proposals : list Proposal.t) :
  forall (remapped : Promise) (map : Obj.t Promise Promise),
    Forall user_proposal (fst (fst (remap route remapped proposals map))).
Proof.
  induction proposals as [|p rest IH]; intros remapped map; [constructor|].
  specialize (IH (Monotonic.increment remapped 1)
                 (Obj.set (Proposal.promise p) (Monotonic.increment remapped 1) map)).
  cbn [remap].
  destruct (remap route (Monotonic.increment remapped 1) rest
                  (Obj.set (Proposal.promise p) (Monotonic.increment remapped 1) map))
    as [[rest' last] map'].
  cbn [fst] in *. constructor; [|exact IH].
  unfold user_proposal. cbn [Proposal.promise]. apply increment_minor_user.
Qed.

Lemma assemble_returns (promise : Promise) (map : option (Obj.t Promise Promise))
    (shape : Shape.government) (current : Government.t) :
  match Shape.immigrate shape with
  | Some immigrate => Immigrate.properties immigrate <> None
  | None => True
  end ->
  exists body, assemble promise map shape current = Ok body
               /\ Government.promise body = promise.
Proof.
  unfold assemble. destruct (Shape.immigrate shape) as [immigrate|].
  - destruct (Immigrate.properties immigrate); [|congruence]. eauto.
  - intros _. destruct (Shape.exile shape) as [exile|]; [|eauto].
    destruct (String.eqb exile ""); eauto.
Qed.

(** A two-phase writer takes any serialisable shape while it is busy, or
    while no peer has a recorded commit to catch up from. *)
Lemma newGovernment_returns (now : Z) (quorum : list string) (shape : Shape.government)
    (s : Paxos) (w : Writer.t) :
  _writer s = TwoPhase w -> Writer.collapsed w = false ->
  Writer._writing w <> [] \/ _committed s = [] ->
  match Shape.immigrate shape with
  | Some immigrate => Immigrate.properties immigrate <> None
  | None => True
  end ->
  exists s', newGovernment now quorum shape s = Ok s'.
Proof.
  intros Hw Hcollapsed Hcommitted Hshape. unfold newGovernment.
  assert (Hw' : _writer (shaper_decided s) = TwoPhase w).
  { unfold shaper_decided. destruct (_shaper s); exact Hw. }
  unfold writer_collapsed at 1. rewrite Hw', Hcollapsed.
  unfold writer_proposals at 1. rewrite Hw'.
  pose proof (remap_user (Shape.majority shape) (Writer.proposals w)
                (Monotonic.increment (Government.promise (government (shaper_decided s))) 0)
                []) as Huser.
  destruct (remap (Shape.majority shape)
                  (Monotonic.increment (Government.promise (government (shaper_decided s))) 0)
                  (Writer.proposals w) []) as [[proposals remapped] map].
  simpl in Huser.
  destruct (assemble_returns
              (Monotonic.increment (Government.promise (government (shaper_decided s))) 0)
              (Some map) shape
              (government (with_promised (Some remapped)
                                         (writer_assign proposals (shaper_decided s))))
              Hshape) as [body [Hbody _]].
  rewrite Hbody. simpl.
  unfold writer_proposals, writer_assign. rewrite Hw'. simpl.
  assert (Hassert : match proposals with
                    | [] => true
                    | first :: _ => negb (Monotonic.isBoundary (Proposal.promise first) 0)
                    end = true).
  { destruct proposals as [|first rest]; [reflexivity|].
    inversion Huser; subst. unfold user_proposal in H1. rewrite H1. reflexivity. }
  rewrite Hassert. simpl.
  unfold writer_nudge. simpl. unfold Writer_nudge, Writer.nudge. simpl.
  destruct (Writer._writing w); simpl.
  - destruct Hcommitted as [Hbusy|Hcommitted]; [congruence|].
    apply _send_returns; simpl.
    + unfold shaper_decided. destruct (_shaper s); exact Hcommitted.
    + discriminate.
  - eauto.
Qed.

Lemma nudge_keeps (w : Writer.t) (p : Proposal.t) :
  In p (Writer._writing w ++ Writer.proposals w) ->
  In p (Writer._writing (fst (Writer.nudge w)) ++ Writer.proposals (fst (Writer.nudge w))).
Proof.
  unfold Writer.nudge. destruct (Writer._writing w) as [|a rest] eqn:E.
  - destruct (Writer.proposals w) as [|q queue]; simpl; [rewrite E; simpl|]; tauto.
  - simpl. rewrite E. auto.
Qed.

Lemma nudge_collapsed (w : Writer.t) :
  Writer.collapsed (fst (Writer.nudge w)) = Writer.collapsed w.
Proof.
  unfold Writer.nudge. destruct (Writer._writing w); [|reflexivity].
  destruct (Writer.proposals w); reflexivity.
Qed.

(** The writer after [newGovernment]: the government proposal, under the
    increment-major of the current government's promise, is in the queue or
    in flight. *)
Lemma newGovernment_writer (now : Z) (quorum : list string) (shape : Shape.government)
    (s s' : Paxos) (w : Writer.t) :
  _writer s = TwoPhase w ->
  newGovernment now quorum shape s = Ok s' ->
  exists w' body,
    _writer s' = TwoPhase w'
    /\ Writer.collapsed w' = Writer.collapsed w
    /\ Government.promise body = Monotonic.increment (Government.promise (government s)) 0
    /\ In (Proposal.mk (Some quorum)
                       (Monotonic.increment (Government.promise (government s)) 0)
                       (BGovernment body) None None)
          (Writer._writing w' ++ Writer.proposals w')
    /\ (_shaper s' = shaper_decided_slot (_shaper s)).
Proof.
  intros Hw H. unfold newGovernment in H.
  assert (Hw' : _writer (shaper_decided s) = TwoPhase w).
  { unfold shaper_decided. destruct (_shaper s); exact Hw. }
  assert (Hg : government (shaper_decided s) = government s).
  { unfold shaper_decided. destruct (_shaper s); reflexivity. }
  assert (Hsh : _shaper (shaper_decided s) = shaper_decided_slot (_shaper s)).
  { unfold shaper_decided, shaper_decided_slot. destruct (_shaper s); reflexivity. }
  assert (Hbody : forall promise map current body,
             assemble promise map shape current = Ok body ->
             Government.promise body = promise).
  { intros promise map current body. unfold assemble.
    destruct (Shape.immigrate shape) as [immigrate|].
    - destruct (Immigrate.properties immigrate); [|discriminate].
      intros E; inversion E; reflexivity.
    - destruct (Shape.exile shape) as [exile|];
        [destruct (String.eqb exile "")|]; intros E; inversion E; reflexivity. }
  rewrite Hg in H.
  set (promise := Monotonic.increment (Government.promise (government s)) 0) in *.
  assert (Hfinish : forall (P : list Proposal.t) (s0 s1 : Paxos) (body : Government.t),
             _writer s0 = TwoPhase (assign P w) ->
             _shaper s0 = shaper_decided_slot (_shaper s) ->
             Government.promise body = promise ->
             writer_unshift (Proposal.mk (Some quorum) promise (BGovernment body) None None)
                            s0 = Ok s1 ->
             writer_nudge s1 = Ok s' ->
             exists w' body,
               _writer s' = TwoPhase w' /\ Writer.collapsed w' = Writer.collapsed w
               /\ Government.promise body = promise
               /\ In (Proposal.mk (Some quorum) promise (BGovernment body) None None)
                     (Writer._writing w' ++ Writer.proposals w')
               /\ _shaper s' = shaper_decided_slot (_shaper s)).
  { intros P s0 s1 body Hs0 Hshaper Hpromise Hunshift Hnudge.
    unfold writer_unshift, Writer_unshift in Hunshift. rewrite Hs0 in Hunshift.
    inversion Hunshift; subst s1; clear Hunshift.
    unfold writer_nudge in Hnudge. simpl in Hnudge. unfold Writer_nudge in Hnudge.
    apply _send_optional_frame in Hnudge. destruct Hnudge as [_ [Hwriter [Hshaper' _]]].
    simpl in Hwriter, Hshaper'.
    eexists. exists body. split; [exact Hwriter|]. split; [|split; [exact Hpromise|split]].
    - rewrite nudge_collapsed. reflexivity.
    - apply nudge_keeps. simpl. apply in_or_app. right. left. reflexivity.
    - rewrite Hshaper'. exact Hshaper. }
  unfold writer_collapsed at 1 in H. rewrite Hw' in H.
  destruct (Writer.collapsed w) eqn:Hcollapsed.
  - apply bind_ok in H. destruct H as [body [Hassemble H]].
    apply bind_ok in H. destruct H as [u [_ H]].
    apply bind_ok in H. destruct H as [s1 [Hunshift H]].
    apply (Hfinish (Writer.proposals w)
                   (with_promised (Some promise) (shaper_decided s)) s1 body); auto.
    + simpl. rewrite Hw. destruct w; reflexivity.
    + eapply Hbody. exact Hassemble.
  - unfold writer_proposals at 1 in H. rewrite Hw' in H.
    destruct (remap (Shape.majority shape) promise (Writer.proposals w) [])
      as [[proposals remapped] map].
    apply bind_ok in H. destruct H as [body [Hassemble H]].
    apply bind_ok in H. destruct H as [u [_ H]].
    apply bind_ok in H. destruct H as [s1 [Hunshift H]].
    apply (Hfinish proposals
                   (with_promised (Some remapped)
                                  (writer_assign proposals (shaper_decided s))) s1 body);
      auto.
    + simpl. unfold writer_assign. rewrite Hw'. reflexivity.
    + simpl. unfold writer_assign. rewrite Hw'. exact Hsh.
    + eapply Hbody. exact Hassemble.
Qed.

Lemma assemble_promise (promise : Promise) (map : option (Obj.t Promise Promise))
    (shape : Shape.government) (current body : Government.t) :
  assemble promise map shape current = Ok body -> Government.promise body = promise.
Proof.
  unfold assemble. destruct (Shape.immigrate shape) as [immigrate|].
  - destruct (Immigrate.properties immigrate); [|discriminate].
    intros E; inversion E; reflexivity.
  - destruct (Shape.exile shape) as [exile|];
      [destruct (String.eqb exile "")|]; intros E; inversion E; reflexivity.
Qed.

Lemma shaper_decided_writer (s : Paxos) : _writer (shaper_decided s) = _writer s.
Proof. unfold shaper_decided. destruct (_shaper s); reflexivity. Qed.

Lemma shaper_decided_government (s : Paxos) : government (shaper_decided s) = government s.
Proof. unfold shaper_decided. destruct (_shaper s); reflexivity. Qed.

Lemma shaper_decided_committed (s : Paxos) : _committed (shaper_decided s) = _committed s.
Proof. unfold shaper_decided. destruct (_shaper s); reflexivity. Qed.

Lemma writer_unshift_promised (proposal : Proposal.t) (s s' : Paxos) :
  writer_unshift proposal s = Ok s' -> _promised s' = _promised s.
Proof.
  unfold writer_unshift, Writer_unshift.
  destruct (_writer s); intros H; inversion H; reflexivity.
Qed.

Lemma writer_nudge_promised (s s' : Paxos) :
  writer_nudge s = Ok s' -> _promised s' = _promised s.
Proof.
  unfold writer_nudge, Writer_nudge. destruct (_writer s); intros H;
    apply _send_optional_frame in H; destruct H as [_ [_ [_ [H _]]]]; exact H.
Qed.

(** A collapsed writer keeps its queue: the last promise issued is the
    promise of the government. *)
Lemma newGovernment_promised (now : Z) (quorum : list string) (shape : Shape.government)
    (s s' : Paxos) :
  writer_collapsed s = true -> newGovernment now quorum shape s = Ok s' ->
  _promised s' = Some (Monotonic.increment (Government.promise (government s)) 0).
Proof.
  intros Hcollapsed H. unfold newGovernment in H.
  assert (Hc : writer_collapsed (shaper_decided s) = true).
  { unfold writer_collapsed in *. rewrite shaper_decided_writer. exact Hcollapsed. }
  rewrite Hc, shaper_decided_government in H.
  apply bind_ok in H. destruct H as [body [_ H]].
  apply bind_ok in H. destruct H as [u [_ H]].
  apply bind_ok in H. destruct H as [s1 [Hunshift H]].
  apply writer_nudge_promised in H. apply writer_unshift_promised in Hunshift.
  rewrite H, Hunshift. reflexivity.
Qed.

(** The proposer after [newGovernment]: it has been handed the government
    proposal under the increment-major of the current government's
    promise. *)
Lemma newGovernment_proposer (now : Z) (quorum : list string) (shape : Shape.government)
    (s s' : Paxos) (p : ProposerT) :
  _writer s = Recovery p ->
  newGovernment now quorum shape s = Ok s' ->
  exists body,
    Government.promise body = Monotonic.increment (Government.promise (government s)) 0
    /\ proposes (Shape.majority shape)
                (Proposal.mk (Some quorum)
                             (Monotonic.increment (Government.promise (government s)) 0)
                             (BGovernment body) None None)
                (_writer s) (_writer s').
Proof.
  intros Hw H. unfold newGovernment in H.
  pose proof (shaper_decided_writer s) as Hw'. rewrite Hw in Hw'.
  rewrite shaper_decided_government in H.
  set (promise := Monotonic.increment (Government.promise (government s)) 0) in *.
  assert (Hfinish : forall (p0 : ProposerT) (s0 s1 : Paxos) (body : Government.t),
             _writer s0 = Recovery p0 ->
             writer_unshift (Proposal.mk (Some quorum) promise (BGovernment body) None None)
                            s0 = Ok s1 ->
             writer_nudge s1 = Ok s' ->
             exists s2,
               _writer s'
               = Recovery (fst (Proposer_nudge
                                  (Proposer_unshift
                                     (Proposal.mk (Some quorum) promise (BGovernment body)
                                                  None None) p0) s2))).
  { intros p0 s0 s1 body Hs0 Hunshift Hnudge.
    unfold writer_unshift in Hunshift. rewrite Hs0 in Hunshift.
    inversion Hunshift; subst s1; clear Hunshift.
    unfold writer_nudge in Hnudge. cbn [_writer with_writer] in Hnudge.
    apply _send_optional_frame in Hnudge. destruct Hnudge as [_ [Hwriter _]].
    eexists. exact Hwriter. }
  unfold proposes. rewrite Hw. cbn [Proposal.promise].
  unfold writer_collapsed at 1 in H. rewrite Hw' in H.
  destruct (Proposer_collapsed p) eqn:Hcollapsed.
  - apply bind_ok in H. destruct H as [body [Hassemble H]].
    apply bind_ok in H. destruct H as [u [_ H]].
    apply bind_ok in H. destruct H as [s1 [Hunshift H]].
    exists body. split; [exact (assemble_promise _ _ _ _ _ Hassemble)|].
    apply (Hfinish p (with_promised (Some promise) (shaper_decided s)) s1 body); auto.
  - unfold writer_proposals at 1 in H. rewrite Hw' in H.
    destruct (remap (Shape.majority shape) promise (Proposer_proposals p) [])
      as [[proposals remapped] map].
    apply bind_ok in H. destruct H as [body [Hassemble H]].
    apply bind_ok in H. destruct H as [u [_ H]].
    apply bind_ok in H. destruct H as [s1 [Hunshift H]].
    exists body. split; [exact (assemble_promise _ _ _ _ _ Hassemble)|].
    apply (Hfinish (Proposer_assign proposals p)
                   (with_promised (Some remapped)
                                  (writer_assign proposals (shaper_decided s))) s1 body);
      auto.
    cbn [_writer with_promised]. unfold writer_assign. rewrite Hw'. reflexivity.
Qed.

(** A collapsed proposer takes any serialisable shape when it is ready. *)
Lemma newGovernment_recovers (now : Z) (quorum : list string) (shape : Shape.government)
    (s : Paxos) (p : ProposerT) :
  _writer s = Recovery p -> ready s -> serialisable shape ->
  exists s', newGovernment now quorum shape s = Ok s'.
Proof.
  intros Hw Hready Hshape. unfold ready in Hready. rewrite Hw in Hready.
  destruct Hready as [Hcollapsed [Hfront [Hcommitted Hto]]].
  unfold newGovernment.
  pose proof (shaper_decided_writer s) as Hw'. rewrite Hw in Hw'.
  unfold writer_collapsed at 1. rewrite Hw', Hcollapsed.
  destruct (assemble_returns
              (Monotonic.increment (Government.promise (government (shaper_decided s))) 0)
              None shape
              (government
                 (with_promised
                    (Some (Monotonic.increment
                             (Government.promise (government (shaper_decided s))) 0))
                    (shaper_decided s)))
              Hshape) as [body [Hbody _]].
  rewrite Hbody. cbn [bind].
  unfold writer_proposals. cbn [_writer with_promised]. rewrite Hw'.
  assert (Hassert : match Proposer_proposals p with
                    | [] => true
                    | first :: _ => negb (Monotonic.isBoundary (Proposal.promise first) 0)
                    end = true).
  { destruct (Proposer_proposals p) as [|first rest]; [reflexivity|].
    rewrite Hfront. reflexivity. }
  rewrite Hassert. cbn [assert bind].
  unfold writer_unshift. cbn [_writer with_promised]. rewrite Hw'. cbn [bind].
  unfold writer_nudge. cbn [_writer with_writer].
  match goal with
  | |- context [Proposer_nudge (Proposer_unshift ?proposal p) ?s0] =>
      pose proof (Hto proposal s0) as Hm;
      destruct (Proposer_nudge (Proposer_unshift proposal p) s0) as [p1 [m|]]
  end; cbn [fst snd _send_optional] in *.
  - apply _send_returns.
    + cbn [_committed with_writer with_promised]. rewrite shaper_decided_committed.
      exact Hcommitted.
    + apply Hm. reflexivity.
  - eauto.
Qed.

End Governing.

(** ** Commit *)

Section Committing.

Context {strategies : Strategies} {collaborators : Collaborators}.

Lemma ledger_log (s s' : Paxos) : ledger s' = ledger s -> log s' = log s.
Proof. unfold ledger. intros H. injection H. auto. Qed.

Lemma ledger_government (s s' : Paxos) :
  ledger s' = ledger s -> government s' = government s.
Proof. unfold ledger. intros H. injection H. auto. Qed.

Lemma mutate_minimum_frame (f : Minimum.t -> Minimum.t) (s : Paxos) :
  log (mutate_minimum f s) = log s
  /\ government (mutate_minimum f s) = government s
  /\ id (mutate_minimum f s) = id s
  /\ cookie (mutate_minimum f s) = cookie s
  /\ constituency (mutate_minimum f s) = constituency s
  /\ scheduler (mutate_minimum f s) = scheduler s.
Proof.
  unfold mutate_minimum. simpl. destruct (_minimums_shared s); simpl; auto 10.
Qed.

Lemma seat_frame (promise : Promise) (g : Government.t) (s : Paxos) :
  log (seat promise g s) = log s /\ government (seat promise g s) = g
  /\ id (seat promise g s) = id s /\ cookie (seat promise g s) = cookie s.
Proof. unfold seat. destruct (Government.map g); simpl; auto. Qed.

Lemma shape_frame (now : Z) (g : Government.t) (s s' : Paxos) :
  shape now g s = Ok s' ->
  log s' = log s /\ government s' = government s /\ id s' = id s /\ cookie s' = cookie s.
Proof.
  unfold shape.
  destruct (match Government.leader g with
            | Some leader => String.eqb (id s) leader
            | None => false
            end).
  - intros H. apply bind_ok in H. destruct H as [s1 [H1 H]].
    apply reshape_naturalized_ledger in H. apply reshape_unreachable_ledger in H1.
    rewrite H1 in H. unfold ledger in H. simpl in H. injection H. auto.
  - intros H. inversion H; subst. simpl. auto.
Qed.

Lemma settle_frame (now : Z) (g : Government.t) (s : Paxos) :
  log (settle now g s) = log s /\ government (settle now g s) = government s
  /\ id (settle now g s) = id s /\ cookie (settle now g s) = cookie s.
Proof.
  unfold settle. destruct (includes (id s) (Government.majority g)); simpl; auto.
Qed.

(** An enactment installs the government of the entry, which lies above
    the government it replaces, and leaves the log as it is. *)
Lemma enact_effect (now : Z) (entry : Entry.t) (s s' : Paxos) :
  enact now entry s = Ok s' ->
  log s' = log s /\ id s' = id s /\ cookie s' = cookie s
  /\ precedes (Government.promise (government s)) (Entry.promise entry)
  /\ exists g, Entry.body entry = BGovernment g /\ government s' = g.
Proof.
  unfold enact. intros H. apply bind_ok in H. destruct H as [u [Hassert H]].
  apply assert_ok in Hassert. apply compare_lt in Hassert. simpl in Hassert.
  destruct (Entry.body entry) as [g|m]; [|discriminate].
  apply bind_ok in H. destruct H as [s1 [Hshape H]]. inversion H; subst; clear H.
  apply shape_frame in Hshape. destruct Hshape as [Hl [Hg [Hi Hc]]].
  destruct (seat_frame (Entry.promise entry) g
                       (with_scheduler (Scheduler.clear (scheduler s)) s))
    as [Hl0 [Hg0 [Hi0 Hc0]]].
  destruct (settle_frame now g s1) as [Hl1 [Hg1 [Hi1 Hc1]]].
  rewrite Hl1, Hg1, Hi1, Hc1, Hl, Hg, Hi, Hc, Hl0, Hg0, Hi0, Hc0. simpl.
  repeat split; eauto.
Qed.

Lemma redelivered_effect (entry : Entry.t) (s s' : Paxos) :
  redelivered entry s = Ok s' -> s' = s.
Proof.
  unfold redelivered.
  destruct (Monotonic.compare (Minimum.propagated (_minimum s)) (Entry.promise entry) <=? 0)%Z;
    [|intros H; inversion H; reflexivity].
  destruct (Log.lookup (Entry.promise entry) (Log.live (log s))) as [found|];
    [|discriminate].
  destruct (equal_body (LogEntry.body found) (Entry.body entry)); [|discriminate].
  intros H; inversion H; reflexivity.
Qed.

Lemma append_effect (now : Z) (entry : Entry.t) (s s' : Paxos) :
  append now entry s = Ok s' ->
  log s' = Log.push (logged entry) (log s)
  /\ government s' = government s /\ id s' = id s /\ cookie s' = cookie s
  /\ Entry.previous entry <> None.
Proof.
  unfold append. intros H. apply bind_ok in H. destruct H as [u [Hprevious H]].
  apply assert_ok in Hprevious.
  assert (Hsome : Entry.previous entry <> None).
  { destruct (Entry.previous entry); [discriminate|discriminate]. }
  inversion H; subst; clear H.
  set (s1 := match constituency s with
             | [] => mutate_minimum
                       (fun m => Minimum.mk (Minimum.propagated m) (Minimum.version m)
                                            (Entry.promise entry)) s
             | _ :: _ => s
             end).
  assert (Hs1 : log s1 = log s /\ government s1 = government s
                /\ id s1 = id s /\ cookie s1 = cookie s).
  { subst s1. destruct (constituency s); [|auto].
    destruct (mutate_minimum_frame
                (fun m => Minimum.mk (Minimum.propagated m) (Minimum.version m)
                                     (Entry.promise entry)) s)
      as [Hl [Hg [Hi [Hc _]]]]. auto. }
  destruct Hs1 as [Hl [Hg [Hi Hc]]].
  match goal with
  | |- context [if ?c then _ else _] => destruct c
  end; simpl; rewrite Hl, Hg, Hi, Hc; unfold logged; auto.
Qed.

(** What a single commit does to the log: nothing, or one push under the
    conditions its assertions impose. *)
Lemma _commit_effect (now : Z) (entry : Entry.t) (top : option Promise) (s s' : Paxos) :
  _commit now entry top s = Ok s' ->
  (s' = s
   /\ exists t, top = Some t /\ (precedes (Entry.promise entry) t \/ Entry.promise entry = t))
  \/ (log s' = Log.push (logged entry) (log s)
       /\ id s' = id s /\ cookie s' = cookie s
       /\ (exists t, top = Some t /\ precedes t (Entry.promise entry)
                      /\ (Monotonic.isBoundary (Entry.promise entry) 0 = false ->
                          Entry.promise entry = Monotonic.increment t 1))
       /\ Entry.previous entry = top
       /\ (if Monotonic.isBoundary (Entry.promise entry) 0 then
             precedes (Government.promise (government s)) (Entry.promise entry)
             /\ exists g, Entry.body entry = BGovernment g /\ government s' = g
           else government s' = government s)).
Proof.
  unfold _commit. intros H. apply bind_ok in H. destruct H as [order [Horder H]].
  destruct top as [t|]; [|discriminate]. simpl in Horder.
  inversion Horder; subst; clear Horder.
  destruct (Monotonic.compare (Entry.promise entry) t <=? 0)%Z eqn:Horder.
  - left. apply compare_le in Horder. apply redelivered_effect in H. eauto.
  - right.
    assert (Habove : precedes t (Entry.promise entry)).
    { apply compare_lt. rewrite compare_antisym.
      apply Z.leb_gt in Horder. apply Z.ltb_lt. lia. }
    apply bind_ok in H. destruct H as [u [Hprevious H]]. apply assert_ok in Hprevious.
    destruct (eqb_nullable_spec (Some t) (Entry.previous entry)) as [Hprev|];
      [|discriminate].
    apply bind_ok in H. destruct H as [next [Hnext H]].
    apply bind_ok in H. destruct H as [u' [Hassert H]]. apply assert_ok in Hassert.
    subst next.
    apply bind_ok in H. destruct H as [s1 [Henact H]].
    apply append_effect in H. destruct H as [Hlog [Hgov [Hid [Hcookie _]]]].
    destruct (Monotonic.isBoundary (Entry.promise entry) 0) eqn:Hboundary.
    + apply enact_effect in Henact.
      destruct Henact as [Hlog1 [Hid1 [Hcookie1 [Hpre [g [Hbody Hg]]]]]].
      rewrite Hlog, Hlog1, Hid, Hid1, Hcookie, Hcookie1, Hgov.
      split; [reflexivity|]. split; [reflexivity|]. split; [reflexivity|].
      split; [exists t; split; [reflexivity|split; [assumption|discriminate]]|].
      split; [auto|]. split; [assumption|]. exists g. auto.
    + inversion Henact; subst; clear Henact.
      apply bind_ok in Hnext. destruct Hnext as [p [Hp Hnext]].
      simpl in Hp. inversion Hp; subst; clear Hp.
      inversion Hnext as [Heq].
      destruct (Monotonic_eqb_spec (Monotonic.increment t 1) (Entry.promise entry))
        as [Hinc|]; [|discriminate].
      split; [assumption|]. split; [assumption|]. split; [assumption|].
      split; [exists t; split; [reflexivity|split; [assumption|auto]]|].
      split; [auto|]. assumption.
Qed.

End Committing.

(** ** Synchronisation *)

Section Synchronising.

Context {strategies : Strategies} {collaborators : Collaborators}.

Lemma head_promise_push (e : LogEntry.t) (s s' : Paxos) :
  log s' = Log.push e (log s) -> head_promise s' = LogEntry.promise e.
Proof.
  intros H. unfold head_promise, log_head. rewrite H. simpl. rewrite last_last. reflexivity.
Qed.

Lemma logged_promise (e : Entry.t) : LogEntry.promise (logged e) = Entry.promise e.
Proof. reflexivity. Qed.

Lemma append_returns (now : Z) (entry : Entry.t) (s : Paxos) :
  Entry.previous entry <> None -> exists s', append now entry s = Ok s'.
Proof.
  intros H. unfold append. destruct (Entry.previous entry); [|congruence].
  simpl. eauto.
Qed.

(** A commit that follows the head by one minor step is pushed. *)
Lemma _commit_next (now : Z) (entry : Entry.t) (top : Promise) (s : Paxos) :
  Entry.previous entry = Some top ->
  Entry.promise entry = Monotonic.increment top 1 ->
  exists s', _commit now entry (Some top) s = Ok s'
             /\ log s' = Log.push (logged entry) (log s).
Proof.
  intros Hprevious Hpromise. unfold _commit. simpl.
  assert (Horder : (Monotonic.compare (Entry.promise entry) top <=? 0)%Z = false).
  { destruct (Monotonic.compare (Entry.promise entry) top <=? 0)%Z eqn:E; [|reflexivity].
    apply compare_le in E. pose proof (increment_minor_precedes top) as P.
    rewrite <- Hpromise in P. destruct E as [E|E].
    - exfalso. exact (precedes_irrefl _ (precedes_trans _ _ _ P E)).
    - rewrite E in P. exfalso. exact (precedes_irrefl _ P). }
  rewrite Horder, Hprevious.
  destruct (eqb_nullable_spec (Some top) (Some top)) as [_|]; [|congruence]. simpl.
  assert (Huser : Monotonic.isBoundary (Entry.promise entry) 0 = false).
  { rewrite Hpromise. apply increment_minor_user. }
  rewrite Huser, <- Hpromise, Monotonic_eqb_refl. simpl.
  destruct (append_returns now entry s) as [s' Hs']; [congruence|].
  exists s'. split; [assumption|]. apply append_effect in Hs'. tauto.
Qed.


(** A batch in which each commit follows the head by one minor step is
    pushed whole. *)
Lemma _synchronize_loop_pushes (now : Z) (entries : list Entry.t) :
  forall (top : Promise) (s : Paxos),
    consecutive top entries = true ->
    exists s', _synchronize_loop now entries (Some top) s = Ok s'
               /\ Log.entries (log s') = Log.entries (log s) ++ List.map logged entries.
Proof.
  induction entries as [|entry rest IH]; intros top s H; simpl.
  - exists s. rewrite app_nil_r. auto.
  - simpl in H. apply andb_true_iff in H. destruct H as [H Hrest].
    apply andb_true_iff in H. destruct H as [Hprevious Hpromise].
    apply eqb_nullable_true in Hprevious. apply Monotonic_eqb_true in Hpromise.
    destruct (_commit_next now entry top s (eq_sym Hprevious) (eq_sym Hpromise))
      as [s1 [Hs1 Hpush]].
    rewrite Hs1. simpl. rewrite (head_promise_push _ _ _ Hpush), logged_promise.
    destruct (IH (Entry.promise entry) s1 Hrest) as [s' [Hs' Hlog]].
    exists s'. split; [assumption|]. rewrite Hlog, Hpush. simpl.
    rewrite <- app_assoc. reflexivity.
Qed.

End Synchronising.

Section Applying.

Context {strategies : Strategies} {collaborators : Collaborators}.







End Applying.

(** ** Government promises *)

Section Promising.

Context {strategies : Strategies} {collaborators : Collaborators}.

Lemma push_differs (e : LogEntry.t) (l : Log.t) : Log.push e l <> l.
Proof.
  unfold Log.push. destruct l as [entries shifted]. simpl. intros H.
  inversion H as [Hentries]. apply (f_equal (@List.length _)) in Hentries.
  rewrite length_app in Hentries. simpl in Hentries. lia.
Qed.

(** Claim C5, as amended.  For every citizen, whatever occupies its
    writer slot: when [newGovernment] returns, the government it has
    assembled carries the increment-major [(g+1)/0] of the current
    government's promise and has been handed to the writer under that
    promise, a two-phase writer holding it in flight or in its queue and a
    proposer having been handed it by [unshift]; a collapsed writer leaves
    [(g+1)/0] as the last promise issued.  [newGovernment] returns when the
    shape is serialisable and the writer is ready.  A government entry
    that [_commit] pushes has round 0, has the head it is offered on as its
    previous, and lies strictly above that head and above the promise of
    the government it replaces; its major is not required to be the
    previous major plus one. *)
Theorem government_promises (now : Z) (s : Paxos) :
  let next := next_government (Government.promise (government s)) in
  (forall quorum shape s',
      newGovernment now quorum shape s = Ok s' ->
      exists body,
        Government.promise body = next
        /\ proposes (Shape.majority shape)
                    (Proposal.mk (Some quorum) next (BGovernment body) None None)
                    (_writer s) (_writer s')
        /\ (writer_collapsed s = true -> _promised s' = Some next))
  /\ (forall quorum shape,
        ready s -> serialisable shape ->
        exists s', newGovernment now quorum shape s = Ok s')
  /\ (forall entry top s',
        _commit now entry top s = Ok s' ->
        log s' = Log.push (logged entry) (log s) ->
        Monotonic.isBoundary (Entry.promise entry) 0 = true ->
        snd (Entry.promise entry) = 0%N
        /\ Entry.previous entry = top
        /\ (exists t, top = Some t /\ precedes t (Entry.promise entry))
        /\ precedes (Government.promise (government s)) (Entry.promise entry)
        /\ Entry.body entry = BGovernment (government s')).
Proof.
  intros next. subst next. split; [|split].
  - intros quorum shape s' H.
    assert (Hpromised : writer_collapsed s = true ->
                        _promised s'
                        = Some (next_government (Government.promise (government s)))).
    { intros Hcollapsed. exact (newGovernment_promised now quorum shape s s' Hcollapsed H). }
    destruct (_writer s) as [w|p] eqn:Hw.
    + destruct (newGovernment_writer now quorum shape s s' w Hw H)
        as [w' [body [Hw' [_ [Hbody [Hin _]]]]]].
      exists body. split; [exact Hbody|]. split; [|exact Hpromised].
      exists w'. auto.
    + destruct (newGovernment_proposer now quorum shape s s' p Hw H)
        as [body [Hbody Hproposes]].
      exists body. split; [exact Hbody|]. split; [|exact Hpromised].
      rewrite Hw in Hproposes. exact Hproposes.
  - intros quorum shape Hready Hshape. destruct (_writer s) as [w|p] eqn:Hw.
    + unfold ready in Hready. rewrite Hw in Hready. destruct Hready as [Hcollapsed Hfree].
      exact (newGovernment_returns now quorum shape s w Hw Hcollapsed Hfree Hshape).
    + exact (newGovernment_recovers now quorum shape s p Hw Hready Hshape).
  - intros entry top s' H Hpushed Hboundary.
    apply _commit_effect in H.
    destruct H as [[-> _]|[_ [_ [_ [[t [Ht [Habove _]]] [Hprevious Hgov]]]]]].
    + exfalso. symmetry in Hpushed. exact (push_differs _ _ Hpushed).
    + rewrite Hboundary in Hgov. destruct Hgov as [Hpre [g [Hbody Hg]]].
      split; [|split; [assumption|split; [eauto|split; [assumption|]]]].
      * unfold Monotonic.isBoundary in Hboundary. apply N.eqb_eq. exact Hboundary.
      * rewrite Hbody, Hg. reflexivity.
Qed.

End Promising.

(** ** Bootstrap *)

Section Bootstrapping.

Context {strategies : Strategies} {collaborators : Collaborators}.

(** The shapes the shaper emits on naturalisation can be serialised. *)
Hypothesis naturalized_serialisable :
  forall who sh shape,
    snd (Shaper_naturalized who sh) = Some shape -> serialisable (Shape.body shape).





End Bootstrapping.

(** ** Requests *)

Section Requesting.

Context {strategies : Strategies} {collaborators : Collaborators}.


(** The sync segment's republic is never read: a request gives the same
    result whatever republic it names. *)
Lemma request_ignores_republic (now : Z) (req : Request.t) (republic' : option string)
    (s : Paxos) :
  request now
          (Request.mk (Request.message req)
                      (Sync.mk republic'
                               (Sync.promise (Request.sync req))
                               (Sync.from (Request.sync req))
                               (Sync.minimum (Request.sync req))
                               (Sync.committed (Request.sync req))
                               (Sync.commits (Request.sync req)))) s
  = request now req s.
Proof. reflexivity. Qed.

Lemma mutate_minimum_reduced (p : Promise) (s : Paxos) :
  Minimum.propagated
    (_minimum (mutate_minimum
                 (fun m => Minimum.mk (Minimum.propagated m) (Minimum.version m) p) s))
  = Minimum.propagated (_minimum s).
Proof. unfold mutate_minimum. simpl. destruct (_minimums_shared s); reflexivity. Qed.

Lemma ledger_minimum (s s' : Paxos) : ledger s' = ledger s -> _minimum s' = _minimum s.
Proof. unfold ledger. intros H. injection H. auto. Qed.

(** No commit changes the propagated minimum. *)
Lemma _commit_propagated (now : Z) (entry : Entry.t) (top : option Promise)
    (s s' : Paxos) :
  _commit now entry top s = Ok s' ->
  Minimum.propagated (_minimum s') = Minimum.propagated (_minimum s).
Proof.
  unfold _commit. intros H. apply bind_ok in H. destruct H as [order [_ H]].
  destruct (order <=? 0)%Z; [apply redelivered_effect in H; subst; reflexivity|].
  apply bind_ok in H. destruct H as [u [_ H]].
  apply bind_ok in H. destruct H as [next [_ H]].
  apply bind_ok in H. destruct H as [u' [_ H]].
  apply bind_ok in H. destruct H as [s1 [Henact H]].
  assert (H1 : Minimum.propagated (_minimum s1) = Minimum.propagated (_minimum s)).
  { destruct (Monotonic.isBoundary (Entry.promise entry) 0);
      [|inversion Henact; reflexivity].
    unfold enact in Henact. apply bind_ok in Henact. destruct Henact as [u2 [_ Henact]].
    destruct (Entry.body entry) as [g|m]; [|discriminate].
    apply bind_ok in Henact. destruct Henact as [s2 [Hshape Henact]].
    inversion Henact; subst; clear Henact.
    assert (H2 : _minimum s2 = _minimum s).
    { unfold shape in Hshape.
      match type of Hshape with
      | (if ?c then _ else _) = _ => destruct c
      end.
      - apply bind_ok in Hshape. destruct Hshape as [s3 [H3 Hshape]].
        apply reshape_naturalized_ledger, ledger_minimum in Hshape.
        apply reshape_unreachable_ledger, ledger_minimum in H3.
        rewrite Hshape, H3. unfold seat. destruct (Government.map g); reflexivity.
      - inversion Hshape; subst. unfold seat. destruct (Government.map g); reflexivity. }
    unfold settle. destruct (includes (id s2) (Government.majority g)); simpl;
      rewrite H2; reflexivity. }
  unfold append in H. apply bind_ok in H. destruct H as [u3 [_ H]].
  inversion H; subst; clear H.
  match goal with
  | |- context [if ?c then _ else _] => destruct c
  end; simpl; destruct (constituency s1); rewrite ?mutate_minimum_reduced; exact H1.
Qed.

Lemma _synchronize_loop_propagated (now : Z) (entries : list Entry.t) :
  forall (top : option Promise) (s s' : Paxos),
    _synchronize_loop now entries top s = Ok s' ->
    Minimum.propagated (_minimum s') = Minimum.propagated (_minimum s).
Proof.
  induction entries as [|entry rest IH]; intros top s s' H; simpl in H.
  - inversion H; reflexivity.
  - apply bind_ok in H. destruct H as [s1 [Hcommit H]].
    apply IH in H. apply _commit_propagated in Hcommit. congruence.
Qed.

Lemma _synchronize_propagated (now : Z) (entries : list Entry.t) (s s' : Paxos) (ok : bool) :
  _synchronize now entries s = Ok (s', ok) ->
  Minimum.propagated (_minimum s') = Minimum.propagated (_minimum s).
Proof.
  unfold _synchronize. destruct entries as [|first rest];
    [intros H; inversion H; reflexivity|].
  destruct (Monotonic.eqb (head_promise s) (0, 0)%N);
    [destruct (announces s first); [|intros H; inversion H; reflexivity]|];
    intros H; apply bind_ok in H; destruct H as [s1 [Hloop H]];
    inversion H; subst; apply _synchronize_loop_propagated in Hloop; exact Hloop.
Qed.

(** A synchronize request leaves [propagated] at the larger of its old
    value and the value the sender advertises: [request] never lowers it. *)
Lemma request_raises_propagated (now : Z) (req : Request.t) (s s' : Paxos)
    (reply : Response.t) (theirs : Minimum.t) :
  Message.method (Request.message req) = "synchronize" ->
  Sync.minimum (Request.sync req) = Some theirs ->
  request now req s = Ok (s', reply) ->
  Minimum.propagated (_minimum s')
  = (if (Monotonic.compare (Minimum.propagated (_minimum s)) (Minimum.propagated theirs)
         <? 0)%Z
     then Minimum.propagated theirs
     else Minimum.propagated (_minimum s)).
Proof.
  intros Hmethod Htheirs H. unfold request in H. rewrite Htheirs, Hmethod in H. simpl in H.
  set (s0 := if (Monotonic.compare (Minimum.propagated (_minimum s))
                                   (Minimum.propagated theirs) <? 0)%Z
             then mutate_minimum
                    (fun m => Minimum.mk (Minimum.propagated theirs) (Minimum.version m)
                                         (Minimum.reduced m)) s
             else s) in *.
  assert (H0 : Minimum.propagated (_minimum s0)
               = (if (Monotonic.compare (Minimum.propagated (_minimum s))
                                        (Minimum.propagated theirs) <? 0)%Z
                  then Minimum.propagated theirs
                  else Minimum.propagated (_minimum s))).
  { subst s0.
    destruct (Monotonic.compare (Minimum.propagated (_minimum s))
                                (Minimum.propagated theirs) <? 0)%Z; [|reflexivity].
    unfold mutate_minimum. simpl. destruct (_minimums_shared s); reflexivity. }
  rewrite <- H0. clear H0.
  apply bind_ok in H. destruct H as [order [_ H]].
  destruct (order <? 0)%Z.
  - apply bind_ok in H. destruct H as [sync [_ H]]. inversion H; subst. reflexivity.
  - apply bind_ok in H. destruct H as [[s1 ok] [Hsync H]]. simpl in H.
    apply _synchronize_propagated in Hsync.
    destruct ok; simpl in H.
    + apply bind_ok in H. destruct H as [s2 [Hshift H]].
      assert (H2 : _minimum s2 = _minimum s1).
      { destruct (negb (Monotonic.eqb (head_promise s1) (0, 0)%N)).
        - apply bind_ok in Hshift. destruct Hshift as [n [_ Hshift]].
          inversion Hshift; reflexivity.
        - inversion Hshift; reflexivity. }
      inversion H; subst; clear H.
      destruct (includes (id s2) (tl (Government.majority (government s2)))); simpl;
        rewrite H2; exact Hsync.
    + inversion H; subst. exact Hsync.
Qed.

End Requesting.

(** ** Enqueue *)

Section Enqueueing.

Context {strategies : Strategies} {collaborators : Collaborators}.

(** The two refusals of [enqueue]. *)
Lemma enqueue_refused (now : Z) (republic' : string) (message : JSON) (s : Paxos) :
  (writer_collapsed s = true \/ republic s <> republic' ->
   enqueue now republic' message s
   = Ok (s, mkEnqueued false (Some (republic s)) None None))
  /\ (writer_collapsed s = false -> republic s = republic' -> is_leader s = false ->
      enqueue now republic' message s
      = Ok (s, mkEnqueued false (Some (republic s))
                          (Government.leader (government s)) None)).
Proof.
  unfold enqueue, _enqueuable. split.
  - intros [H|H].
    + rewrite H. reflexivity.
    + destruct (String.eqb_spec (republic s) republic'); [congruence|].
      rewrite orb_true_r. reflexivity.
  - intros Hcollapsed Hrepublic Hleader. rewrite Hcollapsed, Hleader.
    destruct (String.eqb_spec (republic s) republic'); [reflexivity|congruence].
Qed.

(** A leader whose writer is busy returns the increment-minor of the last
    promise and queues the message under the increment-minor of that. *)
Lemma enqueue_increments_twice (now : Z) (republic' : string) (message : JSON)
    (s : Paxos) (w : Writer.t) (p : Promise) :
  _enqueuable republic' s = None ->
  _writer s = TwoPhase w -> Writer._writing w <> [] -> _promised s = Some p ->
  exists s',
    enqueue now republic' message s
    = Ok (s', mkEnqueued true None (Government.leader (government s))
                         (Some (Monotonic.increment p 1)))
    /\ _promised s' = Some (Monotonic.increment (Monotonic.increment p 1) 1)
    /\ writer_proposals s'
       = Writer.proposals w
         ++ [Proposal.mk (majority s) (Monotonic.increment (Monotonic.increment p 1) 1)
                         (BMessage message) None None].
Proof.
  intros Hfree Hw Hbusy Hp. unfold enqueue. rewrite Hfree, Hp. simpl.
  unfold writer_push. simpl. rewrite Hw. unfold Writer_push. simpl.
  unfold writer_nudge. simpl. unfold Writer_nudge.
  rewrite nudge_busy by exact Hbusy. simpl.
  eexists. split; [reflexivity|]. split; reflexivity.
Qed.

End Enqueueing.

(** ** The citizens of the scenes *)

(** Splits a conjunction of closed facts and evaluates each. *)
Ltac evaluate :=
  repeat match goal with |- _ /\ _ => split end;
  vm_compute; first [reflexivity | left; reflexivity | right; split; reflexivity].

(** Claim C2: the trailer moves only over entries strictly below the
    propagated minimum, but [propagated] is not monotone.  The leader ['0']
    holds [propagated = 2/0] once its constituent ['1'] has reported under
    government [2/0]; after it enacts government [3/0], which adds
    constituent ['2'], the next report of ['1'] makes [response] recompute
    the minimum: ['2'] has not reported, [reduced] is ['0/0'], and the
    leader's [propagated] falls from [2/0] to ['0/0']. *)
Theorem propagated_falls :
  is_leader leader3 = true
  /\ Minimum.propagated (_minimum leader2_reported) = (2, 0)%N
  /\ Minimum.propagated (_minimum leader3) = (2, 0)%N
  /\ response 4 (ping_of (3, 0)%N "1")
              [("1", pong "1" (3, 0)%N (Minimum.mk (2, 0) (3, 0) (3, 0))%N)] leader3
     = Ok leader3_reported
  /\ Minimum.propagated (_minimum leader3_reported) = (0, 0)%N
  /\ precedes (Minimum.propagated (_minimum leader3_reported))
              (Minimum.propagated (_minimum leader3)).
Proof. evaluate. Qed.

(** Claim C3: a rejection does not collapse the leader.  [Paxos.response]
    hands the writer no promise, so the writer of the leader treats the
    rejected write as written and sends its commit: the writer slot still
    holds the two-phase writer and no propose event is scheduled.  Called
    with a promise, the writer's [response] throws, the citizen having no
    [collapse] method. *)
Theorem rejection_commits :
  option_map (fun r => Reply.method (Response.message r)) (Obj.get "0" rejection)
  = Some "reject"
  /\ version_matches (Message.version write_in_flight) admitting = true
  /\ response 2 write_in_flight rejection admitting = Ok rejected
  /\ _writer rejected = TwoPhase admitting_writer
  /\ scheduler rejected = []
  /\ List.map (fun m => List.map Submessage.method (Message.messages m))
              (sent_requests rejected)
     = [["write"]; ["commit"]]
  /\ Writer_response 2 write_in_flight rejection (Some (9, 0)%N) admitting_writer admitting
     = Throw (TypeError "this._paxos.collapse is not a function").
Proof. evaluate. Qed.

(** Claim C6: the promise [enqueue] returns is not the promise of the
    proposal it queues.  At a leader whose last issued promise is [2/0] it
    returns [2/1], the increment-minor, while [Writer.push] increments
    again and queues the message under [2/2]; at an idle leader the nudge
    that follows sends to the quorum [this._paxos.majority], which is
    undefined, and [enqueue] throws. *)
Theorem enqueue_promise_differs :
  _promised admitting = Some (2, 0)%N
  /\ enqueue 2 "republic" "hello" admitting
     = Ok (queued, mkEnqueued true None (Some "0") (Some (2, 1)%N))
  /\ List.map (fun p => (Proposal.promise p, Proposal.body p))
              (writer_proposals queued)
     = [((2, 2)%N, BMessage "hello")]
  /\ _promised queued = Some (2, 2)%N
  /\ enqueue 2 "republic" "hello" dictator = Throw (TypeError "message.to is undefined").
Proof. evaluate. Qed.

(** Claim C8: a request from another republic is served.  The dictator of
    ['republic'] receives a synchronize whose sync segment names the
    republic ['elsewhere'] and carries one commit: it appends the commit
    and answers ['respond']. *)
Theorem foreign_request_served :
  republic dictator = "republic"
  /\ Sync.republic (Request.sync foreign_request) = Some "elsewhere"
  /\ head_promise dictator = (1, 0)%N
  /\ option_map (fun r => (fst r, Reply.method (Response.message (snd r))))
                (match request 2 foreign_request dictator with
                 | Ok r => Some r
                 | Throw _ => None
                 end)
     = Some (served, "respond")
  /\ Log.entries (log served)
     = Log.entries (log dictator)
       ++ [LogEntry.mk "entry" (1, 1)%N (BMessage "foreign") (Some (1, 0)%N)].
Proof. evaluate. Qed.

(** *** Instances of the theorems and the inputs that refute the claims as
    first stated *)



(** Claim C5, as first stated, fails: on top of the head [1/0] the dictator
    accepts a government entry under [3/0], which is not [(1+1)/0]. *)
Lemma government_leaps :
  _commit 2 leaping (Some (1, 0)%N) dictator = Ok leapt
  /\ log leapt = Log.push (logged leaping) (log dictator)
  /\ government leapt
     = match Entry.body leaping with BGovernment g => g | BMessage _ => Government.null end
  /\ Entry.previous leaping = Some (1, 0)%N
  /\ Entry.promise leaping <> next_government (1, 0)%N.
Proof.
  split; [vm_compute; reflexivity|]. split; [vm_compute; reflexivity|].
  split; [vm_compute; reflexivity|]. split; [vm_compute; reflexivity|].
  vm_compute. discriminate.
Qed.

Lemma government_promises_witness :
  exists s',
    newGovernment 3 ["0"] (Shape.mkGovernment ["0"] [] None None) collapsing = Ok s'
    /\ _promised s' = Some (2, 0)%N.
Proof.
  destruct (government_promises 3 collapsing) as [Hproposes [Hreturns _]].
  destruct (Hreturns ["0"] (Shape.mkGovernment ["0"] [] None None)) as [s' Hs'].
  - split; [reflexivity|]. split; [exact I|]. split; [reflexivity|].
    intros proposal s0 m Hm. discriminate Hm.
  - exact I.
  - exists s'. split; [exact Hs'|].
    destruct (Hproposes _ _ _ Hs') as [body [_ [_ Hpromised]]].
    apply Hpromised. reflexivity.
Defined.

(** Claim C7, as first stated, fails: the only constituent of citizen ['1']
    has reported [reduced = 4/1] under the current government [4/0], and
    the recomputed [reduced] is the head promise [4/0] of the citizen's own
    log, not the minimum [4/1] of its constituents' values. *)
Lemma reduced_capped_by_head :
  response 6 (ping_of (4, 0)%N "2")
           [("2", pong "2" (4, 1)%N (Minimum.mk (0, 0) (4, 0) (4, 1))%N)] representative
  = Ok representative_reported
  /\ constituency representative_reported = ["2"]
  /\ forallb (reported representative_reported) (constituency representative_reported)
     = true
  /\ least_reported representative_reported = Some (4, 1)%N
  /\ Minimum.reduced (_minimum representative_reported) = (4, 0)%N
  /\ Some (Minimum.reduced (_minimum representative_reported))
     <> least_reported representative_reported.
Proof.
  split; [vm_compute; reflexivity|]. split; [vm_compute; reflexivity|].
  split; [vm_compute; reflexivity|]. split; [vm_compute; reflexivity|].
  split; [vm_compute; reflexivity|]. vm_compute. discriminate.
Qed.

Lemma reduced_minimum_witness :
  Minimum.reduced
    (_minimum (update_minimum (ping_of (4, 0)%N "2") "2"
                              (Some (Minimum.mk (0, 0) (4, 0) (4, 1))%N) representative))
  = floor (recorded "2" (Minimum.mk (0, 0) (4, 0) (4, 1))%N representative)
          (constituency representative) (head_promise representative).
Proof.
  destruct (reduced_minimum representative (ping_of (4, 0)%N "2") "2"
                            (Minimum.mk (0, 0) (4, 0) (4, 1))%N)
    as [H _]; [vm_compute; reflexivity|vm_compute; reflexivity|].
  apply H. vm_compute. reflexivity.
Defined.

Lemma retry_backoff_witness :
  _seed (_propose 10 true newcomer) = ((_seed newcomer * 16807) mod (2 ^ 31 - 1))%Z
  /\ proposed_delay 10 (_propose 10 true newcomer)
     = Some (((_seed newcomer * 16807) mod (2 ^ 31 - 1)) mod timeout newcomer)%Z.
Proof.
  destruct (retry_backoff newcomer 10) as [H _]; [simpl; lia|simpl; lia|].
  destruct H as [H1 [H2 _]]; [vm_compute; reflexivity|].
  split; assumption.
Defined.


(** Claim C4, as first stated, fails: the round that writes [1/1] is
    answered, and the answer is delivered a second time; each delivery
    moves a waiting proposal into the in-flight list, which then holds
    three. *)
Lemma replayed_write_overfills :
  writer_history crowded [first_write]
  /\ (exists sent, writer_history overfilled sent)
  /\ List.map Proposal.promise (Writer._writing overfilled) = [(1, 1); (1, 2); (1, 3)]%N
  /\ ~ (List.length (Writer._writing overfilled) <= 2)%nat.
Proof.
  assert (H1 : writer_history (pushed (BMessage "a") (1, 0)%N (Writer.create (1, 0)%N))
                              [first_write])
    by exact (history_nudge _ _ (history_push _ [] (Some ["0"]) (1, 0)%N (BMessage "a")
                                              (history_create (1, 0)%N))).
  assert (H2 : writer_history
                 (pushed (BMessage "b") (1, 1)%N
                         (pushed (BMessage "a") (1, 0)%N (Writer.create (1, 0)%N)))
                 [first_write])
    by exact (history_nudge _ _ (history_push _ _ (Some ["0"]) (1, 1)%N (BMessage "b") H1)).
  assert (H3 : writer_history crowded [first_write])
    by exact (history_nudge _ _ (history_push _ _ (Some ["0"]) (1, 2)%N (BMessage "c") H2)).
  split; [exact H3|]. split.
  - destruct (history_answered first_write _ _ H3) as [sent4 H4].
    destruct (history_answered first_write _ _ H4) as [sent5 H5].
    exists sent5. exact H5.
  - split; [vm_compute; reflexivity|]. vm_compute. lia.
Qed.

Lemma writer_pipeline_witness : (List.length (Writer._writing piped) <= 2)%nat.
Proof.
  assert (R1 : writer_run (pushed (BMessage "a") (1, 0)%N (Writer.create (1, 0)%N))
                          (Some first_write) [first_write])
    by exact (run_push _ None [] (Some ["0"]) (1, 0)%N (BMessage "a")
                       (run_create (1, 0)%N)).
  assert (R2 : writer_run
                 (pushed (BMessage "b") (1, 1)%N
                         (pushed (BMessage "a") (1, 0)%N (Writer.create (1, 0)%N)))
                 (Some first_write) [first_write])
    by exact (run_push _ _ _ (Some ["0"]) (1, 1)%N (BMessage "b") R1).
  assert (R3 : writer_run piped (Some second_round) [first_write; second_round]).
  { apply (run_response _ first_write [first_write] piped [second_round] R2).
    vm_compute. reflexivity. }
  destruct (writer_pipeline piped _ (writer_run_history _ _ _ R3)) as [_ [_ [_ H]]].
  exact (H _ R3).
Defined.

(** * Further properties of the code *)

(** ** Dispatch of typed messages *)

Section Dispatching.

Variables Heap Payload Response : Type.
Variable toUpperCase : string -> string.

Let Message := Utility.Message Payload.
Let Participant := Utility.Participant Heap Payload Response.

(** X1 ([exports.dispatch]): dispatching two batches one after the other
    is dispatching their concatenation: the second batch runs on the heap
    the first one leaves, its responses follow those of the first, and an
    exception in the first batch is the exception of the whole. *)
Theorem dispatch_app (first second : list Message) (participants : list Participant)
    (heap : Heap) :
  Utility.dispatch toUpperCase (first ++ second) participants heap
  = (r <- Utility.dispatch toUpperCase first participants heap ;;
     r' <- Utility.dispatch toUpperCase second participants (fst r) ;;
     Ok (fst r', snd r ++ snd r')).
Proof.
  revert heap. induction first as [|message rest IH]; intros heap; simpl.
  - destruct (Utility.dispatch toUpperCase second participants heap) as [[h l]|e];
      reflexivity.
  - destruct (Utility.method_name toUpperCase "receive" (Utility.type message))
      as [method|e]; [|reflexivity].
    simpl. destruct (Utility.receive method message participants heap) as [[h l]|e];
      [|reflexivity].
    simpl. rewrite IH.
    destruct (Utility.dispatch toUpperCase rest participants h) as [[h1 l1]|e];
      [|reflexivity].
    simpl. destruct (Utility.dispatch toUpperCase second participants h1) as [[h2 l2]|e];
      [|reflexivity].
    simpl. rewrite app_assoc. reflexivity.
Qed.

Lemma digest_unclaimed (method : string) (message : Message)
    (participants : list Participant) :
  forall (heap heap' : Heap) (filtered : list Message),
    Utility.digest method message participants heap = Ok (heap', filtered) ->
    filtered
    = List.map (fun _ => message)
               (filter (fun participant => negb (Utility.handles method participant))
                       participants).
Proof.
  induction participants as [|participant rest IH]; intros heap heap' filtered H;
    simpl in H.
  - inversion H. reflexivity.
  - simpl. unfold Utility.handles at 1. destruct (participant method) as [call|].
    + bind_inversion H. simpl. eapply IH. exact H.
    + bind_inversion H. inversion H; subst. simpl. f_equal. destruct a.
      eapply IH. exact E.
Qed.

(** X2 ([exports.consume]): when [consume] returns, the list it returns
    holds, for each message in order, one copy of the message for every
    participant that has no method for its type: a message nobody handles
    comes back once per participant, and with no participant at all
    nothing comes back. *)
Theorem consume_unclaimed (messages : list Message) (participants : list Participant)
    (heap heap' : Heap) (filtered : list Message) :
  Utility.consume toUpperCase messages participants heap = Ok (heap', filtered) ->
  filtered = flat_map (Utility.unclaimed toUpperCase participants) messages.
Proof.
  revert heap heap' filtered.
  induction messages as [|message rest IH]; intros heap heap' filtered H; simpl in H.
  - inversion H. reflexivity.
  - bind_inversion H. bind_inversion H. bind_inversion H. inversion H; subst.
    simpl. unfold Utility.unclaimed at 1. rewrite E. destruct a0, a1. simpl.
    f_equal.
    + eapply digest_unclaimed. exact E0.
    + eapply IH. exact E1.
Qed.

Lemma method_name_untyped (prefix : string) (message : Message) :
  Utility.typed message = false ->
  exists e, Utility.method_name toUpperCase prefix (Utility.type message)
            = Throw (TypeError e).
Proof.
  unfold Utility.typed. destruct (Utility.type message) as [[|first tail]|]; simpl;
    intros H; try discriminate; eauto.
Qed.

(** X3 ([exports.dispatch], [exports.consume]): a message whose type is
    missing or empty makes both functions throw a [TypeError] as soon as
    the messages before it have been handled, whoever participates: the
    method name is computed before any participant is looked at. *)
Theorem untyped_message_throws (first : list Message) (message : Message)
    (rest : list Message) (participants : list Participant) (heap : Heap) :
  Utility.typed message = false ->
  (forall r, Utility.dispatch toUpperCase first participants heap = Ok r ->
             exists e,
               Utility.dispatch toUpperCase (first ++ message :: rest) participants heap
               = Throw (TypeError e))
  /\ (forall r, Utility.consume toUpperCase first participants heap = Ok r ->
                exists e,
                  Utility.consume toUpperCase (first ++ message :: rest) participants heap
                  = Throw (TypeError e)).
Proof.
  intros Huntyped. split.
  - revert heap. induction first as [|m ms IH]; intros heap r H; simpl in *.
    + destruct (method_name_untyped "receive" message Huntyped) as [e He].
      rewrite He. simpl. eauto.
    + bind_inversion H. bind_inversion H. bind_inversion H. rewrite E. simpl.
      rewrite E0. simpl. destruct (IH _ _ E1) as [e He]. rewrite He. simpl. eauto.
  - revert heap. induction first as [|m ms IH]; intros heap r H; simpl in *.
    + destruct (method_name_untyped "consume" message Huntyped) as [e He].
      rewrite He. simpl. eauto.
    + bind_inversion H. bind_inversion H. bind_inversion H. rewrite E. simpl.
      rewrite E0. simpl. destruct (IH _ _ E1) as [e He]. rewrite He. simpl. eauto.
Qed.

(** X4 ([exports.dispatch], [exports.consume]): with no participant, both
    functions return the empty list and leave the heap alone when every
    message has a type with a first character, and throw a [TypeError]
    otherwise; [consume] hands no message back, handled or not. *)
Theorem nobody_listens (messages : list Message) (heap : Heap) :
  if forallb Utility.typed messages then
    Utility.dispatch (Response := Response) toUpperCase messages [] heap = Ok (heap, [])
    /\ Utility.consume (Response := Response) toUpperCase messages [] heap
       = Ok (heap, [])
  else
    (exists e, Utility.dispatch (Heap := Heap) (Response := Response)
                                toUpperCase messages [] heap
               = Throw (TypeError e))
    /\ (exists e, Utility.consume (Heap := Heap) (Response := Response)
                                  toUpperCase messages [] heap
                  = Throw (TypeError e)).
Proof.
  destruct (forallb Utility.typed messages) eqn:H.
  - revert heap. induction messages as [|message rest IH]; intros heap;
      [split; reflexivity|].
    simpl in H. apply andb_true_iff in H. destruct H as [Hm Hrest].
    simpl. unfold Utility.typed in Hm.
    destruct (Utility.type message) as [[|first tail]|]; try discriminate.
    simpl. destruct (IH Hrest heap) as [Hd Hc]. rewrite Hd, Hc. split; reflexivity.
  - revert heap. induction messages as [|message rest IH]; intros heap; [discriminate|].
    simpl in H. apply andb_false_iff in H. simpl.
    destruct (Utility.typed message) eqn:Hm.
    + destruct H as [H|H]; [discriminate|].
      unfold Utility.typed in Hm.
      destruct (Utility.type message) as [[|first tail]|]; try discriminate.
      simpl. destruct (IH H heap) as [[e He] [e' He']]. rewrite He, He'. simpl. eauto.
    + destruct (method_name_untyped "receive" message Hm) as [e He].
      destruct (method_name_untyped "consume" message Hm) as [e' He'].
      rewrite He, He'. simpl. eauto.
Qed.

End Dispatching.

Lemma consume_unclaimed_witness :
  [ping_message "a"; ping_message "b"]
  = flat_map (Utility.unclaimed upper [listener; bystander])
             [ping_message "a"; ping_message "b"].
Proof.
  apply (consume_unclaimed (list string) string string upper
           [ping_message "a"; ping_message "b"] [listener; bystander]
           [] ["a"; "b"]).
  vm_compute. reflexivity.
Defined.

Lemma untyped_message_throws_witness :
  exists e,
    Utility.dispatch upper ([ping_message "a"] ++ blank :: [ping_message "b"])
                     [listener; bystander] []
    = Throw (TypeError e).
Proof.
  destruct (untyped_message_throws (list string) string string upper
              [ping_message "a"] blank [ping_message "b"] [listener; bystander] [])
    as [H _]; [vm_compute; reflexivity|].
  apply (H (["a"], ["pong"])). vm_compute. reflexivity.
Defined.

(** ** The queue of the writer *)

Lemma queue_nudge (w : Writer.t) : queue (fst (Writer.nudge w)) = queue w.
Proof.
  unfold Writer.nudge, queue. destruct (Writer._writing w) as [|a rest] eqn:E.
  - destruct (Writer.proposals w) as [|p ps] eqn:E'; simpl; rewrite ?E, ?E'; reflexivity.
  - simpl. rewrite E. reflexivity.
Qed.

Lemma queue_written (w w' : Writer.t) (m : Message.t) :
  Writer.written w = Ok (w', m) -> queue w' = queue w.
Proof.
  unfold Writer.written, queue.
  destruct (Writer._writing w) as [|a rest] eqn:E; [discriminate|].
  destruct (Writer.proposals w) as [|p ps] eqn:E'.
  - intros H; inversion H; subst. rewrite E, E'. reflexivity.
  - destruct (negb (Monotonic.isBoundary (Proposal.promise a) 0)
              && negb (Monotonic.isBoundary (Proposal.promise p) 0))%bool.
    + cbn [Writer._writing Writer.proposals].
      destruct (nth_error ((a :: rest) ++ [p]) 1); [|discriminate].
      intros H; inversion H; subst. simpl. rewrite <- app_assoc. reflexivity.
    + intros H; inversion H; subst. rewrite E, E'. reflexivity.
Qed.

Lemma queue_committed (w : Writer.t) :
  queue (fst (Writer.committed w))
  = match Writer._writing w with [] => queue w | _ :: _ => tl (queue w) end.
Proof.
  unfold Writer.committed. rewrite queue_nudge. unfold queue. simpl.
  destruct (Writer._writing w); reflexivity.
Qed.

Lemma skipn_tl {A : Type} (n : nat) (l : list A) : skipn n (tl l) = skipn (S n) l.
Proof. destruct l; [destruct n; reflexivity|reflexivity]. Qed.

(** X5 ([Writer.prototype.nudge], [Writer.prototype.response]): the writer
    never drops, repeats or reorders a proposal.  A nudge and the answer to
    a write leave the queue (in flight, then waiting) as it is; the answer
    to a commit removes the oldest proposal in flight and nothing else; so
    after the answer to any request the queue is what remains of the
    former queue once at most one proposal per commit has left its
    front. *)
Theorem writer_queue_fifo (w : Writer.t) :
  queue (fst (Writer.nudge w)) = queue w
  /\ (forall w' m, Writer.written w = Ok (w', m) -> queue w' = queue w)
  /\ queue (fst (Writer.committed w))
     = match Writer._writing w with [] => queue w | _ :: _ => tl (queue w) end
  /\ (forall messages w' sends,
        Writer.respond messages w = Ok (w', sends) ->
        exists n, (n <= commit_count messages)%nat /\ queue w' = skipn n (queue w)).
Proof.
  split; [apply queue_nudge|]. split; [apply queue_written|].
  split; [apply queue_committed|].
  intros messages. revert w.
  induction messages as [|message rest IH]; intros w w' sends H; simpl in H.
  - inversion H; subst. exists O. auto.
  - bind_inversion H. bind_inversion H. destruct a0 as [w2 sends2].
    inversion H; subst; clear H.
    destruct (IH _ _ _ E0) as [n [Hn Hq]]. unfold Writer.replied in E.
    unfold commit_count in *. simpl.
    destruct (String.eqb (Submessage.method message) "write") eqn:Hw.
    + apply bind_ok in E. destruct E as [[w1 m1] [E1 E]]. inversion E; subst; clear E.
      apply queue_written in E1. simpl in Hq. rewrite E1 in Hq.
      assert (Hc : String.eqb (Submessage.method message) "commit" = false).
      { apply String.eqb_eq in Hw. rewrite Hw. reflexivity. }
      rewrite Hc. exists n. auto.
    + destruct (String.eqb (Submessage.method message) "commit") eqn:Hc.
      * inversion E; subst; clear E. rewrite queue_committed in Hq.
        destruct (Writer._writing w) eqn:Ew.
        -- exists n. simpl. split; [lia|exact Hq].
        -- exists (S n). simpl. split; [lia|]. rewrite Hq. apply skipn_tl.
      * inversion E; subst; clear E. exists n. auto.
Qed.

(** ** Re-mapping the queue into a new government *)

Lemma promises_after_S (start : Promise) (n : nat) :
  promises_after start (S n)
  = Monotonic.increment start 1 :: promises_after (Monotonic.increment start 1) n.
Proof.
  unfold promises_after. cbn [seq List.map]. rewrite <- seq_shift, map_map.
  change (Monotonic.increment start 1) with (fst start, (snd start + 1)%N).
  cbn [fst snd]. apply f_equal2; [reflexivity|].
  apply map_ext. intros k. f_equal. lia.
Qed.

Lemma remap_renumbers (route : list string) (proposals : list Proposal.t) :
  forall (start : Promise) (map : Obj.t Promise Promise),
    let r := remap route start proposals map in
    List.map Proposal.promise (fst (fst r)) = promises_after start (List.length proposals)
    /\ snd (fst r) = (fst start, snd start + N.of_nat (List.length proposals))%N
    /\ List.map Proposal.body (fst (fst r)) = List.map Proposal.body proposals.
Proof.
  induction proposals as [|p rest IH]; intros start map.
  - simpl. repeat split. destruct start as [g r]. simpl. f_equal. lia.
  - specialize (IH (Monotonic.increment start 1)
                   (Obj.set (Proposal.promise p) (Monotonic.increment start 1) map)).
    cbn [remap].
    destruct (remap route (Monotonic.increment start 1) rest
                    (Obj.set (Proposal.promise p) (Monotonic.increment start 1) map))
      as [[rest' last] map'].
    cbn [fst snd] in *. destruct IH as [H1 [H2 H3]].
    cbn [List.map List.length Proposal.promise Proposal.body].
    rewrite promises_after_S, H1, H3. repeat split. rewrite H2.
    unfold Monotonic.increment. cbn [fst snd]. f_equal. lia.
Qed.

Section Keyed.

Context {K V : Type} `{Key K}.

Hypothesis key_eqb_spec : forall a b : K, reflect (a = b) (key_eqb a b).

Lemma get_set (k : K) (v : V) (o : Obj.t K V) : Obj.get k (Obj.set k v o) = Some v.
Proof.
  induction o as [|[k' v'] o IH]; simpl.
  - destruct (key_eqb_spec k k); congruence.
  - destruct (key_eqb_spec k k') as [E|N]; simpl.
    + destruct (key_eqb_spec k k'); congruence.
    + destruct (key_eqb_spec k k'); congruence.
Qed.

Lemma get_set_other (k k' : K) (v : V) (o : Obj.t K V) :
  k <> k' -> Obj.get k (Obj.set k' v o) = Obj.get k o.
Proof.
  intros N. induction o as [|[k'' v''] o IH]; simpl.
  - destruct (key_eqb_spec k k'); congruence.
  - destruct (key_eqb_spec k' k'') as [E|N']; simpl.
    + subst. destruct (key_eqb_spec k k''); congruence.
    + destruct (key_eqb_spec k k''); congruence.
Qed.

Lemma get_del (k : K) (o : Obj.t K V) : Obj.get k (Obj.del k o) = None.
Proof.
  induction o as [|[k' v'] o IH]; simpl; [reflexivity|].
  destruct (key_eqb_spec k k') as [E|N]; simpl; [assumption|].
  destruct (key_eqb_spec k k'); congruence.
Qed.

Lemma get_del_other (k k' : K) (o : Obj.t K V) :
  k <> k' -> Obj.get k (Obj.del k' o) = Obj.get k o.
Proof.
  intros N. induction o as [|[k'' v''] o IH]; simpl; [reflexivity|].
  destruct (key_eqb_spec k' k'') as [E|N']; simpl.
  - subst. destruct (key_eqb_spec k k''); congruence.
  - destruct (key_eqb_spec k k''); congruence.
Qed.

End Keyed.

Lemma remap_map_other (route : list string) (proposals : list Proposal.t) :
  forall (start : Promise) (map : Obj.t Promise Promise) (k : Promise),
    ~ In k (List.map Proposal.promise proposals) ->
    Obj.get k (snd (remap route start proposals map)) = Obj.get k map.
Proof.
  induction proposals as [|p rest IH]; intros start map k Hk; [reflexivity|].
  cbn [remap].
  specialize (IH (Monotonic.increment start 1)
                 (Obj.set (Proposal.promise p) (Monotonic.increment start 1) map) k).
  destruct (remap route (Monotonic.increment start 1) rest
                  (Obj.set (Proposal.promise p) (Monotonic.increment start 1) map))
    as [[rest' last] map'].
  cbn [snd] in *. simpl in Hk. rewrite IH; [|tauto].
  apply (get_set_other (H := Key_promise) Monotonic_eqb_spec).
  intros E. apply Hk. left. congruence.
Qed.

(** X6 ([Paxos.prototype.newGovernment], the re-mapping of the queue):
    when the proposals waiting carry distinct promises, the map built for
    the new government sends the old promise of each to the promise it is
    given, the minor promise of its place in the queue counted from the
    government's, and the proposal keeps its body. *)
Theorem remap_records (route : list string) (proposals : list Proposal.t)
    (start : Promise) (map : Obj.t Promise Promise) (i : nat) (p : Proposal.t) :
  NoDup (List.map Proposal.promise proposals) ->
  nth_error proposals i = Some p ->
  let r := remap route start proposals map in
  let renumbered := (fst start, snd start + N.of_nat (S i))%N in
  Obj.get (Proposal.promise p) (snd r) = Some renumbered
  /\ option_map Proposal.promise (nth_error (fst (fst r)) i) = Some renumbered
  /\ option_map Proposal.body (nth_error (fst (fst r)) i) = Some (Proposal.body p).
Proof.
  revert start map i.
  induction proposals as [|q rest IH]; intros start map i Hdistinct Hnth.
  - destruct i; discriminate.
  - cbn [remap]. inversion Hdistinct as [|x l Hq Hrest]; subst.
    pose proof (remap_map_other route rest (Monotonic.increment start 1)
                  (Obj.set (Proposal.promise q) (Monotonic.increment start 1) map)
                  (Proposal.promise q) Hq) as Hother.
    specialize (IH (Monotonic.increment start 1)
                   (Obj.set (Proposal.promise q) (Monotonic.increment start 1) map)).
    destruct (remap route (Monotonic.increment start 1) rest
                    (Obj.set (Proposal.promise q) (Monotonic.increment start 1) map))
      as [[rest' last] map'].
    cbn [fst snd] in *. destruct i as [|j].
    + inversion Hnth; subst. rewrite Hother, (get_set (H := Key_promise) Monotonic_eqb_spec).
      cbn [nth_error option_map Proposal.promise Proposal.body].
      unfold Monotonic.increment. cbn [fst snd]. auto.
    + simpl in Hnth. destruct (IH j Hrest Hnth) as [H1 [H2 H3]].
      cbn [nth_error]. rewrite H1, H2, H3.
      unfold Monotonic.increment. cbn [fst snd].
      replace (snd start + 1 + N.of_nat (S j))%N
        with (snd start + N.of_nat (S (S j)))%N by lia.
      auto.
Qed.

Section Requeueing.

Context {strategies : Strategies} {collaborators : Collaborators}.

Lemma assemble_map (promise : Promise) (map : option (Obj.t Promise Promise))
    (shape : Shape.government) (current body : Government.t) :
  assemble promise map shape current = Ok body -> Government.map body = map.
Proof.
  unfold assemble. destruct (Shape.immigrate shape) as [immigrate|].
  - destruct (Immigrate.properties immigrate); [|discriminate].
    intros E; inversion E; reflexivity.
  - destruct (Shape.exile shape) as [exile|];
      [destruct (String.eqb exile "")|]; intros E; inversion E; reflexivity.
Qed.

(** X7 ([Paxos.prototype.newGovernment], [Writer.prototype.unshift]): at a
    two-phase writer the new government jumps the queue: it stands behind
    what is in flight and ahead of every proposal waiting, and the waiting
    proposals follow it in their order, with their bodies, under the minor
    promises [(g+1)/1 ... (g+1)/n]; the last promise issued becomes
    [(g+1)/n] and the government carries the map of the re-numbering. *)
Theorem newGovernment_requeues (now : Z) (quorum : list string) (shape : Shape.government)
    (s s' : Paxos) (w : Writer.t) :
  _writer s = TwoPhase w -> Writer.collapsed w = false ->
  newGovernment now quorum shape s = Ok s' ->
  let promise := Monotonic.increment (Government.promise (government s)) 0 in
  let r := remap (Shape.majority shape) promise (Writer.proposals w) [] in
  exists w' body,
    _writer s' = TwoPhase w'
    /\ queue w'
       = Writer._writing w
         ++ Proposal.mk (Some quorum) promise (BGovernment body) None None :: fst (fst r)
    /\ Government.map body = Some (snd r)
    /\ _promised s' = Some (fst promise, N.of_nat (List.length (Writer.proposals w)))
    /\ List.map Proposal.promise (fst (fst r))
       = promises_after promise (List.length (Writer.proposals w))
    /\ List.map Proposal.body (fst (fst r)) = List.map Proposal.body (Writer.proposals w).
Proof.
  intros Hw Hcollapsed H promise r. unfold newGovernment in H.
  assert (Hw' : _writer (shaper_decided s) = TwoPhase w).
  { unfold shaper_decided. destruct (_shaper s); exact Hw. }
  assert (Hg : government (shaper_decided s) = government s).
  { unfold shaper_decided. destruct (_shaper s); reflexivity. }
  rewrite Hg in H. fold promise in H.
  unfold writer_collapsed at 1 in H. rewrite Hw', Hcollapsed in H.
  unfold writer_proposals at 1 in H. rewrite Hw' in H. fold r in H.
  destruct (remap_renumbers (Shape.majority shape) (Writer.proposals w) promise [])
    as [H1 [H2 H3]]. fold r in H1, H2, H3.
  destruct r as [[proposals remapped] map]. cbn [fst snd] in *.
  apply bind_ok in H. destruct H as [body [Hassemble H]].
  apply bind_ok in H. destruct H as [u [_ H]].
  apply bind_ok in H. destruct H as [s1 [Hunshift H]].
  unfold writer_unshift, Writer_unshift in Hunshift.
  assert (Hs0 : _writer (with_promised (Some remapped)
                           (writer_assign proposals (shaper_decided s)))
                = TwoPhase (assign proposals w)).
  { simpl. unfold writer_assign. rewrite Hw'. reflexivity. }
  rewrite Hs0 in Hunshift. inversion Hunshift; subst s1; clear Hunshift.
  unfold writer_nudge in H. simpl in H. unfold Writer_nudge in H.
  apply _send_optional_frame in H. destruct H as [_ [Hwriter [_ [Hpromised _]]]].
  simpl in Hwriter, Hpromised.
  eexists. exists body. split; [exact Hwriter|].
  split; [|split; [|split; [|split]]].
  - rewrite queue_nudge. reflexivity.
  - eapply assemble_map. exact Hassemble.
  - rewrite Hpromised, H2. subst promise. unfold Monotonic.increment. reflexivity.
  - exact H1.
  - exact H3.
Qed.

End Requeueing.

Lemma remap_records_witness :
  Obj.get (1, 2)%N (snd (remap ["0"] (2, 0)%N waiting [])) = Some (2, 2)%N.
Proof.
  destruct (remap_records ["0"] waiting (2, 0)%N [] 1
              (Proposal.mk (Some ["0"]) (1, 2)%N (BMessage "b") None None))
    as [H _].
  - repeat constructor; simpl; intuition discriminate.
  - reflexivity.
  - exact H.
Defined.

Lemma newGovernment_requeues_witness :
  exists w' body,
    _writer requeued = TwoPhase w'
    /\ List.map Proposal.promise (queue w') = [(2, 0); (2, 0); (2, 1)]%N
    /\ Government.map body = Some [((2, 2)%N, (2, 1)%N)]
    /\ _promised requeued = Some (2, 1)%N.
Proof.
  destruct (newGovernment_requeues 3 ["0"] (Shape.mkGovernment ["0"] [] None None)
              queued requeued queued_writer)
    as [w' [body [H1 [H2 [H3 [H4 _]]]]]]; try (vm_compute; reflexivity).
  exists w', body. split; [exact H1|]. split; [rewrite H2; vm_compute; reflexivity|].
  split; [rewrite H3; vm_compute; reflexivity|]. rewrite H4. vm_compute. reflexivity.
Defined.

(** ** Immigration *)

Section Immigrating.

Context {strategies : Strategies} {collaborators : Collaborators}.

Lemma _enqueuable_none (republic' : string) (s : Paxos) :
  _enqueuable republic' s = None ->
  writer_collapsed s = false /\ republic s = republic' /\ is_leader s = true.
Proof.
  unfold _enqueuable.
  destruct (writer_collapsed s); simpl; [discriminate|].
  destruct (String.eqb_spec (republic s) republic'); simpl; [|discriminate].
  destruct (is_leader s); simpl; [auto|discriminate].
Qed.

Lemma _enqueuable_some (republic' : string) (s : Paxos) (response : Enqueued) :
  _enqueuable republic' s = Some response -> response = refusal republic' s.
Proof.
  unfold _enqueuable, refusal.
  destruct (writer_collapsed s || negb (String.eqb (republic s) republic'))%bool.
  - intros H; inversion H; reflexivity.
  - destruct (is_leader s); simpl; intros H; inversion H; reflexivity.
Qed.

(** X8 ([Paxos.prototype.immigrate], [Paxos.prototype._enqueuable]): an
    immigration is refused, and the citizen left exactly as it was, when
    the citizen does not take submissions (it is collapsed, of another
    republic, or not the leader) or when the id is already in the
    government's properties; the [in] test also finds the names every
    object inherits, so an id such as ['constructor'] is always refused.
    The refusal names no leader exactly when the citizen is collapsed, of
    another republic, or under a government whose majority is empty, as
    the null government of a citizen that has never synchronised is; a
    leader that refuses because of the id names itself. *)
Theorem immigrate_refused (now : Z) (republic' id' : string) (cookie' : Z)
    (properties : option JSON) (s : Paxos) :
  _enqueuable republic' s <> None
  \/ Obj.has id' (Government.properties (government s)) = true
  \/ In id' Object_prototype ->
  immigrate now republic' id' cookie' properties s = Ok (s, refusal republic' s)
  /\ (leader (refusal republic' s) = None <->
      writer_collapsed s = true \/ republic s <> republic'
      \/ Government.majority (government s) = [])
  /\ (_enqueuable republic' s = None -> leader (refusal republic' s) = Some (id s)).
Proof.
  intros H. split; [|split].
  - unfold immigrate.
    destruct (_enqueuable republic' s) as [response|] eqn:E.
    + apply _enqueuable_some in E. subst. reflexivity.
    + destruct H as [H|H]; [congruence|].
      assert (Hin : in_object id' (Government.properties (government s)) = true).
      { unfold in_object. destruct H as [H|H]; [rewrite H; reflexivity|].
        apply orb_true_iff. right. apply existsb_exists. exists id'.
        split; [exact H|apply String.eqb_refl]. }
      rewrite Hin. apply _enqueuable_none in E. destruct E as [Hc [Hr Hl]].
      unfold refusal. rewrite Hc. subst republic'. rewrite String.eqb_refl. reflexivity.
  - unfold refusal. cbn [leader]. unfold Government.leader.
    destruct (writer_collapsed s); cbn [orb].
    + split; auto.
    + destruct (String.eqb_spec (republic s) republic') as [Hr|Hr]; cbn [negb].
      * destruct (Government.majority (government s)) as [|first rest]; cbn [hd_error].
        -- split; auto.
        -- split; [discriminate|]. intros [K|[K|K]]; congruence.
      * split; auto.
  - intros E. apply _enqueuable_none in E. destruct E as [Hc [Hr Hl]].
    unfold refusal. cbn [leader]. rewrite Hc, Hr, String.eqb_refl. cbn [orb negb].
    unfold is_leader in Hl. destruct (Government.leader (government s)) as [l|];
      [|discriminate].
    apply String.eqb_eq in Hl. congruence.
Qed.

(** X9 ([Paxos.prototype.immigrate]): whatever [immigrate] returns, it
    has enacted nothing.  A refusal leaves the citizen as it was; an
    acceptance happens only at the leader of the republic named, for an id
    that is not yet in the properties, answers [{ enqueued: true }], and
    changes at most the shaper, the writer, the last promise, the timers
    and the outbox: the log, the government and all the tables are as
    before. *)

Theorem immigrate_outcome (now : Z) (republic' id' : string) (cookie' : Z)
    (properties : option JSON) (s s' : Paxos) (response : Enqueued) :
  immigrate now republic' id' cookie' properties s = Ok (s', response) ->
  if enqueued response then
    response = mkEnqueued true None None None
    /\ writer_collapsed s = false /\ republic s = republic' /\ is_leader s = true
    /\ Obj.has id' (Government.properties (government s)) = false
    /\ ledger s' = ledger s
  else s' = s /\ response = refusal republic' s.
Proof.
  unfold immigrate. destruct (_enqueuable republic' s) as [refused|] eqn:E.
  - intros H; inversion H; subst. apply _enqueuable_some in E. subst. simpl. auto.
  - pose proof (_enqueuable_none _ _ E) as [Hc [Hr Hl]].
    destruct (in_object id' (Government.properties (government s))) eqn:Hin.
    + intros H; inversion H; subst. simpl. split; [reflexivity|].
      unfold refusal. rewrite Hc, String.eqb_refl. reflexivity.
    + destruct (_shaper s) as [sh|]; [|discriminate].
      intros H. bind_inversion H. inversion H; subst; clear H. simpl.
      apply _reshape_ledger in E0. unfold in_object in Hin.
      apply orb_false_iff in Hin. repeat split; tauto.
Qed.

End Immigrating.

Lemma immigrate_refused_witness :
  immigrate 1 "republic" "constructor" 1 (Some "{}") dictator
  = Ok (dictator, refusal "republic" dictator)
  /\ (leader (refusal "republic" dictator) = None <->
      writer_collapsed dictator = true \/ republic dictator <> "republic"
      \/ Government.majority (government dictator) = [])
  /\ (_enqueuable "republic" dictator = None ->
      leader (refusal "republic" dictator) = Some (id dictator)).
Proof.
  apply (immigrate_refused 1 "republic" "constructor" 1 (Some "{}") dictator).
  right. right. simpl. auto.
Defined.

Lemma immigrate_outcome_witness :
  mkEnqueued true None None None = mkEnqueued true None None None
  /\ writer_collapsed dictator = false /\ republic dictator = "republic"
  /\ is_leader dictator = true
  /\ Obj.has "1" (Government.properties (government dictator)) = false
  /\ ledger asked = ledger dictator.
Proof.
  apply (immigrate_outcome 1 "republic" "1" 1 (Some "{}") dictator asked
                           (mkEnqueued true None None None)).
  vm_compute. reflexivity.
Defined.

(** ** The propose event *)

Section Proposing.

Context {strategies : Strategies} {collaborators : Collaborators}.

Lemma event_propose (fuel : nat) (envelope : Timer.t) (s : Paxos) :
  timed envelope propose ->
  event fuel envelope s = propose_loop fuel (Timer.now envelope) s.
Proof. intros [Hm [He Hb]]. unfold event. rewrite Hm, He, Hb. reflexivity. Qed.

Lemma gather_spec (s : Paxos) (parliament : list string) :
  forall majority minority : list string,
    let r := gather s parliament majority minority in
    exists joined left,
      fst r = majority ++ joined /\ snd r = minority ++ left
      /\ Permutation (joined ++ left) (strangers s parliament)
      /\ Forall (fun who => present s who = true) joined
      /\ ((List.length majority <= List.length (Government.majority (government s)))%nat ->
          (List.length (fst r) <= List.length (Government.majority (government s)))%nat).
Proof.
  induction parliament as [|who rest IH]; intros majority minority; simpl.
  - exists [], []. rewrite !app_nil_r. repeat split; auto.
  - destruct (String.eqb who (id s)) eqn:Hid; simpl.
    + apply IH.
    + destruct ((List.length majority =? List.length (Government.majority (government s)))%nat
                || Obj.has (immigration_promise who s) (_disappeared s))%bool eqn:Hc.
      * destruct (IH majority (minority ++ [who])) as [joined [left [H1 [H2 [H3 [H4 H5]]]]]].
        exists joined, (who :: left). rewrite H1, H2, <- app_assoc. simpl.
        split; [reflexivity|]. split; [reflexivity|].
        split; [apply Permutation_sym; apply Permutation_cons_app;
                apply Permutation_sym; exact H3|].
        split; [exact H4|]. rewrite <- H1. exact H5.
      * apply orb_false_iff in Hc. destruct Hc as [Hfull Hgone].
        destruct (IH (majority ++ [who]) minority) as [joined [left [H1 [H2 [H3 [H4 H5]]]]]].
        exists (who :: joined), left. rewrite H1, H2, <- app_assoc. simpl.
        split; [reflexivity|]. split; [reflexivity|].
        split; [apply perm_skip; exact H3|]. split.
        -- constructor; [|exact H4]. unfold present. rewrite Hgone. reflexivity.
        -- intros Hle. rewrite <- app_assoc in H1. simpl in H1. rewrite <- H1. apply H5.
           apply Nat.eqb_neq in Hfull. rewrite length_app. simpl. lia.
Qed.

Lemma gather_bounds (s : Paxos) (parliament : list string) :
  forall majority minority : list string,
    (List.length majority <= List.length (fst (gather s parliament majority minority))
     <= List.length majority + List.length (strangers s parliament))%nat.
Proof.
  intros majority minority.
  destruct (gather_spec s parliament majority minority) as [joined [left [H1 [_ [H3 _]]]]].
  rewrite H1, length_app. apply Permutation_length in H3. rewrite length_app in H3. lia.
Qed.

Lemma gather_reachable (s : Paxos) (parliament : list string) :
  _disappeared s = [] ->
  forall majority minority : list string,
    (List.length majority <= List.length (Government.majority (government s)))%nat ->
    let room := (List.length (Government.majority (government s)) - List.length majority)%nat in
    gather s parliament majority minority
    = (majority ++ firstn room (strangers s parliament),
       minority ++ skipn room (strangers s parliament)).
Proof.
  intros Hnone. induction parliament as [|who rest IH]; intros majority minority Hle; simpl.
  - rewrite firstn_nil, skipn_nil, !app_nil_r. reflexivity.
  - destruct (String.eqb who (id s)) eqn:Hid; simpl; [apply IH; exact Hle|].
    rewrite Hnone. simpl. rewrite orb_false_r.
    destruct (List.length majority =? List.length (Government.majority (government s)))%nat
      eqn:Hfull.
    + apply Nat.eqb_eq in Hfull. rewrite IH by exact Hle. rewrite Hfull, Nat.sub_diag.
      simpl. rewrite <- app_assoc. reflexivity.
    + apply Nat.eqb_neq in Hfull. rewrite IH by (rewrite length_app; simpl; lia).
      rewrite length_app. simpl.
      replace (List.length (Government.majority (government s)) - List.length majority)%nat
        with (S (List.length (Government.majority (government s))
                 - (List.length majority + 1)))%nat by lia.
      simpl. rewrite <- app_assoc. reflexivity.
Qed.

Lemma gather_full (s : Paxos) (parliament : list string) :
  forall majority minority : list string,
    List.length majority = List.length (Government.majority (government s)) ->
    gather s parliament majority minority = (majority, minority ++ strangers s parliament).
Proof.
  induction parliament as [|who rest IH]; intros majority minority Hfull; simpl.
  - rewrite app_nil_r. reflexivity.
  - destruct (String.eqb who (id s)); simpl; [apply IH; exact Hfull|].
    rewrite Hfull, Nat.eqb_refl. simpl. rewrite IH by exact Hfull.
    rewrite <- app_assoc. reflexivity.
Qed.

(** A pass over the parliament: the majority takes the members of a prefix
    that are not recorded as disappeared, as many as it has room for; the
    minority is left the rest of the prefix and everyone after it. *)
Lemma gather_prefix (s : Paxos) (parliament : list string) :
  forall majority minority : list string,
    (List.length majority <= List.length (Government.majority (government s)))%nat ->
    let room := (List.length (Government.majority (government s)) - List.length majority)%nat in
    exists k,
      gather s parliament majority minority
      = (majority ++ filter (present s) (firstn k (strangers s parliament)),
         minority ++ filter (fun who => negb (present s who))
                            (firstn k (strangers s parliament))
                  ++ skipn k (strangers s parliament))
      /\ filter (present s) (firstn k (strangers s parliament))
         = firstn room (filter (present s) (strangers s parliament)).
Proof.
  induction parliament as [|who rest IH]; intros majority minority Hle room.
  - exists O. simpl. rewrite !app_nil_r, firstn_nil. auto.
  - simpl. destruct (String.eqb who (id s)) eqn:Hid; simpl; [apply IH; exact Hle|].
    destruct (List.length majority =? List.length (Government.majority (government s)))%nat
      eqn:Hfull.
    + apply Nat.eqb_eq in Hfull. exists O. simpl.
      rewrite (gather_full s rest majority (minority ++ [who]) Hfull).
      rewrite app_nil_r, <- app_assoc. split; [reflexivity|].
      subst room. rewrite Hfull, Nat.sub_diag. reflexivity.
    + apply Nat.eqb_neq in Hfull. simpl.
      destruct (Obj.has (immigration_promise who s) (_disappeared s)) eqn:Hgone.
      * assert (Hpresent : present s who = false)
          by (unfold present; rewrite Hgone; reflexivity).
        destruct (IH majority (minority ++ [who]) Hle) as [k [Hg Hp]].
        exists (S k). cbn [firstn skipn filter]. rewrite Hpresent. cbn [negb].
        rewrite Hg, <- app_assoc. split; [reflexivity|]. exact Hp.
      * assert (Hle' : (List.length (majority ++ [who])
                        <= List.length (Government.majority (government s)))%nat).
        { rewrite length_app. simpl. lia. }
        assert (Hpresent : present s who = true)
          by (unfold present; rewrite Hgone; reflexivity).
        destruct (IH (majority ++ [who]) minority Hle') as [k [Hg Hp]].
        exists (S k). cbn [firstn skipn filter]. rewrite Hpresent. cbn [negb].
        rewrite Hg, <- app_assoc. split; [reflexivity|].
        rewrite Hp. subst room. rewrite length_app. simpl.
        replace (List.length (Government.majority (government s)) - List.length majority)%nat
          with (S (List.length (Government.majority (government s))
                   - (List.length majority + 1)))%nat by lia.
        reflexivity.
Qed.

(** X10 ([Paxos.prototype.event], case ['propose']): under a government
    with a majority of at least one, the propose event forms a government
    with the citizen as leader.  When enough members of the parliament
    other than the citizen are not recorded as disappeared, the first pass
    of the loop succeeds and the citizen is left as it was, its record of
    the disappeared included: the majority is the citizen followed by the
    first of those members, as many as the majority has room for; they are
    the members not recorded as disappeared of a prefix of the parliament,
    and the minority is the rest of that prefix and everyone after it.
    When too few are left, the first pass falls short, the record of the
    disappeared is cleared, and the second pass takes the members of the
    parliament in order, if there are enough of them. *)
Theorem propose_forms_government (envelope : Timer.t) (s : Paxos) (fuel : nat) :
  timed envelope propose ->
  let size := List.length (Government.majority (government s)) in
  let now := Timer.now envelope in
  let remaining := filter (present s) (others s) in
  (1 <= size)%nat ->
  ((size - 1 <= List.length remaining)%nat ->
   exists k minority,
     event (S fuel) envelope s
     = Some (newGovernment now (id s :: firstn (size - 1) remaining)
               (Shape.mkGovernment (id s :: firstn (size - 1) remaining) minority None None)
               s)
     /\ firstn (size - 1) remaining = filter (present s) (firstn k (others s))
     /\ minority = filter (fun who => negb (present s who)) (firstn k (others s))
                   ++ skipn k (others s))
  /\ ((List.length remaining < size - 1)%nat ->
      (size - 1 <= List.length (others s))%nat ->
      event (S (S fuel)) envelope s
      = Some (newGovernment now (id s :: firstn (size - 1) (others s))
                (Shape.mkGovernment (id s :: firstn (size - 1) (others s))
                                    (skipn (size - 1) (others s)) None None)
                (with_disappeared [] s))).
Proof.
  intros Htimed size now remaining Hsize.
  set (parliament := Government.majority (government s) ++ Government.minority (government s)).
  assert (Hone : (List.length [id s] <= size)%nat) by (simpl; lia).
  destruct (gather_prefix s parliament [id s] [] Hone) as [k [Hgather Hpicked]].
  change (strangers s parliament) with (others s) in Hgather, Hpicked.
  fold size in Hpicked. change (List.length [id s]) with 1%nat in Hpicked.
  fold remaining in Hpicked. rewrite Hpicked in Hgather. simpl in Hgather.
  split.
  - intros Henough. rewrite (event_propose _ _ _ Htimed). cbn [propose_loop].
    fold parliament. rewrite Hgather.
    assert (Hlen : List.length (id s :: firstn (size - 1) remaining) = size).
    { simpl. rewrite length_firstn. lia. }
    fold size. rewrite Hlen, Nat.eqb_refl.
    exists k. eexists. split; [reflexivity|]. split; [|reflexivity].
    symmetry. exact Hpicked.
  - intros Hshort Hothers. rewrite (event_propose _ _ _ Htimed). cbn [propose_loop].
    fold parliament. rewrite Hgather.
    assert (Hlen : (List.length (id s :: firstn (size - 1) remaining) =? size)%nat = false).
    { apply Nat.eqb_neq. simpl. rewrite length_firstn. lia. }
    fold size. rewrite Hlen.
    change (government (with_disappeared [] s)) with (government s).
    fold parliament.
    pose proof (gather_reachable (with_disappeared [] s) parliament eq_refl [id s] [])
      as Hsecond.
    change (government (with_disappeared [] s)) with (government s) in Hsecond.
    change (id (with_disappeared [] s)) with (id s) in *.
    simpl in Hsecond. fold size in Hsecond. specialize (Hsecond Hsize).
    change (strangers (with_disappeared [] s) parliament) with (others s) in Hsecond.
    rewrite Hsecond.
    assert (Hfull : List.length (id s :: firstn (size - 1) (others s)) = size).
    { simpl. rewrite length_firstn. lia. }
    fold size. rewrite Hfull, Nat.eqb_refl. reflexivity.
Qed.

(** X11 ([Paxos.prototype.event], case ['propose']): the loop of the
    propose event has no exit when the government has an empty majority
    (as the null government of a citizen that has never synchronised has),
    or when the parliament has too few members other than the citizen to
    fill a majority: every pass falls short, whatever the number of
    passes. *)
Theorem propose_never_returns (envelope : Timer.t) (s : Paxos) (fuel : nat) :
  timed envelope propose ->
  let size := List.length (Government.majority (government s)) in
  size = O \/ (List.length (others s) < size - 1)%nat ->
  event fuel envelope s = None.
Proof.
  intros Htimed size Hshort. rewrite (event_propose _ _ _ Htimed).
  generalize (Timer.now envelope). intros now.
  revert s size Hshort.

  induction fuel as [|fuel IH]; intros s size Hshort; [reflexivity|].
  cbn [propose_loop].
  set (parliament := Government.majority (government s) ++ Government.minority (government s)).
  pose proof (gather_bounds s parliament [id s] []) as Hbounds.
  destruct (gather s parliament [id s] []) as [majority minority].
  cbn [fst] in Hbounds. simpl in Hbounds.
  change (strangers s parliament) with (others s) in Hbounds.
  fold size.
  assert (Hne : (List.length majority =? size)%nat = false).
  { apply Nat.eqb_neq. destruct Hshort; lia. }
  rewrite Hne. apply IH. exact Hshort.
Qed.

End Proposing.

Lemma propose_forms_government_witness :
  exists k minority,
    event 1 forsaken_envelope forsaken
    = Some (newGovernment 7 ["1"; "2"]
              (Shape.mkGovernment ["1"; "2"] minority None None) forsaken)
    /\ ["2"] = filter (present forsaken) (firstn k (others forsaken))
    /\ minority = filter (fun who => negb (present forsaken who)) (firstn k (others forsaken))
                  ++ skipn k (others forsaken).
Proof.
  destruct (propose_forms_government forsaken_envelope forsaken 0) as [H _].
  - repeat split.
  - vm_compute. lia.
  - apply H. vm_compute. lia.
Defined.

Lemma propose_never_returns_witness : event 9 propose_envelope newcomer = None.
Proof.
  apply (propose_never_returns propose_envelope newcomer 9).
  - repeat split.
  - left. reflexivity.
Defined.

(** ** Sending *)

Section Posting.

Context {strategies : Strategies} {collaborators : Collaborators}.

Lemma counted_firstn {A : Type} (count : nat) (nodes : list A) :
  (1 <= count)%nat -> counted count nodes = firstn (count - 1) nodes.
Proof.
  destruct count as [|n]; [lia|]. intros _. simpl. rewrite Nat.sub_0_r. reflexivity.
Qed.

Lemma _sync_header (who : option string) (committed : option Promise) (count : nat)
    (s : Paxos) (sync : Sync.t) :
  (1 <= count)%nat ->
  _sync who committed count s = Ok sync ->
  Sync.republic sync = Some (republic s) /\ Sync.from sync = Some (id s)
  /\ Sync.committed sync = Some (head_promise s)
  /\ Sync.minimum sync = Some (_minimum s)
  /\ (List.length (Sync.commits sync) <= count - 1)%nat
  /\ (committed = None -> Sync.commits sync = []).
Proof.
  intros Hcount. unfold _sync. destruct committed as [c|].
  - intros H. bind_inversion H. inversion H; subst; clear H.
    cbn [Sync.republic Sync.from Sync.committed Sync.minimum Sync.commits].
    repeat split; try discriminate.
    rewrite (counted_firstn _ _ Hcount), length_map, length_firstn. lia.
  - intros H. inversion H; subst. simpl. repeat split; auto. lia.
Qed.

Lemma _send_each_envelopes (message : Message.t) (to : list string) :
  forall (s : Paxos) (r : Paxos * list Envelope.t),
    _send_each message to s = Ok r ->
    List.map Envelope.to (snd r) = to
    /\ Forall (addressed message s) (snd r)
    /\ (forall key, In key to -> Obj.get key (scheduler (fst r)) = None)
    /\ (forall key, ~ In key to -> Obj.get key (scheduler (fst r)) = Obj.get key (scheduler s))
    /\ (forall key, Obj.get key (scheduler s) = None -> Obj.get key (scheduler (fst r)) = None).
Proof.
  induction to as [|recipient rest IH]; intros s r H; simpl in H.
  - inversion H; subst. simpl. repeat split; auto. intros key [].
  - bind_inversion H. bind_inversion H. inversion H; subst; clear H. simpl.
    destruct (IH _ _ E0) as [H1 [H2 [H3 [H4 H5]]]]. simpl in *.
    apply _sync_header in E; [|lia]. destruct E as [S1 [S2 [S3 [S4 [S5 _]]]]].
    split; [rewrite H1; reflexivity|]. split; [|split; [|split]].
    + constructor; [|exact H2]. unfold addressed. simpl. auto 10.
    + intros key [Hkey|Hkey].
      * subst. apply H5. unfold Scheduler.unschedule. apply get_del_string.
      * apply H3. exact Hkey.
    + intros key Hkey. simpl in Hkey. rewrite H4 by tauto. unfold Scheduler.unschedule.
      assert (Hne : key <> recipient) by (intros Heq; apply Hkey; left; congruence).
      clear - Hne.
      induction (scheduler s) as [|[k v] o IHo]; simpl; [reflexivity|].
      destruct (String.eqb_spec recipient k).
      * subst. destruct (String.eqb_spec key k); [congruence|]. exact IHo.
      * simpl. destruct (String.eqb key k); [reflexivity|exact IHo].
    + intros key Hkey. apply H5. unfold Scheduler.unschedule.
      clear - Hkey. induction (scheduler s) as [|[k v] o IHo]; simpl; [reflexivity|].
      simpl in Hkey. destruct (String.eqb key k) eqn:Ek; [discriminate|].
      destruct (String.eqb recipient k); simpl; [auto|rewrite Ek; auto].
Qed.

(** X12 ([Paxos.prototype._send]): a request that is sent appends one
    message to the outbox, with one envelope for each recipient in the
    order of [to]; every envelope carries the request, the sender's id and
    republic, its head promise as [committed], and at most 23 commits; the
    timer under each recipient's key is cancelled and no other timer is
    touched. *)
Theorem send_envelopes (message : Message.t) (to : list string) (s s' : Paxos) :
  Message.to message = Some to -> _send message s = Ok s' ->
  exists envelopes,
    outbox s' = outbox s ++ [Outgoing.mk (id s) message envelopes]
    /\ List.map Envelope.to envelopes = to
    /\ Forall (addressed message s) envelopes
    /\ (forall key, In key to -> Obj.get key (scheduler s') = None)
    /\ (forall key, ~ In key to -> Obj.get key (scheduler s') = Obj.get key (scheduler s)).

Proof.
  intros Hto H. unfold _send in H. rewrite Hto in H. bind_inversion H.
  inversion H; subst; clear H.
  destruct (_send_each_envelopes _ _ _ _ E) as [H1 [H2 [H3 [H4 _]]]].
  destruct (_send_each_frame _ _ _ _ E) as [_ [_ [_ [_ Ho]]]].
  exists (snd a). simpl. rewrite Ho. auto.
Qed.

End Posting.

Lemma send_envelopes_witness :
  exists envelopes,
    outbox pinging
    = outbox leader2 ++ [Outgoing.mk (id leader2) (ping_of (2, 0)%N "1") envelopes]
    /\ List.map Envelope.to envelopes = ["1"]
    /\ Forall (addressed (ping_of (2, 0)%N "1") leader2) envelopes
    /\ (forall key, In key ["1"] -> Obj.get key (scheduler pinging) = None)
    /\ (forall key, ~ In key ["1"] ->
                    Obj.get key (scheduler pinging) = Obj.get key (scheduler leader2)).
Proof.
  apply (send_envelopes (ping_of (2, 0)%N "1") ["1"] leader2 pinging);
    vm_compute; reflexivity.
Defined.

(** ** Silent recipients *)

Section Housekeeping.

Context {strategies : Strategies} {collaborators : Collaborators}.

Lemma ledger_marks (s s' : Paxos) :
  ledger s' = ledger s ->
  _disappeared s' = _disappeared s /\ _unreachable s' = _unreachable s.
Proof. unfold ledger. intros H. injection H. auto. Qed.

(** X13 ([Paxos.prototype.response], the housekeeping of one recipient):
    for a recipient that did not answer, the time of its first failure is
    recorded and kept, not refreshed, by later failures; and the recipient
    is marked unreachable exactly when it was marked already or when the
    failure comes at least [timeout] after the recorded first one: a first
    failure never marks it. *)

Theorem unreachable_after_timeout (now : Z) (message : Message.t) (recipient : string)
    (responses : Obj.t string Response.t) (s : Paxos)
    (r : Paxos * Obj.t string Response.t) :
  housekeep now message recipient responses s = Ok r ->
  silent recipient responses = true ->
  let promise := immigration_promise recipient s in
  Obj.get promise (_disappeared (fst r))
  = Some (coalesce (Obj.get promise (_disappeared s)) now)
  /\ (marked promise (fst r) = true <->
      marked promise s = true
      \/ exists since, Obj.get promise (_disappeared s) = Some since
                       /\ (timeout s <= now - since)%Z).
Proof.
  intros H Hsilent promise. unfold housekeep in H. fold promise in H.
  unfold silent in Hsilent. rewrite Hsilent in H.
  set (s0 := if Message.collapsible message then _collapse now s else s) in *.
  assert (Hs0 : _disappeared s0 = _disappeared s /\ _unreachable s0 = _unreachable s
                /\ timeout s0 = timeout s).
  { subst s0. destruct (Message.collapsible message); repeat split. }
  destruct Hs0 as [Hd [Hu Ht]]. clearbody s0. rewrite Hd, Ht in H.
  destruct (Obj.get promise (_disappeared s)) as [since|] eqn:Hsince.
  - destruct (timeout s <=? now - since)%Z eqn:Hlate.
    + cbn [Response.sync Response.unreachable Response.minimum Sync.committed
           Sync.commits unreachable_response] in H.
      simpl in H. unfold marked.
      destruct (negb (coalesce (Obj.get promise (_unreachable s0)) false)) eqn:Hm.
      * bind_inversion H. inversion H; subst; clear H. cbn [fst].
        cbn [update_minimum].
        assert (Hl : _disappeared a = _disappeared s0
                     /\ _unreachable a = Obj.set promise true (_unreachable s0)).
        { simpl in E. destruct (_shaper s0) eqn:Hsh.
          - apply bind_ok in E. destruct E as [s1 [E E']]. inversion E'; subst.
            apply _reshape_ledger in E. apply ledger_marks in E.
            simpl in E. exact E.
          - inversion E; subst. split; reflexivity. }
        destruct Hl as [Hl1 Hl2]. rewrite Hl1, Hl2, Hd, Hsince.
        rewrite (get_set (H := Key_nullable) eqb_nullable_spec). simpl.
        split; [reflexivity|]. split; [intros _|reflexivity].
        right. exists since. split; [reflexivity|]. apply Z.leb_le. exact Hlate.
      * inversion H; subst; clear H. cbn [fst]. cbn [update_minimum].
        rewrite Hd, Hu, Hsince. simpl. split; [reflexivity|].
        apply negb_false_iff in Hm. rewrite Hu in Hm. rewrite Hm. tauto.
    + simpl in H. inversion H; subst; clear H. cbn [fst]. cbn [update_minimum].
      rewrite Hd, Hsince. simpl. split; [reflexivity|]. unfold marked. rewrite Hu.
      split; [tauto|]. intros [Hm|[since' [Hs Hl]]]; [exact Hm|].
      inversion Hs; subst. apply Z.leb_gt in Hlate. lia.
  - simpl in H. inversion H; subst; clear H. cbn [fst]. cbn [update_minimum].
    simpl. rewrite (get_set (H := Key_nullable) eqb_nullable_spec).
    split; [reflexivity|]. unfold marked. simpl. rewrite Hu.
    split; [tauto|]. intros [Hm|[since' [Hs _]]]; [exact Hm|discriminate].
Qed.

End Housekeeping.

Lemma unreachable_after_timeout_witness :
  Obj.get (immigration_promise "1" unanswered) (_disappeared (fst housekept))
  = Some (coalesce (Obj.get (immigration_promise "1" unanswered)
                            (_disappeared unanswered)) 5%Z)
  /\ (marked (immigration_promise "1" unanswered) (fst housekept) = true <->
      marked (immigration_promise "1" unanswered) unanswered = true
      \/ exists since,
           Obj.get (immigration_promise "1" unanswered) (_disappeared unanswered)
           = Some since
           /\ (timeout unanswered <= 5 - since)%Z).
Proof.
  apply (unreachable_after_timeout 5 (ping_of (2, 0)%N "1") "1" [] unanswered housekept);
    vm_compute; reflexivity.
Defined.

(** ** Bootstrap, once *)

Section Once.

Context {strategies : Strategies} {collaborators : Collaborators}.

Lemma bootstrap_governed (now : Z) (properties : JSON) (s : Paxos) :
  (Monotonic.compare (Government.promise (government s)) (1, 0)%N <? 0)%Z = false ->
  exists e, bootstrap now properties s = Throw e.
Proof.
  intros Hgov. unfold bootstrap. cbn [_shaper with_promised].
  destruct (_shaper s) as [sh|decided]; [|simpl; eauto].
  cbn [bind]. unfold _commit. cbn [compare_nullable Entry.promise bind].
  change (Monotonic.compare (1, 0)%N (0, 0)%N <=? 0)%Z with false.
  cbn [Entry.previous]. change (eqb_nullable (Some (0, 0)%N) (Some (0, 0)%N)) with true.
  cbn [assert bind]. change (Monotonic.isBoundary (1, 0)%N 0) with true.
  cbn [assert bind]. unfold enact. cbn [government with_scheduler with_shaper Entry.promise].
  change (government (with_promised (Some (1, 0)%N) s)) with (government s).
  rewrite Hgov. simpl. eauto.
Qed.

(** X14 ([Paxos.prototype.bootstrap]): a citizen can be bootstrapped
    once.  After a bootstrap that returned, every further bootstrap throws:
    the government [1/0] it enacts is not above the government the citizen
    has. *)

Theorem bootstrap_once (now : Z) (properties : JSON) (s s' : Paxos) :
  bootstrap now properties s = Ok s' ->
  forall (later : Z) (properties' : JSON),
    exists e, bootstrap later properties' s' = Throw e.
Proof.
  intros H later properties'. apply bootstrap_governed.
  unfold bootstrap in H. bind_inversion H. apply _commit_effect in H.
  destruct H as [[_ [t [Ht Hle]]]|[_ [_ [_ [_ [_ Hg]]]]]].
  - inversion Ht; subst t. exfalso. destruct Hle as [Hle|Hle].
    + unfold precedes in Hle. simpl in Hle. lia.
    + discriminate Hle.
  - change (Monotonic.isBoundary (Entry.promise
              (Entry.mk (1, 0)%N (BGovernment (dictatorship (id (with_promised (Some (1, 0)%N) s)) properties))
                        (Some (0, 0)%N))) 0) with true in Hg.
    cbn iota in Hg. destruct Hg as [_ [g [Hbody Hg]]]. rewrite Hg.
    inversion Hbody; subst g. reflexivity.
Qed.

End Once.

Lemma bootstrap_once_witness : exists e, bootstrap 1 "{}" dictator = Throw e.
Proof.
  apply (bootstrap_once 0 "{}" (Paxos_new 0 "republic" "0" scene_options) dictator).
  vm_compute. reflexivity.
Defined.

(** ** Notifying the constituents *)

Section Notifying.

Context {strategies : Strategies} {collaborators : Collaborators}.

Lemma schedule_other (when : Z) (key other : string) (event : Event) (sch : Scheduler.t) :
  other <> key ->
  Obj.get other (Scheduler.schedule when key event sch) = Obj.get other sch.
Proof.
  intros Hne. unfold Scheduler.schedule. rewrite get_app_string.
  assert (Hdel : Obj.get other (Obj.del key sch) = Obj.get other sch).
  { induction sch as [|[k v] o IH]; simpl; [reflexivity|].
    destruct (String.eqb_spec key k).
    - subst. destruct (String.eqb_spec other k); [congruence|exact IH].
    - simpl. destruct (String.eqb other k); [reflexivity|exact IH]. }
  rewrite Hdel. destruct (Obj.get other sch); [reflexivity|].
  simpl. destruct (String.eqb_spec other key); [congruence|reflexivity].
Qed.

Lemma notify_scheduled (now : Z) (constituency : list string) :
  forall (sch : Scheduler.t) (c : string),
    In c constituency \/ Obj.get c sch = Some (now, synchronize [c] None) ->
    Obj.get c (notify now constituency sch) = Some (now, synchronize [c] None).
Proof.
  unfold notify. induction constituency as [|k rest IH]; intros sch c H; simpl.
  - destruct H as [[]|H]. exact H.
  - apply IH. destruct (String.eqb_spec c k) as [->|Hne].
    + right. apply scheduled.
    + destruct H as [[H|H]|H]; [congruence|left; exact H|].
      right. rewrite schedule_other by exact Hne. exact H.
Qed.

Lemma notify_others (now : Z) (constituency : list string) :
  forall (sch : Scheduler.t) (key : string),
    ~ In key constituency -> Obj.get key (notify now constituency sch) = Obj.get key sch.
Proof.
  unfold notify. induction constituency as [|k rest IH]; intros sch key H; simpl;
    [reflexivity|].
  simpl in H. rewrite IH by tauto. apply schedule_other. intros E. apply H. left. congruence.
Qed.

(** X15 ([Paxos.prototype._commit], the notification at its end): when a
    commit has pushed an entry at a citizen that is not the leader, or
    that is the only member of the majority, every constituent of the
    citizen has a synchronize event addressed to it alone scheduled at the
    time of the commit, whatever was scheduled under its key before. *)

Theorem commit_notifies (now : Z) (entry : Entry.t) (top : Promise) (s s' : Paxos) :
  _commit now entry (Some top) s = Ok s' ->
  precedes top (Entry.promise entry) ->
  relays s' = true ->
  forall c, In c (constituency s') ->
            Obj.get c (scheduler s') = Some (now, synchronize [c] None).
Proof.
  intros H Habove Hrelays c Hc. unfold _commit in H. cbn [compare_nullable bind] in H.
  assert (Horder : (Monotonic.compare (Entry.promise entry) top <=? 0)%Z = false).
  { destruct (Monotonic.compare (Entry.promise entry) top <=? 0)%Z eqn:E; [|reflexivity].
    apply compare_le in E. destruct E as [E|E].
    - exfalso. exact (precedes_irrefl _ (precedes_trans _ _ _ Habove E)).
    - rewrite E in Habove. exfalso. exact (precedes_irrefl _ Habove). }
  rewrite Horder in H. bind_inversion H. bind_inversion H. bind_inversion H.
  bind_inversion H. clear E E0 E1 E2. unfold append in H. bind_inversion H.
  inversion H; subst; clear H.
  set (s1 := match constituency a2 with
             | [] => mutate_minimum
                       (fun m => Minimum.mk (Minimum.propagated m) (Minimum.version m)
                                            (Entry.promise entry)) a2
             | _ :: _ => a2
             end) in *.
  assert (Hs1 : government s1 = government a2 /\ id s1 = id a2
                /\ constituency s1 = constituency a2 /\ scheduler s1 = scheduler a2).
  { subst s1. destruct (constituency a2) eqn:Ec; [|auto].
    destruct (mutate_minimum_frame
                (fun m => Minimum.mk (Minimum.propagated m) (Minimum.version m)
                                     (Entry.promise entry)) a2)
      as [_ [Hg [Hi [_ [Hc' Hs]]]]]. rewrite <- Ec. auto. }
  destruct Hs1 as [Hg [Hi [Hc' Hs]]]. clearbody s1.
  unfold relays in Hrelays.
  match type of Hc with
  | In c (constituency (if ?b then _ else _)) => destruct b eqn:Hb
  end; cbn [government id constituency scheduler with_scheduler with_log] in *.
  - apply notify_scheduled. left. exact Hc.
  - rewrite Hb in Hrelays. discriminate.
Qed.

End Notifying.

Lemma commit_notifies_witness :
  Obj.get "1" (scheduler leader2_next) = Some (2%Z, synchronize ["1"] None).
Proof.
  apply (commit_notifies 2 (Entry.mk (2, 1)%N (BMessage "next") (Some (2, 0)%N))
                         (2, 0)%N leader2 leader2_next).
  - vm_compute. reflexivity.
  - unfold precedes. simpl. lia.
  - vm_compute. reflexivity.
  - vm_compute. auto.
Defined.

(** ** Registers *)

Section Registering.

Context {strategies : Strategies} {collaborators : Collaborators}.

Lemma _register_loop_synchronize (now : Z) (entries : list Entry.t) :
  forall s : Paxos,
    _synchronize_loop now entries (Some (head_promise s)) s = _register_loop now entries s.
Proof.
  induction entries as [|entry rest IH]; intros s; [reflexivity|].
  simpl. destruct (_commit now entry (Some (head_promise s)) s) as [s1|e]; [|reflexivity].
  simpl. apply IH.
Qed.

(** X16 ([Paxos.prototype._register], [Paxos.prototype._synchronize]): at
    a citizen whose head is not ['0/0'], registering a chain of rounds is
    synchronising its entries oldest first: the two calls return the same
    citizen or throw the same exception. *)
Theorem register_synchronizes (now : Z) (register : list Entry.t) (s : Paxos) :
  Monotonic.eqb (head_promise s) (0, 0)%N = false ->
  _synchronize now (rev register) s = (s' <- _register now register s ;; Ok (s', true)).

Proof.
  intros Hhead. unfold _synchronize, _register.
  destruct (rev register) as [|first rest] eqn:E; [reflexivity|].
  rewrite Hhead, _register_loop_synchronize. reflexivity.
Qed.

End Registering.

Lemma register_synchronizes_witness :
  _synchronize 2 (rev [following]) dictator
  = (s' <- _register 2 [following] dictator ;; Ok (s', true)).
Proof.
  apply (register_synchronizes 2 [following] dictator). vm_compute. reflexivity.
Defined.

(** ** The integrity of the log *)

Lemma extends_refl (l : Log.t) : extends l l.
Proof. split; [exists []; rewrite app_nil_r; reflexivity|lia]. Qed.

Lemma extends_trans (a b c : Log.t) : extends a b -> extends b c -> extends a c.
Proof.
  intros [[x Hx] Hs] [[y Hy] Hs']. split; [|lia].
  exists (x ++ y). rewrite Hy, Hx, app_assoc. reflexivity.
Qed.

Lemma extends_push (e : LogEntry.t) (l : Log.t) : extends l (Log.push e l).
Proof. split; [exists [e]; reflexivity|simpl; lia]. Qed.

Lemma last_cons {A : Type} (rest : list A) :
  forall a b : A, last (b :: rest) a = last rest b.
Proof.
  induction rest as [|c rest IH]; intros a b; [reflexivity|].
  change (last (b :: c :: rest) a) with (last (c :: rest) a).
  rewrite (IH a c), (IH b c). reflexivity.
Qed.

Lemma linked_from_app (rest : list LogEntry.t) :
  forall (a e : LogEntry.t),
    linked_from a (rest ++ [e]) = (linked_from a rest && follows (last rest a) e)%bool.
Proof.
  induction rest as [|b rest IH]; intros a e.
  - simpl. rewrite andb_true_r. reflexivity.
  - rewrite last_cons. cbn [app linked_from]. rewrite IH, andb_assoc. reflexivity.
Qed.

Lemma linked_from_above (rest : list LogEntry.t) :
  forall (a : LogEntry.t) (floor : Promise),
    linked_from a rest = true -> precedes floor (LogEntry.promise a) ->
    precedes floor (LogEntry.promise (last rest a)).
Proof.
  induction rest as [|b rest IH]; intros a floor H Ha; [exact Ha|].
  simpl in H. apply andb_true_iff in H. destruct H as [Hf H].
  unfold follows in Hf. apply andb_true_iff in Hf. destruct Hf as [Hf _].
  apply andb_true_iff in Hf. destruct Hf as [_ Hf]. apply compare_lt in Hf.
  rewrite last_cons. apply IH; [exact H|]. exact (precedes_trans _ _ _ Ha Hf).
Qed.

Section Integrity.

Context {strategies : Strategies} {collaborators : Collaborators}.

Lemma zero_or_above (p : Promise) : p = (0, 0)%N \/ precedes (0, 0)%N p.
Proof.
  destruct p as [g r]. unfold precedes. simpl.
  destruct (N.eq_dec g 0), (N.eq_dec r 0); subst; auto; right; lia.
Qed.

(** A linked log whose head is ['0/0'] holds its first entry only. *)
Lemma linked_at_zero (l : Log.t) :
  linked l = true -> LogEntry.promise (log_head l) = (0, 0)%N ->
  exists first, Log.entries l = [first].
Proof.
  unfold linked, log_head. destruct (Log.entries l) as [|first [|second rest]];
    [discriminate|eauto|].
  intros H Hhead. apply andb_true_iff in H. destruct H as [_ H].
  apply andb_true_iff in H. destruct H as [Habove H]. apply compare_lt in Habove.
  pose proof (linked_from_above rest second (0, 0)%N H Habove) as Hlast.
  rewrite last_cons, last_cons in Hhead. rewrite Hhead in Hlast.
  exfalso. exact (precedes_irrefl _ Hlast).
Qed.

Lemma linked_push (e : LogEntry.t) (l : Log.t) (t : Promise) :
  linked l = true ->
  LogEntry.previous e = Some t ->
  precedes t (LogEntry.promise e) ->
  (Monotonic.isBoundary (LogEntry.promise e) 0 = false ->
   LogEntry.promise e = Monotonic.increment t 1) ->
  t = LogEntry.promise (log_head l) \/ LogEntry.promise (log_head l) = (0, 0)%N ->
  linked (Log.push e l) = true.
Proof.
  intros Hlinked Hprevious Habove Hnext Htop.
  assert (Hzero : precedes (0, 0)%N (LogEntry.promise e)).
  { destruct (zero_or_above t) as [->|Ht]; [exact Habove|].
    exact (precedes_trans _ _ _ Ht Habove). }
  destruct (zero_or_above (LogEntry.promise (log_head l))) as [Hhead|Hhead].
  - destruct (linked_at_zero l Hlinked Hhead) as [first Hfirst].
    unfold linked, Log.push in *. simpl. rewrite Hfirst in *. simpl.
    apply andb_true_iff in Hlinked. destruct Hlinked as [H0 _]. rewrite H0. simpl.
    apply compare_lt in Hzero. rewrite Hzero. reflexivity.
  - destruct Htop as [Htop|Htop];
      [|rewrite Htop in Hhead; exfalso; exact (precedes_irrefl _ Hhead)].
    unfold linked, Log.push, log_head in *. simpl.
    destruct (Log.entries l) as [|first [|second rest]]; [discriminate| |].
    + simpl in *. apply andb_true_iff in Hlinked. destruct Hlinked as [H0 _].
      rewrite H0. simpl. apply compare_lt in Hzero. rewrite Hzero. reflexivity.
    + cbn [app]. apply andb_true_iff in Hlinked. destruct Hlinked as [H0 H].
      apply andb_true_iff in H. destruct H as [H1 H2]. rewrite H0, H1. simpl.
      rewrite linked_from_app, H2. simpl.
      rewrite last_cons, last_cons in Htop. unfold follows.
      rewrite Hprevious, <- Htop.
      destruct (eqb_nullable_spec (Some t) (Some t)); [|congruence]. simpl.
      apply compare_lt in Habove. rewrite Habove. simpl.
      destruct (Monotonic.isBoundary (LogEntry.promise e) 0) eqn:Hb; [reflexivity|].
      simpl. rewrite (Hnext eq_refl). apply Monotonic_eqb_refl.
Qed.

Lemma _commit_intact (now : Z) (entry : Entry.t) (t : Promise) (s s' : Paxos) :
  _commit now entry (Some t) s = Ok s' ->
  intact (log s) ->
  t = head_promise s \/ head_promise s = (0, 0)%N ->
  intact (log s') /\ extends (log s) (log s').
Proof.
  intros H [Hlinked Hshift] Htop. apply _commit_effect in H.
  destruct H as [[-> _]|[Hlog [_ [_ [[t' [Ht [Habove Hnext]]] [Hprevious _]]]]]].
  - split; [split; assumption|apply extends_refl].
  - inversion Ht; subst t'; clear Ht. rewrite Hlog. split; [split|apply extends_push].
    + apply (linked_push _ _ t); auto.
    + simpl. rewrite length_app. simpl. lia.
Qed.

Lemma _synchronize_loop_intact (now : Z) (entries : list Entry.t) :
  forall (t : Promise) (s s' : Paxos),
    _synchronize_loop now entries (Some t) s = Ok s' ->
    intact (log s) ->
    t = head_promise s \/ head_promise s = (0, 0)%N ->
    intact (log s') /\ extends (log s) (log s').
Proof.
  induction entries as [|entry rest IH]; intros t s s' H Hintact Htop; simpl in H.
  - inversion H; subst. split; [assumption|apply extends_refl].
  - bind_inversion H. destruct (_commit_intact _ _ _ _ _ E Hintact Htop) as [Hi He].
    destruct (IH _ _ _ H Hi (or_introl eq_refl)) as [Hi' He'].
    split; [assumption|]. exact (extends_trans _ _ _ He He').
Qed.

Lemma _synchronize_intact (now : Z) (entries : list Entry.t) (s s' : Paxos) (ok : bool) :
  _synchronize now entries s = Ok (s', ok) ->
  intact (log s) ->
  intact (log s') /\ extends (log s) (log s').
Proof.
  unfold _synchronize. intros H Hintact. destruct entries as [|first rest].
  - inversion H; subst. split; [assumption|apply extends_refl].
  - destruct (Monotonic.eqb (head_promise s) (0, 0)%N) eqn:Hhead.
    + destruct (announces s first).
      * bind_inversion H. inversion H; subst; clear H.
        apply Monotonic_eqb_true in Hhead.
        destruct (Entry.previous first) as [t|] eqn:Hp.
        -- apply (_synchronize_loop_intact _ _ _ _ _ E Hintact). right. exact Hhead.
        -- simpl in E. discriminate.
      * inversion H; subst. split; [assumption|apply extends_refl].
    + bind_inversion H. inversion H; subst; clear H.
      apply (_synchronize_loop_intact _ _ _ _ _ E Hintact). left. reflexivity.
Qed.

Lemma _register_loop_intact (now : Z) (entries : list Entry.t) :
  forall (s s' : Paxos),
    _register_loop now entries s = Ok s' ->
    intact (log s) ->
    intact (log s') /\ extends (log s) (log s').
Proof.
  induction entries as [|entry rest IH]; intros s s' H Hintact; simpl in H.
  - inversion H; subst. split; [assumption|apply extends_refl].
  - bind_inversion H.
    destruct (_commit_intact _ _ _ _ _ E Hintact (or_introl eq_refl)) as [Hi He].
    destruct (IH _ _ H Hi) as [Hi' He'].
    split; [assumption|]. exact (extends_trans _ _ _ He He').
Qed.

Lemma enqueue_ledger (now : Z) (republic' : string) (message : JSON) (s s' : Paxos)
    (response : Enqueued) :
  enqueue now republic' message s = Ok (s', response) -> ledger s' = ledger s.
Proof.
  unfold enqueue. destruct (_enqueuable republic' s).
  - intros H; inversion H; reflexivity.
  - intros H. bind_inversion H. bind_inversion H. bind_inversion H.
    inversion H; subst; clear H. apply writer_nudge_ledger in E1. rewrite E1.
    unfold writer_push in E0. simpl in E0. destruct (_writer s).
    + unfold Writer_push in E0. bind_inversion E0. inversion E0; subst. reflexivity.
    + inversion E0; subst. reflexivity.
Qed.

Lemma immigrate_ledger (now : Z) (republic' id' : string) (cookie' : Z)
    (properties : option JSON) (s s' : Paxos) (response : Enqueued) :
  immigrate now republic' id' cookie' properties s = Ok (s', response) ->
  ledger s' = ledger s.
Proof.
  unfold immigrate. destruct (_enqueuable republic' s).
  - intros H; inversion H; reflexivity.
  - destruct (in_object id' (Government.properties (government s))).
    + intros H; inversion H; reflexivity.
    + destruct (_shaper s) as [sh|]; [|discriminate].
      intros H. bind_inversion H. inversion H; subst; clear H.
      apply _reshape_ledger in E. exact E.
Qed.

Lemma _collapse_log (now : Z) (s : Paxos) : log (_collapse now s) = log s.
Proof. reflexivity. Qed.

Lemma propose_loop_log (fuel : nat) (now : Z) :
  forall s s' : Paxos, propose_loop fuel now s = Some (Ok s') -> log s' = log s.
Proof.
  induction fuel as [|fuel IH]; intros s s' H; [discriminate|].
  cbn [propose_loop] in H.
  destruct (gather s (Government.majority (government s) ++ Government.minority (government s))
                   [id s] []) as [majority minority].
  destruct (List.length majority =? List.length (Government.majority (government s)))%nat.
  - inversion H as [H']. apply newGovernment_ledger in H'. apply ledger_log. exact H'.
  - apply IH in H. exact H.
Qed.

Lemma event_log (fuel : nat) (envelope : Timer.t) (s s' : Paxos) :
  event fuel envelope s = Some (Ok s') -> log s' = log s.
Proof.
  unfold event.
  destruct (negb (String.eqb (Timer.module envelope) "happenstance")
            || negb (String.eqb (Timer.method envelope) "event"))%bool.
  - intros H; inversion H; reflexivity.
  - destruct (Timer.body envelope).
    + apply propose_loop_log.
    + intros H; inversion H; reflexivity.
    + intros H. inversion H as [H']. apply _send_frame in H'. destruct H' as [H' _].
      apply ledger_log. exact H'.
Qed.

Lemma shift_trailer_bound (propagated : Promise) (live : list LogEntry.t) :
  forall n : nat, shift_trailer propagated live = Ok n -> (n < List.length live)%nat.
Proof.
  induction live as [|e rest IH]; intros n H; simpl in H; [discriminate|].
  destruct (Monotonic.compare (LogEntry.promise e) propagated <? 0)%Z.
  - bind_inversion H. inversion H; subst. apply IH in E. simpl. lia.
  - inversion H; subst. simpl. lia.
Qed.

Lemma intact_same (l l' : Log.t) : l' = l -> intact l -> intact l' /\ extends l l'.
Proof. intros ->. intros H. split; [exact H|apply extends_refl]. Qed.

Lemma intact_shift (l : Log.t) (n : nat) :
  intact l -> (n < List.length (Log.live l))%nat ->
  intact (Log.mk (Log.entries l) (Log.shifted l + n))
  /\ extends l (Log.mk (Log.entries l) (Log.shifted l + n)).
Proof.
  intros [Hl Hb] Hn. unfold Log.live in Hn. rewrite length_skipn in Hn.
  split; [split|split].
  - exact Hl.
  - simpl. lia.
  - exists []. simpl. rewrite app_nil_r. reflexivity.
  - simpl. lia.
Qed.

Lemma request_intact (now : Z) (req : Request.t) (s s' : Paxos) (reply : Response.t) :
  Message.method (Request.message req) = "synchronize" ->
  request now req s = Ok (s', reply) ->
  intact (log s) ->
  intact (log s') /\ extends (log s) (log s').
Proof.
  intros Hmethod H Hintact. unfold request in H. rewrite Hmethod in H.
  bind_inversion H.
  set (s0 := if (Monotonic.compare (Minimum.propagated (_minimum s)) a <? 0)%Z
             then mutate_minimum
                    (fun m => Minimum.mk a (Minimum.version m) (Minimum.reduced m)) s
             else s) in *.
  assert (Hs0 : log s0 = log s).
  { subst s0. destruct (Monotonic.compare (Minimum.propagated (_minimum s)) a <? 0)%Z;
      [|reflexivity].
    destruct (mutate_minimum_frame
                (fun m => Minimum.mk a (Minimum.version m) (Minimum.reduced m)) s)
      as [Hl _]. exact Hl. }
  bind_inversion H.
  destruct (a0 <? 0)%Z.
  - bind_inversion H. inversion H; subst; clear H. apply intact_same; assumption.
  - bind_inversion H. destruct a1 as [s1 ok]. cbn [fst snd] in H.
    rewrite <- Hs0 in Hintact.
    destruct (_synchronize_intact _ _ _ _ _ E1 Hintact) as [Hi He].
    rewrite Hs0 in He.
    destruct ok; cbn [negb] in H.
    + bind_inversion H. bind_inversion H. bind_inversion H.
      inversion H; subst; clear H. simpl in E3. inversion E3; subst; clear E3.
      simpl.
      match goal with
      | |- intact (log (if ?c then _ else _)) /\ _ => destruct c
      end; simpl;
      (destruct (negb (Monotonic.eqb (head_promise s1) (0, 0)%N));
       [bind_inversion E2; inversion E2; subst; clear E2; simpl;
        apply shift_trailer_bound in E3;
        destruct (intact_shift _ _ Hi E3) as [Hi' He'];
        split; [exact Hi'|exact (extends_trans _ _ _ He He')]
       |inversion E2; subst; split; assumption]).
    + bind_inversion H. inversion H; subst; clear H. split; assumption.
Qed.

Lemma unreachable_loop_log (now : Z) (reported : Obj.t (option Promise) bool) :
  forall s s' : Paxos, unreachable_loop now reported s = Ok s' -> log s' = log s.
Proof.
  induction reported as [|[key value] rest IH]; intros s s' H; simpl in H.
  - inversion H; reflexivity.
  - bind_inversion H. apply IH in H. rewrite H. clear H.
    destruct (negb (coalesce (Obj.get key (_unreachable s)) false));
      [|inversion E; reflexivity].
    simpl in E. destruct (_shaper s); [|inversion E; reflexivity].
    apply _reshape_ledger in E. apply ledger_log in E. exact E.
Qed.

Lemma update_minimum_log (message : Message.t) (recipient : string)
    (minimum : option Minimum.t) (s : Paxos) :
  log (update_minimum message recipient minimum s) = log s.
Proof.
  unfold update_minimum. destruct minimum as [m|]; [|reflexivity].
  destruct (Message.constituent message
            && minimum_differs (Obj.get recipient (_minimums s)) m)%bool; [|reflexivity].
  simpl. destruct (String.eqb recipient (id s)); reflexivity.
Qed.

Lemma housekeep_intact (now : Z) (message : Message.t) (recipient : string)
    (responses : Obj.t string Response.t) (s : Paxos)
    (r : Paxos * Obj.t string Response.t) :
  housekeep now message recipient responses s = Ok r ->
  intact (log s) ->
  intact (log (fst r)) /\ extends (log s) (log (fst r)).
Proof.
  unfold housekeep. intros H Hintact.
  match type of H with
  | (match ?block with pair _ _ => _ end) = _ =>
      assert (Hblock : log (fst block) = log s); [|destruct block as [s1 response]]
  end.
  { destruct (match Obj.get recipient responses with
              | Some response =>
                  String.eqb (Reply.method (Response.message response)) "unreachable"
              | None => true
              end); [|reflexivity].
    destruct (Message.collapsible message); simpl;
      match goal with
      | |- context [match ?x with Some _ => _ | None => _ end] => destruct x
      end;
      try match goal with
          | |- context [if ?c then _ else _] => destruct c
          end; reflexivity. }
  cbn [fst] in Hblock.
  bind_inversion H. bind_inversion H. inversion H; subst; clear H. cbn [fst].
  rewrite update_minimum_log. apply unreachable_loop_log in E0. rewrite E0.
  destruct a as [s2 ok]. cbn [fst].
  assert (Hpre : intact (log (match Sync.committed (Response.sync response) with
                              | Some committed =>
                                  with_committed
                                    (Obj.set (immigration_promise recipient s) committed
                                             (_committed s1)) s1
                              | None => s1
                              end))).
  { destruct (Sync.committed (Response.sync response)); simpl; rewrite Hblock;
      exact Hintact. }
  destruct (_synchronize_intact _ _ _ _ _ E Hpre) as [Hi He]. split; [exact Hi|].
  assert (Hsame : log (match Sync.committed (Response.sync response) with
                       | Some committed =>
                           with_committed
                             (Obj.set (immigration_promise recipient s) committed
                                      (_committed s1)) s1
                       | None => s1
                       end) = log s).
  { destruct (Sync.committed (Response.sync response)); simpl; exact Hblock. }
  rewrite Hsame in He. exact He.
Qed.

Lemma housekeeping_intact (now : Z) (message : Message.t) (to : list string) :
  forall (responses : Obj.t string Response.t) (s : Paxos)
         (r : Paxos * Obj.t string Response.t),
    housekeeping now message to responses s = Ok r ->
    intact (log s) ->
    intact (log (fst r)) /\ extends (log s) (log (fst r)).
Proof.
  induction to as [|recipient rest IH]; intros responses s r H Hintact; simpl in H.
  - inversion H; subst. split; [assumption|apply extends_refl].
  - bind_inversion H. destruct (housekeep_intact _ _ _ _ _ _ E Hintact) as [Hi He].
    destruct (IH _ _ _ H Hi) as [Hi' He']. split; [assumption|].
    exact (extends_trans _ _ _ He He').
Qed.

Lemma response_intact (now : Z) (message : Message.t)
    (responses : Obj.t string Response.t) (s s' : Paxos) :
  Message.method message = "synchronize" ->
  response now message responses s = Ok s' ->
  intact (log s) ->
  intact (log s') /\ extends (log s) (log s').
Proof.
  intros Hmethod H Hintact. unfold response in H. rewrite Hmethod in H.
  bind_inversion H. bind_inversion H.
  destruct (housekeeping_intact _ _ _ _ _ _ E0 Hintact) as [Hi He].
  cbn [String.eqb Ascii.eqb Bool.eqb] in H.
  destruct (match Message.version message with
            | VGovernment promise =>
                Monotonic.eqb promise (Government.promise (government (fst a0)))
            | VWriter _ _ => false
            end); [|inversion H; subst; split; assumption].
  bind_inversion H.
  match type of H with
  | (if ?c then _ else _) = _ => destruct c
  end; inversion H; subst; split; assumption.
Qed.

Lemma bootstrap_intact (now : Z) (properties : JSON) (s s' : Paxos) :
  head_promise s = (0, 0)%N ->
  bootstrap now properties s = Ok s' ->
  intact (log s) ->
  intact (log s') /\ extends (log s) (log s').
Proof.
  intros Hhead H Hintact. unfold bootstrap in H. bind_inversion H.
  assert (Ha : log a = log s /\ head_promise a = head_promise s).
  { simpl in E. destruct (_shaper s); [|discriminate]. inversion E; subst. auto. }
  destruct Ha as [Hlog Hh].
  rewrite <- Hlog in Hintact. rewrite <- Hlog.
  apply (_commit_intact _ _ _ _ _ H Hintact). left. rewrite Hh, Hhead. reflexivity.
Qed.

Lemma _register_intact (now : Z) (register : list Entry.t) (s s' : Paxos) :
  _register now register s = Ok s' ->
  intact (log s) ->
  intact (log s') /\ extends (log s) (log s').
Proof. unfold _register. apply _register_loop_intact. Qed.

Lemma step_intact (s s' : Paxos) :
  step s s' -> intact (log s) -> intact (log s') /\ extends (log s) (log s').
Proof.
  intros Hstep Hintact. destruct Hstep.
  - eapply bootstrap_intact; eassumption.
  - apply intact_same; [|assumption]. apply ledger_log.
    eapply enqueue_ledger. eassumption.
  - apply intact_same; [|assumption]. apply ledger_log.
    eapply immigrate_ledger. eassumption.
  - apply intact_same; [|assumption]. eapply event_log. eassumption.
  - eapply request_intact; eassumption.
  - eapply response_intact; eassumption.
  - eapply _register_intact; eassumption.
Qed.

Lemma reachable_intact (s : Paxos) : reachable s -> intact (log s).
Proof.
  induction 1 as [now republic' id' options|s s' _ IH Hstep].
  - split; [reflexivity|simpl; lia].
  - exact (proj1 (step_intact s s' Hstep IH)).
Qed.

(** X17 ([Paxos.prototype._commit] and its callers): in every state a
    citizen reaches from its construction, the log begins with the null
    entry under ['0/0'], the entries after it lie above ['0/0'] in strictly
    increasing order, each but the first of them names the promise of the
    entry before it as its previous, and each user entry among these
    follows the entry before it by one minor step. *)
Theorem log_stays_linked (s : Paxos) : reachable s -> linked (log s) = true.
Proof. intros H. exact (proj1 (reachable_intact s H)). Qed.

(** X19 (every operation of the citizen on its log): no operation removes
    or rewrites an entry of the log or moves the trailer back: after a
    step of a citizen, the entries are the former entries followed by the
    new ones, and the trailer has shifted over at least as many. *)
Theorem log_only_grows (s s' : Paxos) :
  reachable s -> step s s' -> extends (log s) (log s').
Proof.
  intros H Hstep. exact (proj2 (step_intact s s' Hstep (reachable_intact s H))).
Qed.

End Integrity.

Lemma dictator_reachable : reachable dictator.
Proof.
  apply (reach_step (Paxos_new 0 "republic" "0" scene_options)).
  - apply reach_new.
  - apply (step_bootstrap 0 "{}"); vm_compute; reflexivity.
Qed.

Lemma log_stays_linked_witness : linked (log dictator) = true.
Proof. exact (log_stays_linked dictator dictator_reachable). Defined.

Lemma log_only_grows_witness : extends (log dictator) (log served).
Proof.
  apply (log_only_grows dictator served dictator_reachable).
  apply (step_request 2 foreign_request dictator served
                      (match request 2 foreign_request dictator with
                       | Ok r => snd r
                       | Throw _ => unreachable_response
                       end));
    vm_compute; reflexivity.
Defined.

(** ** A sync segment, sent and received *)

Lemma last_default {A : Type} (l : list A) (a b : A) : l <> [] -> last l a = last l b.
Proof. destruct l as [|x l]; [congruence|]. intros _. rewrite !last_cons. reflexivity. Qed.

Lemma last_skipn {A : Type} (n : nat) :
  forall (l : list A) (d : A), skipn n l <> [] -> last (skipn n l) d = last l d.
Proof.
  induction n as [|n IH]; intros l d H; [reflexivity|].
  destruct l as [|a l]; [reflexivity|]. simpl in H. simpl skipn.
  rewrite IH by exact H. rewrite last_cons. apply last_default.
  intros E. rewrite E, skipn_nil in H. congruence.
Qed.

Lemma last_append {A : Type} (l l' : list A) (d : A) :
  l' <> [] -> last (l ++ l') d = last l' d.
Proof.
  intros H. induction l as [|a l IH]; [reflexivity|].
  change ((a :: l) ++ l') with (a :: (l ++ l')). rewrite last_cons.
  rewrite <- IH. apply last_default. destruct l; [exact H|discriminate].
Qed.

Lemma last_map_cons {A B : Type} (f : A -> B) (rest : list A) :
  forall (n : A) (d : B), last (List.map f (n :: rest)) d = f (last rest n).
Proof.
  induction rest as [|m rest IH]; intros n d; [reflexivity|].
  change (List.map f (n :: m :: rest)) with (f n :: List.map f (m :: rest)).
  rewrite last_cons, last_cons.
  rewrite <- (IH m (f n)). reflexivity.
Qed.

Lemma run_tail (a : LogEntry.t) (rest : list LogEntry.t) :
  run (a :: rest) = true -> run rest = true.
Proof.
  simpl. destruct rest as [|b rest]; [reflexivity|]. simpl.
  intros H. apply andb_true_iff in H. tauto.
Qed.

Lemma run_skipn (n : nat) :
  forall nodes : list LogEntry.t, run nodes = true -> run (skipn n nodes) = true.
Proof.
  induction n as [|n IH]; intros nodes H; [exact H|].
  destruct nodes as [|a rest]; [reflexivity|]. simpl. apply IH.
  exact (run_tail _ _ H).
Qed.

Lemma after_run (c : Promise) (nodes : list LogEntry.t) :
  forall found : list LogEntry.t,
    run nodes = true -> Log.after c nodes = Some found ->
    exists b, LogEntry.promise b = c /\ linked_from b found = true
              /\ last nodes null_entry = last found b.
Proof.
  induction nodes as [|a rest IH]; intros found Hrun H; [discriminate|].
  simpl in H. destruct (Monotonic_eqb_spec (LogEntry.promise a) c) as [Heq|Hne].
  - inversion H; subst. exists a. split; [reflexivity|]. split; [exact Hrun|].
    apply last_cons.
  - destruct (IH found (run_tail _ _ Hrun) H) as [b [Hb [Hl Hlast]]].
    exists b. split; [exact Hb|]. split; [exact Hl|].
    rewrite last_cons. destruct rest as [|r rest]; [discriminate|].
    rewrite last_cons in Hlast. rewrite last_cons. exact Hlast.
Qed.

Lemma linked_run (l : Log.t) :
  linked l = true -> forall c nodes,
    c <> (0, 0)%N -> Log.after c (Log.live l) = Some nodes ->
    exists b, LogEntry.promise b = c /\ linked_from b nodes = true
              /\ log_head l = last nodes b.
Proof.
  intros H c nodes Hc Hafter. unfold linked in H. unfold Log.live in Hafter.
  unfold log_head.
  destruct (Log.entries l) as [|first rest] eqn:He; [discriminate|].
  apply andb_true_iff in H. destruct H as [Hfirst H].
  apply Monotonic_eqb_true in Hfirst.
  assert (Hrun : run rest = true).
  { destruct rest as [|second rest']; [reflexivity|].
    apply andb_true_iff in H. simpl. tauto. }
  destruct (Log.shifted l) as [|n].
  - simpl in Hafter. destruct (Monotonic_eqb_spec (LogEntry.promise first) c) as [Hz|_];
      [exfalso; apply Hc; rewrite <- Hz; exact Hfirst|].
    destruct (after_run c rest nodes Hrun Hafter) as [b [Hb [Hl Hlast]]].
    exists b. split; [exact Hb|]. split; [exact Hl|].
    rewrite last_cons. destruct rest as [|r rest']; [discriminate|].
    rewrite last_cons in Hlast. rewrite last_cons. exact Hlast.
  - simpl in Hafter.
    destruct (after_run c (skipn n rest) nodes (run_skipn n rest Hrun) Hafter)
      as [b [Hb [Hl Hlast]]].
    exists b. split; [exact Hb|]. split; [exact Hl|]. rewrite <- Hlast.
    assert (Hne : skipn n rest <> []).
    { intros E. rewrite E in Hafter. discriminate. }
    rewrite (last_skipn n rest null_entry Hne), last_cons.
    apply last_default. intros E. rewrite E, skipn_nil in Hne. congruence.
Qed.

Lemma linked_from_consecutive (nodes : list LogEntry.t) :
  forall (b : LogEntry.t) (k : nat),
    linked_from b nodes = true ->
    forallb user_entry (List.map commit_of (firstn k nodes)) = true ->
    consecutive (LogEntry.promise b) (List.map commit_of (firstn k nodes)) = true.
Proof.
  induction nodes as [|n rest IH]; intros b k Hl Hu.
  - rewrite firstn_nil. reflexivity.
  - destruct k as [|k]; [reflexivity|]. simpl in *.
    apply andb_true_iff in Hl. destruct Hl as [Hf Hl].
    apply andb_true_iff in Hu. destruct Hu as [Hn Hu].
    unfold follows in Hf. apply andb_true_iff in Hf. destruct Hf as [Hf Hnext].
    apply andb_true_iff in Hf. destruct Hf as [Hprev _].
    apply eqb_nullable_true in Hprev. rewrite Hprev.
    destruct (eqb_nullable_spec (Some (LogEntry.promise b)) (Some (LogEntry.promise b)));
      [|congruence].
    unfold user_entry in Hn. simpl in Hn. apply negb_true_iff in Hn.
    rewrite Hn in Hnext. simpl in Hnext. apply Monotonic_eqb_true in Hnext.
    rewrite Hnext, Monotonic_eqb_refl. simpl. rewrite <- Hnext. apply IH; assumption.
Qed.

Section RoundTrip.

Context {strategies : Strategies} {collaborators : Collaborators}.

Lemma _sync_commits (who : option string) (c : Promise) (count : nat) (s : Paxos)
    (sync : Sync.t) :
  c <> (0, 0)%N -> (1 <= count)%nat -> _sync who (Some c) count s = Ok sync ->
  exists nodes,
    Log.after c (Log.live (log s)) = Some nodes
    /\ Sync.commits sync = List.map commit_of (firstn (count - 1) nodes).
Proof.
  intros Hc Hcount Hsync. unfold _sync in Hsync.
  destruct (Monotonic_eqb_spec c (0, 0)%N) as [|_]; [congruence|].
  apply bind_ok in Hsync. destruct Hsync as [nodes [Hnodes Hsync]].
  apply bind_ok in Hnodes. destruct Hnodes as [u1 [_ Hnodes]].
  apply bind_ok in Hnodes. destruct Hnodes as [u2 [_ Hnodes]].
  destruct (Log.after c (Log.live (log s))) as [found|]; [|discriminate].
  exists nodes. split; [congruence|].
  injection Hsync as <-. cbn [Sync.commits].
  rewrite (counted_firstn _ _ Hcount). reflexivity.
Qed.

(** X20 ([Paxos.prototype._sync], [Paxos.prototype._synchronize]): what
    one citizen sends another takes.  When a citizen whose log is linked
    builds the sync segment for a peer that is at [committed], other than
    ['0/0'], and the segment holds user entries only, a citizen whose head
    is [committed] accepts the segment whole: [_synchronize] returns true
    and its log grows by exactly these commits, in order; and unless the
    segment was cut at 23 commits, its head is then the sender's head. *)

Theorem sync_round_trip (now : Z) (who : option string) (c : Promise)
    (sender receiver : Paxos) (sync : Sync.t) :
  linked (log sender) = true ->
  c <> (0, 0)%N ->
  _sync who (Some c) 24 sender = Ok sync ->
  head_promise receiver = c ->
  forallb user_entry (Sync.commits sync) = true ->
  exists receiver',
    _synchronize now (Sync.commits sync) receiver = Ok (receiver', true)
    /\ Log.entries (log receiver')
       = Log.entries (log receiver) ++ List.map logged (Sync.commits sync)
    /\ ((List.length (Sync.commits sync) < 23)%nat ->
        head_promise receiver' = head_promise sender).
Proof.
  intros Hlinked Hc Hsync Hhead Huser.
  assert (Hcount : (1 <= 24)%nat) by lia.
  destruct (_sync_commits who c 24 sender sync Hc Hcount Hsync) as [nodes [Hafter Hcommits]].
  remember (24 - 1)%nat as k eqn:Hk.
  assert (Hk' : k = 23%nat) by (rewrite Hk; reflexivity). clear Hk.
  destruct (linked_run _ Hlinked c nodes Hc Hafter) as [b [Hb [Hl Hlast]]].
  rewrite Hcommits in *.
  pose proof (linked_from_consecutive nodes b k Hl Huser) as Hcons.
  rewrite Hb in Hcons.
  assert (Hnz : Monotonic.eqb (head_promise receiver) (0, 0)%N = false).
  { rewrite Hhead. destruct (Monotonic_eqb_spec c (0, 0)%N); [congruence|reflexivity]. }
  remember (List.map commit_of (firstn k nodes)) as commits eqn:Ecommits.
  destruct (_synchronize_loop_pushes now commits c receiver Hcons) as [r' [Hloop Hlog]].
  exists r'. split; [|split].
  - unfold _synchronize. destruct commits as [|first rest].
    + simpl in Hloop. inversion Hloop. reflexivity.
    + rewrite Hnz, Hhead, Hloop. reflexivity.
  - exact Hlog.
  - intros Hshort. rewrite Ecommits, length_map, length_firstn in Hshort.
    assert (Hall : firstn k nodes = nodes) by (apply firstn_all2; lia).
    rewrite Hall in Ecommits. unfold head_promise at 2. rewrite Hlast.
    unfold head_promise, log_head. rewrite Hlog, Ecommits.
    destruct nodes as [|n rest].
    + simpl. rewrite app_nil_r. fold (log_head (log receiver)).
      fold (head_promise receiver). rewrite Hhead, Hb. reflexivity.
    + rewrite last_cons.
      assert (Hne : List.map logged (List.map commit_of (n :: rest)) <> []) by discriminate.
      rewrite last_append by exact Hne.
      rewrite map_map, last_map_cons. reflexivity.
Qed.

End RoundTrip.

Lemma sync_round_trip_witness :
  exists receiver',
    _synchronize 3 (Sync.commits segment) dictator = Ok (receiver', true)
    /\ Log.entries (log receiver')
       = Log.entries (log dictator) ++ List.map logged (Sync.commits segment)
    /\ ((List.length (Sync.commits segment) < 23)%nat ->
        head_promise receiver' = head_promise served).
Proof.
  apply (sync_round_trip 3 (Some "1") (1, 0)%N served dictator segment).
  - vm_compute. reflexivity.
  - discriminate.
  - vm_compute. reflexivity.
  - vm_compute. reflexivity.
  - vm_compute. reflexivity.
Defined.

(** ** The trailer and the head *)

Section Overrunning.

Context {strategies : Strategies} {collaborators : Collaborators}.










End Overrunning.


(** ** The enactment of a government *)

Section Enacting.

Context {strategies : Strategies} {collaborators : Collaborators}.

Lemma kept_minimums_keys (constituency : list string) (minimums : Obj.t string Minimum.t)
    (k : string) :
  Obj.has k (kept_minimums constituency minimums) = true -> In k constituency.
Proof.
  unfold kept_minimums.
  assert (G : forall (acc : Obj.t string Minimum.t),
             Obj.has k (fold_left
                          (fun acc id =>
                             match Obj.get id minimums with
                             | Some m => Obj.set id m acc
                             | None => acc
                             end) constituency acc) = true ->
             In k constituency \/ Obj.has k acc = true).
  { induction constituency as [|c rest IH]; intros acc H; simpl in H; [auto|].
    destruct (IH _ H) as [Hin|Hacc]; [left; right; exact Hin|].
    destruct (Obj.get c minimums) as [m|]; [|auto].
    destruct (String.eqb_spec k c) as [->|Hne]; [left; left; reflexivity|].
    right. unfold Obj.has in *.
    rewrite (get_set_other (H := Key_string) String.eqb_spec) in Hacc by exact Hne.
    exact Hacc. }
  intros H. destruct (G [] H) as [Hin|Hacc]; [exact Hin|discriminate].
Qed.

Lemma kept_committed_keys (constituency : list string) (g : Government.t)
    (committed : Obj.t (option Promise) Promise) (k : option Promise) :
  Obj.has k (kept_committed constituency g committed) = true ->
  exists c, In c constituency /\ k = Obj.get c (Government.immigrated_promise g).
Proof.
  unfold kept_committed.
  assert (G : forall (acc : Obj.t (option Promise) Promise),
             Obj.has k (fold_left
                          (fun acc id =>
                             let promise := Obj.get id (Government.immigrated_promise g) in
                             match Obj.get promise committed with
                             | Some c => Obj.set promise c acc
                             | None => acc
                             end) constituency acc) = true ->
             (exists c, In c constituency
                        /\ k = Obj.get c (Government.immigrated_promise g))
             \/ Obj.has k acc = true).
  { induction constituency as [|c rest IH]; intros acc H; simpl in H; [auto|].
    destruct (IH _ H) as [[c' [Hin Hk]]|Hacc]; [left; exists c'; simpl; auto|].
    destruct (Obj.get (Obj.get c (Government.immigrated_promise g)) committed) as [v|];
      [|auto].
    destruct (eqb_nullable_spec k (Obj.get c (Government.immigrated_promise g)))
      as [->|Hne]; [left; exists c; simpl; auto|].
    right. unfold Obj.has in *.
    rewrite (get_set_other (H := Key_nullable) eqb_nullable_spec) in Hacc by exact Hne.
    exact Hacc. }
  intros H. destruct (G [] H) as [Hin|Hacc]; [exact Hin|discriminate].
Qed.

Lemma forget_unreachable_none (who : list string) (g : Government.t) :
  forall (unreachable : Obj.t (option Promise) bool) (key : option Promise),
    (exists w, In w who /\ key = Obj.get w (Government.immigrated_promise g))
    \/ Obj.get key unreachable = None ->
    Obj.get key (forget_unreachable who g unreachable) = None.
Proof.
  unfold forget_unreachable. induction who as [|w rest IH]; intros unreachable key H; simpl.
  - destruct H as [[w [[] _]]|H]. exact H.
  - apply IH. destruct H as [[w' [[Hw|Hw] Hk]]|H].
    + subst. right. apply (get_del (H := Key_nullable) eqb_nullable_spec).
    + left. exists w'. auto.
    + right.
      destruct (eqb_nullable_spec key (Obj.get w (Government.immigrated_promise g)))
        as [->|Hne].
      * apply (get_del (H := Key_nullable) eqb_nullable_spec).
      * rewrite (get_del_other (H := Key_nullable) eqb_nullable_spec) by exact Hne.
        exact H.
Qed.

Lemma ledger_tables (s s' : Paxos) : ledger s' = ledger s -> tables s' = tables s.
Proof. unfold ledger, tables. intros H. injection H. intros. congruence. Qed.

Lemma shape_tables (now : Z) (g : Government.t) (s s' : Paxos) :
  shape now g s = Ok s' -> tables s' = tables s.
Proof.
  unfold shape.
  destruct (match Government.leader g with
            | Some leader => String.eqb (id s) leader
            | None => false
            end).
  - intros H. apply bind_ok in H. destruct H as [s1 [H1 H]].
    apply reshape_naturalized_ledger in H. apply reshape_unreachable_ledger in H1.
    rewrite H1 in H. apply ledger_tables in H. exact H.
  - intros H. inversion H; subst. reflexivity.
Qed.

Lemma enact_tables (now : Z) (entry : Entry.t) (g : Government.t) (s s' : Paxos) :
  Entry.body entry = BGovernment g ->
  enact now entry s = Ok s' ->
  government s' = g
  /\ constituency s' = Constituency g (id s)
  /\ citizens s'
     = Government.majority g ++ Government.minority g ++ Government.constituents g
  /\ _minimums s' = kept_minimums (Constituency g (id s)) (_minimums s)
  /\ _committed s' = kept_committed (Constituency g (id s)) g (_committed s)
  /\ _unreachable s'
     = match Government.map g with
       | None => forget_unreachable (Government.minority g) g
                   (forget_unreachable (Government.majority g) g (_unreachable s))
       | Some _ => _unreachable s
       end
  /\ _minimums_shared s' = false.
Proof.
  intros Hbody H. unfold enact in H. bind_inversion H. rewrite Hbody in H.
  bind_inversion H. inversion H; subst; clear H. apply shape_tables in E0.
  unfold tables in E0. injection E0 as Hc Hci Hm Hco Hu Hg.
  unfold settle.
  match goal with
  | |- context [if ?c then _ else _] => destruct c
  end; cbn -[kept_minimums kept_committed forget_unreachable seat];
    rewrite Hc, Hm, Hco, Hu, Hci; unfold seat; destruct (Government.map g);
    repeat split; exact Hg.
Qed.


Lemma append_tables (now : Z) (entry : Entry.t) (s s' : Paxos) :
  _minimums_shared s = false ->
  append now entry s = Ok s' -> tables s' = tables s.
Proof.
  intros Hshared H. unfold append in H. bind_inversion H. inversion H; subst; clear H.
  assert (Hm : forall f, tables (mutate_minimum f s) = tables s).
  { intros f. unfold mutate_minimum. simpl. rewrite Hshared. reflexivity. }
  destruct (constituency s) eqn:Ec;
    match goal with
    | |- context [if ?c then _ else _] => destruct c
    end; unfold tables in *; simpl; try reflexivity;
    specialize (Hm (fun m => Minimum.mk (Minimum.propagated m) (Minimum.version m)
                                        (Entry.promise entry)));
    simpl in Hm; exact Hm.
Qed.

(** The commit of a government entry above [top]: the state it returns in
    terms of the government enacted. *)
Lemma _commit_government (now : Z) (entry : Entry.t) (top : Promise) (g : Government.t)
    (s s' : Paxos) :
  _commit now entry (Some top) s = Ok s' ->
  precedes top (Entry.promise entry) ->
  Monotonic.isBoundary (Entry.promise entry) 0 = true ->
  Entry.body entry = BGovernment g ->
  tables s'
  = (Constituency g (id s),
     Government.majority g ++ Government.minority g ++ Government.constituents g,
     kept_minimums (Constituency g (id s)) (_minimums s),
     kept_committed (Constituency g (id s)) g (_committed s),
     match Government.map g with
     | None => forget_unreachable (Government.minority g) g
                 (forget_unreachable (Government.majority g) g (_unreachable s))
     | Some _ => _unreachable s
     end,
     g).
Proof.
  intros H Habove Hboundary Hbody. unfold _commit in H.
  cbn [compare_nullable bind] in H.
  assert (Horder : (Monotonic.compare (Entry.promise entry) top <=? 0)%Z = false).
  { destruct (Monotonic.compare (Entry.promise entry) top <=? 0)%Z eqn:E; [|reflexivity].
    apply compare_le in E. destruct E as [E|E].
    - exfalso. exact (precedes_irrefl _ (precedes_trans _ _ _ Habove E)).
    - rewrite E in Habove. exfalso. exact (precedes_irrefl _ Habove). }
  rewrite Horder, Hboundary in H.
  bind_inversion H. bind_inversion H. bind_inversion H. bind_inversion H.
  destruct (enact_tables now entry g s a2 Hbody E2) as [H1 [H2 [H3 [H4 [H5 [H6 H7]]]]]].
  rewrite (append_tables now entry a2 s' H7 H). unfold tables.
  rewrite H1, H2, H3, H4, H5, H6. reflexivity.
Qed.

(** X21 ([Paxos.prototype._commit], the enactment of a government): once
    a government entry has been committed, the citizen's government is the
    body of the entry, its citizens are the majority, the minority and the
    constituents of that government in this order, and its peer tables
    hold no stale record: every key of [_minimums] is one of its
    constituents and every key of [_committed] is the immigration promise
    of one of them. *)

Theorem enactment_prunes (now : Z) (entry : Entry.t) (top : Promise) (g : Government.t)
    (s s' : Paxos) :
  _commit now entry (Some top) s = Ok s' ->
  precedes top (Entry.promise entry) ->
  Monotonic.isBoundary (Entry.promise entry) 0 = true ->
  Entry.body entry = BGovernment g ->
  government s' = g
  /\ citizens s'
     = Government.majority g ++ Government.minority g ++ Government.constituents g
  /\ (forall k, Obj.has k (_minimums s') = true -> In k (constituency s'))
  /\ (forall k, Obj.has k (_committed s') = true ->
                exists c, In c (constituency s') /\ k = immigration_promise c s').
Proof.
  intros H Habove Hboundary Hbody.
  pose proof (_commit_government _ _ _ _ _ _ H Habove Hboundary Hbody) as T.
  unfold tables in T. injection T as Hc Hci Hm Hco Hu Hg.
  split; [exact Hg|]. split; [exact Hci|]. split.
  - intros k Hk. rewrite Hm in Hk. rewrite Hc. eapply kept_minimums_keys. exact Hk.
  - intros k Hk. rewrite Hco in Hk. rewrite Hc. unfold immigration_promise. rewrite Hg.
    eapply kept_committed_keys. exact Hk.
Qed.

(** X22 ([Paxos.prototype._commit], the enactment of a government formed
    by a round of Paxos): when the government enacted carries no map of
    re-numbered promises, no member of its majority or minority is marked
    unreachable afterwards, whatever was recorded before. *)

Theorem recovery_forgets_unreachable (now : Z) (entry : Entry.t) (top : Promise)
    (g : Government.t) (s s' : Paxos) :
  _commit now entry (Some top) s = Ok s' ->
  precedes top (Entry.promise entry) ->
  Monotonic.isBoundary (Entry.promise entry) 0 = true ->
  Entry.body entry = BGovernment g ->
  Government.map g = None ->
  forall who, In who (Government.majority g ++ Government.minority g) ->
              marked (immigration_promise who s') s' = false.
Proof.
  intros H Habove Hboundary Hbody Hmap who Hwho.
  pose proof (_commit_government _ _ _ _ _ _ H Habove Hboundary Hbody) as T.
  unfold tables in T. injection T as Hc Hci Hm Hco Hu Hg.
  unfold marked, immigration_promise. rewrite Hu, Hg, Hmap.
  assert (Hnone : Obj.get (Obj.get who (Government.immigrated_promise g))
                          (forget_unreachable (Government.minority g) g
                             (forget_unreachable (Government.majority g) g
                                                 (_unreachable s))) = None).
  { apply in_app_or in Hwho. destruct Hwho as [Hmaj|Hmin].
    - apply forget_unreachable_none. right. apply forget_unreachable_none.
      left. exists who. auto.
    - apply forget_unreachable_none. left. exists who. auto. }
  rewrite Hnone. reflexivity.
Qed.

End Enacting.

Lemma enactment_prunes_witness :
  government leader3 = government3
  /\ citizens leader3
     = Government.majority government3 ++ Government.minority government3
       ++ Government.constituents government3
  /\ (forall k, Obj.has k (_minimums leader3) = true -> In k (constituency leader3))
  /\ (forall k, Obj.has k (_committed leader3) = true ->
                exists c, In c (constituency leader3)
                          /\ k = immigration_promise c leader3).
Proof.
  apply (enactment_prunes 3 (Entry.mk (3, 0)%N (BGovernment government3) (Some (2, 0)%N))
                          (2, 0)%N government3 leader2_reported leader3).
  - vm_compute. reflexivity.
  - unfold precedes. simpl. lia.
  - reflexivity.
  - reflexivity.
Defined.

Lemma recovery_forgets_unreachable_witness :
  marked (immigration_promise "1" unanswered_again) unanswered_again = true
  /\ marked (immigration_promise "1" recovered) recovered = false.
Proof.
  split; [vm_compute; reflexivity|].
  apply (recovery_forgets_unreachable 6 recovery (2, 0)%N
           (Government.mk (3, 0)%N ["0"; "1"] [] [] [("0", "{}"); ("1", "{}")]
                          [((1, 0)%N, "0"); ((2, 0)%N, "1")]
                          [("0", (1, 0)%N); ("1", (2, 0)%N)] None None None)
           unanswered_again recovered).
  - vm_compute. reflexivity.
  - unfold precedes. simpl. lia.
  - reflexivity.
  - reflexivity.
  - reflexivity.
  - simpl. auto.
Defined.

(** ** The segment for an immigrant *)

Section Announcing.

Context {strategies : Strategies} {collaborators : Collaborators}.

Lemma immigration_from_first (who : option string) (nodes : list LogEntry.t) :
  forall found : list LogEntry.t,
    immigration_from who nodes = Some found ->
    exists first rest, found = first :: rest /\ immigrates who first = true.
Proof.
  induction nodes as [|e rest IH]; intros found H; simpl in H; [discriminate|].
  destruct (immigrates who e) eqn:E.
  - inversion H; subst. eauto.
  - apply IH. exact H.
Qed.

(** X23 ([Paxos.prototype._sync], [Paxos.prototype._synchronize]): the
    sync segment built for a peer that is at ['0/0'] begins with the
    government entry that announces the immigration of that peer, so a
    citizen that has the id and the cookie of the immigration record is
    never turned away by [_synchronize]: it does not return false.  (When
    no entry in the log announces the peer, [_sync] throws instead of
    returning.) *)

Theorem sync_announces (who : string) (count : nat) (s : Paxos) (sync : Sync.t) :
  (2 <= count)%nat ->
  _sync (Some who) (Some (0, 0)%N) count s = Ok sync ->
  exists first rest immigrate,
    Sync.commits sync = first :: rest
    /\ Monotonic.isBoundary (Entry.promise first) 0 = true
    /\ body_immigrate (Entry.body first) = Some immigrate
    /\ Immigrate.id immigrate = who
    /\ forall (now : Z) (receiver result : Paxos) (ok : bool),
         id receiver = who -> cookie receiver = Immigrate.cookie immigrate ->
         _synchronize now (Sync.commits sync) receiver = Ok (result, ok) -> ok = true.
Proof.
  intros Hcount H. unfold _sync in H.
  change (Monotonic.eqb (0, 0)%N (0, 0)%N) with true in H. cbn iota in H.
  destruct (immigration_from (Some who) (Log.live (log s))) as [nodes|] eqn:Hfrom;
    [|discriminate].
  cbn [bind] in H. injection H as <-. cbn [Sync.commits].
  destruct (immigration_from_first _ _ _ Hfrom) as [first [rest [-> Himm]]].
  destruct count as [|[|k]]; try lia. cbn [counted firstn List.map].
  unfold immigrates in Himm. apply andb_true_iff in Himm. destruct Himm as [Hb Hi].
  destruct (body_immigrate (LogEntry.body first)) as [i|] eqn:Hbody; [|discriminate].
  apply String.eqb_eq in Hi.
  exists (commit_of first), (List.map commit_of (firstn k rest)), i.
  split; [reflexivity|]. split; [exact Hb|]. split; [exact Hbody|]. split; [exact Hi|].
  intros now receiver result ok Hid Hcookie Hsync. unfold _synchronize in Hsync.
  destruct (Monotonic.eqb (head_promise receiver) (0, 0)%N).
  - assert (Ha : announces receiver (commit_of first) = true).
    { unfold announces. cbn [commit_of Entry.promise Entry.body]. rewrite Hb, Hbody.
      rewrite Hi, Hid, String.eqb_refl, Hcookie, Z.eqb_refl. reflexivity. }
    rewrite Ha in Hsync. apply bind_ok in Hsync. destruct Hsync as [r [_ Hsync]].
    inversion Hsync. reflexivity.
  - apply bind_ok in Hsync. destruct Hsync as [r [_ Hsync]].
    inversion Hsync. reflexivity.
Qed.

End Announcing.

Lemma sync_announces_witness :
  exists first rest immigrate,
    Sync.commits announcement = first :: rest
    /\ Monotonic.isBoundary (Entry.promise first) 0 = true
    /\ body_immigrate (Entry.body first) = Some immigrate
    /\ Immigrate.id immigrate = "1"
    /\ forall (now : Z) (receiver result : Paxos) (ok : bool),
         id receiver = "1" -> cookie receiver = Immigrate.cookie immigrate ->
         _synchronize now (Sync.commits announcement) receiver = Ok (result, ok) ->
         ok = true.
Proof.
  apply (sync_announces "1" 24 leader2 announcement).
  - lia.
  - vm_compute. reflexivity.
Defined.

(** ** Requests and the propagated minimum *)

Section Raising.

Context {strategies : Strategies} {collaborators : Collaborators}.

(** X24 ([Paxos.prototype.request]): a synchronize request never lowers
    the propagated minimum of the citizen that serves it, and leaves it no
    lower than the propagated minimum the sender advertises. *)
Theorem request_never_lowers (now : Z) (req : Request.t) (s s' : Paxos)
    (reply : Response.t) (theirs : Minimum.t) :
  Message.method (Request.message req) = "synchronize" ->
  Sync.minimum (Request.sync req) = Some theirs ->
  request now req s = Ok (s', reply) ->
  ~ precedes (Minimum.propagated (_minimum s')) (Minimum.propagated (_minimum s))
  /\ ~ precedes (Minimum.propagated (_minimum s')) (Minimum.propagated theirs).
Proof.
  intros Hmethod Htheirs H.
  rewrite (request_raises_propagated now req s s' reply theirs Hmethod Htheirs H).
  destruct (Monotonic.compare (Minimum.propagated (_minimum s))
                              (Minimum.propagated theirs) <? 0)%Z eqn:E.
  - apply compare_lt in E. split.
    + intros P. exact (precedes_irrefl _ (precedes_trans _ _ _ E P)).
    + apply precedes_irrefl.
  - split; [apply precedes_irrefl|]. intros P. apply compare_lt in P. congruence.
Qed.

End Raising.

Lemma request_never_lowers_witness :
  Minimum.propagated (_minimum dictator) = (0, 0)%N
  /\ Minimum.propagated (_minimum heeding) = (1, 0)%N
  /\ ~ precedes (Minimum.propagated (_minimum heeding))
                (Minimum.propagated (_minimum dictator))
  /\ ~ precedes (Minimum.propagated (_minimum heeding))
                (Minimum.propagated (Minimum.mk (1, 0) (1, 0) (1, 0))%N).
Proof.
  split; [vm_compute; reflexivity|]. split; [vm_compute; reflexivity|].
  apply (request_never_lowers 2 advertising dictator heeding
           (match request 2 advertising dictator with
            | Ok r => snd r
            | Throw _ => unreachable_response
            end));
    vm_compute; reflexivity.
Defined.

(** ** The segment of the earlier citizen *)

Lemma not_below (a b : Promise) :
  (Monotonic.compare a b <? 0)%Z = false <-> precedes b a \/ a = b.
Proof.
  split.
  - intros H. apply Z.ltb_ge in H.
    assert (L : (Monotonic.compare b a <=? 0)%Z = true).
    { apply Z.leb_le. rewrite compare_antisym. lia. }
    apply compare_le in L. destruct L as [L|L]; auto.
  - intros H. apply Z.ltb_ge.
    assert (L : (Monotonic.compare b a <=? 0)%Z = true).
    { apply compare_le. destruct H as [H|H]; auto. }
    apply Z.leb_le in L. rewrite compare_antisym in L. lia.
Qed.

Lemma above_trans (a b : Promise) (ping : Ping.t) :
  (Monotonic.compare a b <? 0)%Z = false -> above a ping -> above b ping.
Proof.
  intros Hab [c [Hc Hca]]. exists c. split; [exact Hc|].
  apply not_below in Hab. apply not_below in Hca. apply not_below.
  unfold precedes in *. destruct a, b, c; simpl in *.
  destruct Hab as [Hab|Hab]; destruct Hca as [Hca|Hca];
    try (inversion Hab; subst); try (inversion Hca; subst); auto; left; lia.
Qed.

Lemma least_ping_least (rest : list Ping.t) :
  forall ping least : Ping.t,
    least_ping ping rest = Ok least -> rest <> [] ->
    exists floor,
      Ping.committed least = Some floor /\ floor <> (0, 0)%N
      /\ In least (ping :: rest) /\ Forall (above floor) (ping :: rest).
Proof.
  induction rest as [|next rest IH]; intros ping least H Hne; [congruence|].
  simpl in H.
  destruct (Ping.committed ping) as [a|] eqn:Ha; [|discriminate].
  destruct (Ping.committed next) as [b|] eqn:Hb; [|discriminate].
  bind_inversion H. apply assert_ok in E. apply negb_true_iff in E.
  set (chosen := if (Monotonic.compare b a <? 0)%Z then next else ping) in *.
  assert (Hchosen : exists c, Ping.committed chosen = Some c
                              /\ (Monotonic.compare a c <? 0)%Z = false
                              /\ (Monotonic.compare b c <? 0)%Z = false
                              /\ In chosen [ping; next]).
  { subst chosen. destruct (Monotonic.compare b a <? 0)%Z eqn:Hlt.
    - exists b. split; [exact Hb|]. split; [|split].
      + apply not_below. left. apply compare_lt. exact Hlt.
      + apply not_below. right. reflexivity.
      + simpl. auto.
    - exists a. split; [exact Ha|]. split; [|split].
      + apply not_below. right. reflexivity.
      + exact Hlt.
      + simpl. auto. }
  destruct Hchosen as [c [Hc [Hac [Hbc Hin]]]]. clearbody chosen.
  destruct rest as [|third rest'].
  - simpl in H. inversion H; subst least. exists c.
    split; [exact Hc|]. split.
    + intros ->. rewrite Hc in E. unfold eqb_nullable in E.
      rewrite Monotonic_eqb_refl in E. discriminate.
    + split.
      * simpl in *. tauto.
      * constructor; [exists a; auto|]. constructor; [exists b; auto|constructor].
  - destruct (IH chosen least H) as [floor [Hf [Hz [Hl Hall]]]]; [discriminate|].
    inversion Hall as [|x l Hchosen' Hrest]; subst.
    destruct Hchosen' as [c' [Hc' Hfloor]]. rewrite Hc in Hc'. inversion Hc'; subst c'.
    exists floor. split; [exact Hf|]. split; [exact Hz|]. split.
    + simpl in Hl, Hin. simpl. intuition (subst; auto).
    + constructor; [apply (above_trans c); [exact Hfloor|exists a; auto]|].
      constructor; [apply (above_trans c); [exact Hfloor|exists b; auto]|].
      exact Hrest.
Qed.

(** X25 ([Paxos.prototype._stuffSynchronize] of the earlier citizen): a
    request to two or more recipients is given one sync segment, cut for
    the slowest of them.  When the function returns it returns true, every
    recipient has a committed promise, the least of these is not ['0/0'],
    and the commits pushed onto the segment are the log entries that follow
    the entry under that least promise: the first [count - 1] of them for
    a [count] of one or more, and all of them for a [count] of zero, which
    the loop decrements to [-1] before it tests it.  A recipient without a
    committed promise, or one at ['0/0'], makes the function throw. *)
Theorem stuffSynchronize_least (pings : list Ping.t) (sync sync' : Sync.t) (count : nat)
    (log : Log.t) (minimum : Promise) (ok : bool) :
  (2 <= List.length pings)%nat ->
  _stuffSynchronize pings sync count log minimum = Ok (sync', ok) ->
  ok = true
  /\ exists least floor nodes pushed,
       In least pings /\ Ping.committed least = Some floor /\ floor <> (0, 0)%N
       /\ Forall (above floor) pings
       /\ Log.after floor (Log.live log) = Some nodes
       /\ Sync.commits sync' = Sync.commits sync ++ List.map commit_of pushed
       /\ ((1 <= count)%nat -> pushed = firstn (count - 1) nodes)
       /\ (count = O -> pushed = nodes).
Proof.
  intros Hlen H. unfold _stuffSynchronize in H.
  destruct pings as [|first rest]; [discriminate|].
  bind_inversion H.
  destruct (least_ping_least rest first a E) as [floor [Hf [Hz [Hin Hall]]]].
  { destruct rest; [simpl in Hlen; lia|discriminate]. }
  rewrite Hf in H. destruct (Monotonic_eqb_spec floor (0, 0)%N) as [|_]; [congruence|].
  bind_inversion H. bind_inversion E0. bind_inversion E0.
  destruct (Log.after floor (Log.live log)) as [nodes|] eqn:Hafter; [|discriminate].
  inversion E0; subst a0; clear E0. inversion H; subst. split; [reflexivity|].
  exists a, floor, nodes, (counted count nodes). cbn [Sync.commits].
  split; [exact Hin|]. split; [exact Hf|]. split; [exact Hz|]. split; [exact Hall|].
  split; [exact Hafter|]. split; [reflexivity|]. split.
  - apply counted_firstn.
  - intros ->. reflexivity.
Qed.

Lemma stuffSynchronize_least_witness :
  true = true
  /\ exists least floor nodes pushed,
       In least laggards /\ Ping.committed least = Some floor /\ floor <> (0, 0)%N
       /\ Forall (above floor) laggards
       /\ Log.after floor (Log.live (log served)) = Some nodes
       /\ Sync.commits
            (Sync.mk (Some "republic") None (Some "0") None (Some (1, 1)%N)
                     [Entry.mk (1, 1)%N (BMessage "foreign") (Some (1, 0)%N)])
          = Sync.commits empty_sync ++ List.map commit_of pushed
       /\ ((1 <= 20)%nat -> pushed = firstn (20 - 1) nodes)
       /\ (20%nat = O -> pushed = nodes).
Proof.
  apply (stuffSynchronize_least laggards empty_sync _ 20 (log served) (0, 0)%N true).
  - simpl. lia.
  - vm_compute. reflexivity.
Defined.
